(** * A shallow embedding of the chess rules engine (src/utils/chessEngine.ts)

    The engine works on a [string[][]] board whose cells are two-character
    piece codes (["wK"], ["bP"], ...) or the empty string, and on a record of
    four castling rights.  The embedding keeps that representation: rows are
    lists of strings, coordinates are integers, and the two ways a JavaScript
    array access can go wrong are written out (reading [board[r][c]] throws a
    TypeError when [board[r]] is undefined and yields [undefined] when only
    the column is out of range).

    The functions come in two layers.  The first passes board values and
    rights records around and returns the new ones where the source mutates
    its argument.  The second ([Module Store]) keeps rows and rights records
    as objects in a store, for the one question that is about sharing: what a
    call leaves untouched.  The two are related by simulation lemmas. *)

From Stdlib Require Import ZArith String Ascii List Bool Lia QArith Qround.
From stdpp Require Import base list.
Import ListNotations.

Local Open Scope string_scope.
Local Open Scope list_scope.
Local Open Scope Z_scope.

(** ** Outcomes of a call *)

Inductive error : Type :=
| TypeError   (* a property of [undefined] was read or written *)
| OffGrid     (* a write past the end of a row: JavaScript would lengthen the
                 array; the model does not follow boards that stop being grids *)
| OutOfFuel   (* the bound given to a [while] loop was too small *)
| BadRef.     (* a location that holds no object of the expected kind; only
                 a store that is not well formed has one *)

Inductive result (A : Type) : Type :=
| Ok (a : A)
| Err (e : error).

Arguments Ok {A} a.
Arguments Err {A} e.

Definition bind {A B : Type} (m : result A) (k : A -> result B) : result B :=
  match m with
  | Ok a => k a
  | Err e => Err e
  end.

Notation "x <- m ;; k" := (bind m (fun x => k))
  (at level 100, m at next level, right associativity).

(** [for (const x of xs) { ...push... }]: the pushes of every iteration, in order. *)
Fixpoint forPush {A B : Type} (f : A -> result (list B)) (xs : list A)
  : result (list B) :=
  match xs with
  | [] => Ok []
  | x :: xs' => ys <- f x ;; zs <- forPush f xs' ;; Ok (ys ++ zs)
  end.

(** A loop that returns [true] at the first iteration whose test succeeds. *)
Fixpoint anyM {A : Type} (f : A -> result bool) (xs : list A) : result bool :=
  match xs with
  | [] => Ok false
  | x :: xs' => v <- f x ;; if v then Ok true else anyM f xs'
  end.

(** Short-circuit [&&] whose right operand may throw. *)
Definition andThen (a : result bool) (k : result bool) : result bool :=
  v <- a ;; if v then k else Ok false.

Notation "a &&> k" := (andThen a k) (at level 41, right associativity).

(** ** Board and state model *)

Abbreviation Row := (list string).
Abbreviation Board := (list (list string)).
Definition Square : Type := (Z * Z)%type.

Record GameState : Type := mkGameState {
  canWhiteCastleKingside : bool;
  canWhiteCastleQueenside : bool;
  canBlackCastleKingside : bool;
  canBlackCastleQueenside : bool
}.

Definition initialBoard : Board :=
  [ ["bR"; "bN"; "bB"; "bQ"; "bK"; "bB"; "bN"; "bR"];
    ["bP"; "bP"; "bP"; "bP"; "bP"; "bP"; "bP"; "bP"];
    [""; ""; ""; ""; ""; ""; ""; ""];
    [""; ""; ""; ""; ""; ""; ""; ""];
    [""; ""; ""; ""; ""; ""; ""; ""];
    [""; ""; ""; ""; ""; ""; ""; ""];
    ["wP"; "wP"; "wP"; "wP"; "wP"; "wP"; "wP"; "wP"];
    ["wR"; "wN"; "wB"; "wQ"; "wK"; "wB"; "wN"; "wR"] ].

Definition initialGameState : GameState :=
  mkGameState true true true true.

(** [xs[i]] for a JavaScript number [i]: [None] is [undefined]. *)
Definition idx {A : Type} (xs : list A) (i : Z) : option A :=
  if 0 <=? i then xs !! Z.to_nat i else None.

(** [board[r][c]]. *)
Definition cellAt (board : Board) (r c : Z) : result (option string) :=
  match idx board r with
  | None => Err TypeError
  | Some row => Ok (idx row c)
  end.

(** [board[r][c] = v].  Row out of range: TypeError.  Column out of range:
    JavaScript grows the row (or adds a property for a negative index); that
    case is reported as [OffGrid]. *)
Definition setCell (board : Board) (r c : Z) (v : string) : result Board :=
  match idx board r with
  | None => Err TypeError
  | Some row =>
      match idx row c with
      | None => Err OffGrid
      | Some _ => Ok (<[Z.to_nat r := <[Z.to_nat c := v]> row]> board)
      end
  end.

(** [s.charAt(n)]: a one-character string, or the empty string. *)
Definition charAt (s : string) (n : nat) : string :=
  match String.get n s with
  | Some a => String a EmptyString
  | None => EmptyString
  end.

(** A truthy cell value: a non-empty string.  [undefined] and [''] are falsy. *)
Definition asPiece (v : option string) : option string :=
  match v with
  | Some s => if String.eqb s "" then None else Some s
  | None => None
  end.

(** [v === s] for a value that may be [undefined]. *)
Definition isStr (v : option string) (s : string) : bool :=
  match v with
  | Some s' => String.eqb s' s
  | None => false
  end.

Definition inRange (i : Z) : bool := (0 <=? i) && (i <? 8).

Definition onBoard (r c : Z) : bool := inRange r && inRange c.

Definition sqEqb (m : Square) (r c : Z) : bool :=
  (fst m =? r) && (snd m =? c).

Definition range8 : list Z := [0; 1; 2; 3; 4; 5; 6; 7].

(** The squares in the order of the nested [for (row) for (col)] loops. *)
Definition squares : list Square :=
  flat_map (fun r => map (fun c => (r, c)) range8) range8.

(** ** Raw move generator *)

Definition pawnForward (board : Board) (row col : Z) (isWhite : bool)
  : result (list Square) :=
  let direction := if isWhite then -1 else 1 in
  if inRange (row + direction) then
    ahead <- cellAt board (row + direction) col ;;
    match asPiece ahead with
    | Some _ => Ok []
    | None =>
        let startRow := if isWhite then 6 else 1 in
        if row =? startRow then
          ahead2 <- cellAt board (row + 2 * direction) col ;;
          match asPiece ahead2 with
          | Some _ => Ok [(row + direction, col)]
          | None => Ok [(row + direction, col); (row + 2 * direction, col)]
          end
        else Ok [(row + direction, col)]
    end
  else Ok [].

Definition pawnCaptures (board : Board) (row col : Z) (piece : string)
    (isWhite : bool) : result (list Square) :=
  let direction := if isWhite then -1 else 1 in
  forPush (fun offset =>
    if inRange (col + offset) then
      target <- cellAt board (row + direction) (col + offset) ;;
      match asPiece target with
      | Some t =>
          if String.eqb (charAt t 0) (charAt piece 0) then Ok []
          else Ok [(row + direction, col + offset)]
      | None => Ok []
      end
    else Ok []) [-1; 1].

(** One [while] loop of a sliding piece, started at [(r, c)]. *)
Fixpoint slide (fuel : nat) (board : Board) (piece : string)
    (r c dr dc : Z) : result (list Square) :=
  if onBoard r c then
    match fuel with
    | O => Err OutOfFuel
    | S fuel' =>
        here <- cellAt board r c ;;
        match asPiece here with
        | None =>
            rest <- slide fuel' board piece (r + dr) (c + dc) dr dc ;;
            Ok ((r, c) :: rest)
        | Some t =>
            if String.eqb (charAt t 0) (charAt piece 0) then Ok [] else Ok [(r, c)]
        end
    end
  else Ok [].

Definition slides (board : Board) (piece : string) (row col : Z)
    (directions : list (Z * Z)) : result (list Square) :=
  forPush (fun d => slide 8 board piece (row + fst d) (col + snd d) (fst d) (snd d))
    directions.

(** The knight's and the king's fixed offsets. *)
Definition steps (board : Board) (piece : string) (row col : Z)
    (offsets : list (Z * Z)) : result (list Square) :=
  forPush (fun o =>
    let r := row + fst o in
    let c := col + snd o in
    if onBoard r c then
      there <- cellAt board r c ;;
      match asPiece there with
      | None => Ok [(r, c)]
      | Some t => if String.eqb (charAt t 0) (charAt piece 0) then Ok [] else Ok [(r, c)]
      end
    else Ok []) offsets.

Definition rookDirections : list (Z * Z) := [(0, 1); (1, 0); (0, -1); (-1, 0)].
Definition bishopDirections : list (Z * Z) := [(1, 1); (1, -1); (-1, -1); (-1, 1)].
Definition knightOffsets : list (Z * Z) :=
  [(1, 2); (2, 1); (2, -1); (1, -2); (-1, -2); (-2, -1); (-2, 1); (-1, 2)].
Definition kingOffsets : list (Z * Z) :=
  [(0, 1); (1, 1); (1, 0); (1, -1); (0, -1); (-1, -1); (-1, 0); (-1, 1)].

Definition getRawPossibleMoves (row col : Z) (board : Board)
  : result (list Square) :=
  here <- cellAt board row col ;;
  match asPiece here with
  | None => Ok []
  | Some piece =>
      let pieceType := charAt piece 1 in
      let isWhite := String.eqb (charAt piece 0) "w" in
      pawn <- (if String.eqb pieceType "P" then
                 fwd <- pawnForward board row col isWhite ;;
                 caps <- pawnCaptures board row col piece isWhite ;;
                 Ok (fwd ++ caps)
               else Ok []) ;;
      rook <- (if (String.eqb pieceType "R") || (String.eqb pieceType "Q")
               then slides board piece row col rookDirections else Ok []) ;;
      knight <- (if String.eqb pieceType "N"
                 then steps board piece row col knightOffsets else Ok []) ;;
      bishop <- (if (String.eqb pieceType "B") || (String.eqb pieceType "Q")
                 then slides board piece row col bishopDirections else Ok []) ;;
      king <- (if String.eqb pieceType "K"
               then steps board piece row col kingOffsets else Ok []) ;;
      Ok (pawn ++ rook ++ knight ++ bishop ++ king)
  end.

(** ** Attack and check detection *)

(** The first square, in loop order, whose cell is the string [s]. *)
Fixpoint firstAt (board : Board) (s : string) (sqs : list Square)
  : result (option Square) :=
  match sqs with
  | [] => Ok None
  | (r, c) :: sqs' =>
      here <- cellAt board r c ;;
      if isStr here s then Ok (Some (r, c)) else firstAt board s sqs'
  end.

Definition findKing (board : Board) (isWhite : bool) : result (option Square) :=
  let kingPiece := if isWhite then "wK" else "bK" in
  firstAt board kingPiece squares.

Definition isSquareUnderAttack (row col : Z) (board : Board) (byWhite : bool)
  : result bool :=
  anyM (fun sq : Square =>
    let (r, c) := sq in
    here <- cellAt board r c ;;
    match asPiece here with
    | None => Ok false
    | Some piece =>
        let isPieceWhite := String.eqb (charAt piece 0) "w" in
        if Bool.eqb isPieceWhite byWhite then
          moves <- getRawPossibleMoves r c board ;;
          Ok (existsb (fun m => sqEqb m row col) moves)
        else Ok false
    end) squares.

Definition isKingInCheck (board : Board) (isWhiteKing : bool) : result bool :=
  kingPos <- findKing board isWhiteKing ;;
  match kingPos with
  | None => Ok false
  | Some (r, c) => isSquareUnderAttack r c board (negb isWhiteKing)
  end.

(** ** Legal moves *)

(** The simulated move of the filter loop: a copy of the board on which the
    piece has been written to the candidate square and its origin cleared.
    [piece] is the value of [testBoard[row][col]], which the copy took from
    [board[row][col]]. *)
Definition testMove (board : Board) (row col : Z) (piece : string) (move : Square)
  : result Board :=
  testBoard <- setCell board (fst move) (snd move) piece ;;
  setCell testBoard row col "".

(** [!board[r][c]], [board[r][c] === s] and [!e] as tests that may throw. *)
Definition isEmptyAt (board : Board) (r c : Z) : result bool :=
  v <- cellAt board r c ;;
  Ok (match asPiece v with None => true | Some _ => false end).

Definition isAt (board : Board) (r c : Z) (s : string) : result bool :=
  v <- cellAt board r c ;; Ok (isStr v s).

Definition notM (e : result bool) : result bool :=
  v <- e ;; Ok (negb v).

(** The castling destinations pushed after the raw moves of a king. *)
Definition castlingMoves (board : Board) (gameState : GameState) (isWhite : bool)
  : result (list Square) :=
  if isWhite then
    ks <- (Ok (canWhiteCastleKingside gameState) &&>
           isEmptyAt board 7 5 &&> isEmptyAt board 7 6 &&>
           isAt board 7 7 "wR" &&>
           notM (isKingInCheck board true) &&>
           notM (isSquareUnderAttack 7 5 board false) &&>
           notM (isSquareUnderAttack 7 6 board false)) ;;
    qs <- (Ok (canWhiteCastleQueenside gameState) &&>
           isEmptyAt board 7 1 &&> isEmptyAt board 7 2 &&> isEmptyAt board 7 3 &&>
           isAt board 7 0 "wR" &&>
           notM (isKingInCheck board true) &&>
           notM (isSquareUnderAttack 7 2 board false) &&>
           notM (isSquareUnderAttack 7 3 board false)) ;;
    Ok ((if ks then [(7, 6)] else []) ++ (if qs then [(7, 2)] else []))
  else
    ks <- (Ok (canBlackCastleKingside gameState) &&>
           isEmptyAt board 0 5 &&> isEmptyAt board 0 6 &&>
           isAt board 0 7 "bR" &&>
           notM (isKingInCheck board false) &&>
           notM (isSquareUnderAttack 0 5 board true) &&>
           notM (isSquareUnderAttack 0 6 board true)) ;;
    qs <- (Ok (canBlackCastleQueenside gameState) &&>
           isEmptyAt board 0 1 &&> isEmptyAt board 0 2 &&> isEmptyAt board 0 3 &&>
           isAt board 0 0 "bR" &&>
           notM (isKingInCheck board false) &&>
           notM (isSquareUnderAttack 0 2 board true) &&>
           notM (isSquareUnderAttack 0 3 board true)) ;;
    Ok ((if ks then [(0, 6)] else []) ++ (if qs then [(0, 2)] else [])).

(** The filter loop: keep the candidates after which the mover's king is not
    in check. *)
Definition keepSafe (board : Board) (row col : Z) (piece : string)
    (isWhite : bool) (possibleMoves : list Square) : result (list Square) :=
  forPush (fun move =>
    testBoard <- testMove board row col piece move ;;
    chk <- isKingInCheck testBoard isWhite ;;
    Ok (if chk then [] else [move])) possibleMoves.

Definition getPossibleMoves (row col : Z) (board : Board) (gameState : GameState)
  : result (list Square) :=
  here <- cellAt board row col ;;
  match asPiece here with
  | None => Ok []
  | Some piece =>
      let isWhite := String.eqb (charAt piece 0) "w" in
      let pieceType := charAt piece 1 in
      raw <- getRawPossibleMoves row col board ;;
      castling <- (if String.eqb pieceType "K"
                   then castlingMoves board gameState isWhite else Ok []) ;;
      keepSafe board row col piece isWhite (raw ++ castling)
  end.

(** ** Applying a move *)

Definition clearWhite (gs : GameState) : GameState :=
  mkGameState false false (canBlackCastleKingside gs) (canBlackCastleQueenside gs).

Definition clearBlack (gs : GameState) : GameState :=
  mkGameState (canWhiteCastleKingside gs) (canWhiteCastleQueenside gs) false false.

Definition clearWhiteKingside (gs : GameState) : GameState :=
  mkGameState false (canWhiteCastleQueenside gs)
    (canBlackCastleKingside gs) (canBlackCastleQueenside gs).

Definition clearWhiteQueenside (gs : GameState) : GameState :=
  mkGameState (canWhiteCastleKingside gs) false
    (canBlackCastleKingside gs) (canBlackCastleQueenside gs).

Definition clearBlackKingside (gs : GameState) : GameState :=
  mkGameState (canWhiteCastleKingside gs) (canWhiteCastleQueenside gs)
    false (canBlackCastleQueenside gs).

Definition clearBlackQueenside (gs : GameState) : GameState :=
  mkGameState (canWhiteCastleKingside gs) (canWhiteCastleQueenside gs)
    (canBlackCastleKingside gs) false.

(** [board[r][c2] = board[r][c1]; board[r][c1] = '']: the rook's share of a
    castling move.  A rook cell that reads [undefined] lies past the end of
    its row, so the second write is the one that leaves the grid. *)
Definition relocateRook (board : Board) (r c1 c2 : Z) : result Board :=
  rook <- cellAt board r c1 ;;
  match rook with
  | None => Err OffGrid
  | Some s => board' <- setCell board r c2 s ;; setCell board' r c1 ""
  end.

(** The rights lost by moving a rook from, or capturing a rook on, square
    [(r, c)]. *)
Definition rookRights (piece : option string) (r c : Z) (gs : GameState)
  : GameState :=
  if isStr piece "wR" then
    if (r =? 7) && (c =? 0) then clearWhiteQueenside gs
    else if (r =? 7) && (c =? 7) then clearWhiteKingside gs
    else gs
  else if isStr piece "bR" then
    if (r =? 0) && (c =? 0) then clearBlackQueenside gs
    else if (r =? 0) && (c =? 7) then clearBlackKingside gs
    else gs
  else gs.

(** [updateGameState] mutates [board] (the castling rook) and returns a fresh
    rights record; here it returns both. *)
Definition updateGameState (fromRow fromCol toRow toCol : Z) (board : Board)
    (gameState : GameState) : result (Board * GameState) :=
  piece <- cellAt board fromRow fromCol ;;
  kingStep <-
    (if isStr piece "wK" then
       board' <- (if (fromRow =? 7) && (fromCol =? 4) then
                    if toCol =? 6 then relocateRook board 7 7 5
                    else if toCol =? 2 then relocateRook board 7 0 3
                    else Ok board
                  else Ok board) ;;
       Ok (board', clearWhite gameState)
     else if isStr piece "bK" then
       board' <- (if (fromRow =? 0) && (fromCol =? 4) then
                    if toCol =? 6 then relocateRook board 0 7 5
                    else if toCol =? 2 then relocateRook board 0 0 3
                    else Ok board
                  else Ok board) ;;
       Ok (board', clearBlack gameState)
     else Ok (board, gameState)) ;;
  let newGameState := rookRights piece fromRow fromCol (snd kingStep) in
  targetPiece <- cellAt (fst kingStep) toRow toCol ;;
  Ok (fst kingStep, rookRights targetPiece toRow toCol newGameState).

(** What both callers (the click handler of the game component and
    [makeComputerMove]) do with a chosen move: update the rights, then write
    the moving piece to the destination and clear the origin. *)
Definition applyMove (from to : Square) (piece : string) (board : Board)
    (gameState : GameState) : result (Board * GameState) :=
  st <- updateGameState (fst from) (snd from) (fst to) (snd to) board gameState ;;
  board1 <- setCell (fst st) (fst to) (snd to) piece ;;
  board2 <- setCell board1 (fst from) (snd from) "" ;;
  Ok (board2, snd st).

(** ** Promotion *)

Definition canPromotePawn (row col : Z) (board : Board) : result bool :=
  here <- cellAt board row col ;;
  match asPiece here with
  | None => Ok false
  | Some piece =>
      if String.eqb (charAt piece 1) "P" then
        Ok ((String.eqb (charAt piece 0) "w" && (row =? 0))
            || (String.eqb (charAt piece 0) "b" && (row =? 7)))
      else Ok false
  end.

Definition promotePawn (row col : Z) (board : Board) (newPiece : string)
  : result Board :=
  here <- cellAt board row col ;;
  match asPiece here with
  | None => Ok board
  | Some piece =>
      if String.eqb (charAt piece 1) "P" then
        let color := charAt piece 0 in
        setCell board row col (color ++ newPiece)%string
      else Ok board
  end.

(** ** The computer's move *)

(** An entry of [blackPieces]. *)
Record Candidate : Type := mkCandidate {
  cRow : Z;
  cCol : Z;
  cPiece : string;
  cMoves : list Square
}.

(** One iteration of the loop that fills [blackPieces]. *)
Definition candidateAt (board : Board) (gameState : GameState) (sq : Square)
  : result (list Candidate) :=
  let (row, col) := sq in
  here <- cellAt board row col ;;
  match asPiece here with
  | None => Ok []
  | Some piece =>
      if String.eqb (charAt piece 0) "b" then
        moves <- getPossibleMoves row col board gameState ;;
        Ok (match moves with
            | [] => []
            | _ :: _ => [mkCandidate row col piece moves]
            end)
      else Ok []
  end.

Definition collectBlack (board : Board) (gameState : GameState)
  : result (list Candidate) :=
  forPush (candidateAt board gameState) squares.

(** [Math.floor(Math.random() * n)] for a draw [u] of [Math.random()], taken
    as a rational in [0, 1); the rounding of the floating-point product is
    not modelled (the product is exact when [n] is 1). *)
Definition randomIndex (u : Q) (n : nat) : Z :=
  Qfloor (u * inject_Z (Z.of_nat n)).

Definition isDraw (u : Q) : Prop := (0 <= u)%Q /\ (u < 1)%Q.

(** [makeComputerMove] on board values; [u1] and [u2] are its two draws.  The
    copy [newBoard] has the contents of [board]; that it is a different
    object is the subject of the store model further down. *)
Definition makeComputerMove (board : Board) (gameState : GameState) (u1 u2 : Q)
  : result (Board * GameState) :=
  let newBoard := board in
  blackPieces <- collectBlack board gameState ;;
  match blackPieces with
  | [] => Ok (newBoard, gameState)
  | _ :: _ =>
      match idx blackPieces (randomIndex u1 (length blackPieces)) with
      | None => Err TypeError
      | Some selectedPiece =>
          let moves := cMoves selectedPiece in
          match idx moves (randomIndex u2 (length moves)) with
          | None => Err TypeError
          | Some targetMove =>
              st <- updateGameState (cRow selectedPiece) (cCol selectedPiece)
                      (fst targetMove) (snd targetMove) newBoard gameState ;;
              board1 <- setCell (fst st) (fst targetMove) (snd targetMove)
                          (cPiece selectedPiece) ;;
              board2 <- setCell board1 (cRow selectedPiece) (cCol selectedPiece) "" ;;
              promote <- canPromotePawn (fst targetMove) (snd targetMove) board2 ;;
              board3 <- (if promote
                         then promotePawn (fst targetMove) (snd targetMove) board2 "Q"
                         else Ok board2) ;;
              Ok (board3, snd st)
          end
      end
  end.

(** * Boards and rights records as shared objects

    The functions above pass board values around.  In the source a board is
    an array of row arrays and a rights record is an object: both are passed
    by reference, and [updateGameState], [promotePawn] and the filter loop of
    [getPossibleMoves] write into the arrays they are handed.  The store
    model keeps the objects in a store and the references apart, so that
    which rows a write reaches is a matter of which locations a board shares.

    A location is an index into the store; allocation appends.  A board
    reference is the list of the locations of its rows, that is, the content
    of the outer array, to which no function of the engine ever writes. *)

Inductive object : Type :=
| Cells (row : list string)
| Rights (gs : GameState).

Module Store.

Definition rowAt (h : list object) (l : nat) : result (list string) :=
  match h !! l with
  | Some (Cells row) => Ok row
  | _ => Err BadRef
  end.

Definition rightsAt (h : list object) (l : nat) : result GameState :=
  match h !! l with
  | Some (Rights gs) => Ok gs
  | _ => Err BadRef
  end.

(** The board value a reference denotes. *)
Fixpoint snapshot (h : list object) (board : list nat) : result Board :=
  match board with
  | [] => Ok []
  | l :: ls => row <- rowAt h l ;; rows <- snapshot h ls ;; Ok (row :: rows)
  end.

(** [board[r][c]]. *)
Definition readCell (h : list object) (board : list nat) (r c : Z)
  : result (option string) :=
  match idx board r with
  | None => Err TypeError
  | Some l => row <- rowAt h l ;; Ok (idx row c)
  end.

(** [board[r][c] = v]: the row object at the location is replaced. *)
Definition writeCell (h : list object) (board : list nat) (r c : Z) (v : string)
  : result (list object) :=
  match idx board r with
  | None => Err TypeError
  | Some l =>
      row <- rowAt h l ;;
      match idx row c with
      | None => Err OffGrid
      | Some _ => Ok (<[l := Cells (<[Z.to_nat c := v]> row)]> h)
      end
  end.

(** [board.map(row => [...row])]: a new row object per row, in order. *)
Fixpoint copyBoard (h : list object) (board : list nat)
  : result (list object * list nat) :=
  match board with
  | [] => Ok (h, [])
  | l :: ls =>
      row <- rowAt h l ;;
      st <- copyBoard (h ++ [Cells row]) ls ;;
      Ok (fst st, length h :: snd st)
  end.

(** [{ ...gameState }]. *)
Definition copyRights (h : list object) (gameState : nat)
  : result (list object * nat) :=
  gs <- rightsAt h gameState ;;
  Ok (h ++ [Rights gs], length h).

(** Assignments to fields of the record at a location. *)
Definition modifyRights (h : list object) (l : nat) (f : GameState -> GameState)
  : result (list object) :=
  gs <- rightsAt h l ;;
  Ok (<[l := Rights (f gs)]> h).

(** The filter loop.  Each iteration allocates its own [testBoard] and
    writes to it; [piece] is the value of [testBoard[row][col]], which the
    copy took from [board[row][col]]. *)
Fixpoint keepSafe (h : list object) (board : list nat) (row col : Z)
    (piece : string) (isWhite : bool) (possibleMoves : list Square)
  : result (list object * list Square) :=
  match possibleMoves with
  | [] => Ok (h, [])
  | move :: rest =>
      st <- copyBoard h board ;;
      let testBoard := snd st in
      h1 <- writeCell (fst st) testBoard (fst move) (snd move) piece ;;
      h2 <- writeCell h1 testBoard row col "" ;;
      tb <- snapshot h2 testBoard ;;
      chk <- isKingInCheck tb isWhite ;;
      r <- keepSafe h2 board row col piece isWhite rest ;;
      Ok (fst r, (if chk then [] else [move]) ++ snd r)
  end.

Definition getPossibleMoves (row col : Z) (h : list object) (board : list nat)
    (gameState : nat) : result (list object * list Square) :=
  b <- snapshot h board ;;
  here <- cellAt b row col ;;
  match asPiece here with
  | None => Ok (h, [])
  | Some piece =>
      let isWhite := String.eqb (charAt piece 0) "w" in
      let pieceType := charAt piece 1 in
      raw <- getRawPossibleMoves row col b ;;
      castling <- (if String.eqb pieceType "K"
                   then gs <- rightsAt h gameState ;; castlingMoves b gs isWhite
                   else Ok []) ;;
      keepSafe h board row col piece isWhite (raw ++ castling)
  end.

Definition relocateRook (h : list object) (board : list nat) (r c1 c2 : Z)
  : result (list object) :=
  rook <- readCell h board r c1 ;;
  match rook with
  | None => Err OffGrid
  | Some s => h1 <- writeCell h board r c2 s ;; writeCell h1 board r c1 ""
  end.

(** Returns the store and the location of the new rights record. *)
Definition updateGameState (fromRow fromCol toRow toCol : Z) (h : list object)
    (board : list nat) (gameState : nat) : result (list object * nat) :=
  st <- copyRights h gameState ;;
  let newGameState := snd st in
  piece <- readCell (fst st) board fromRow fromCol ;;
  h1 <-
    (if isStr piece "wK" then
       h' <- modifyRights (fst st) newGameState clearWhite ;;
       if (fromRow =? 7) && (fromCol =? 4) then
         if toCol =? 6 then relocateRook h' board 7 7 5
         else if toCol =? 2 then relocateRook h' board 7 0 3
         else Ok h'
       else Ok h'
     else if isStr piece "bK" then
       h' <- modifyRights (fst st) newGameState clearBlack ;;
       if (fromRow =? 0) && (fromCol =? 4) then
         if toCol =? 6 then relocateRook h' board 0 7 5
         else if toCol =? 2 then relocateRook h' board 0 0 3
         else Ok h'
       else Ok h'
     else Ok (fst st)) ;;
  h2 <- modifyRights h1 newGameState (rookRights piece fromRow fromCol) ;;
  targetPiece <- readCell h2 board toRow toCol ;;
  h3 <- modifyRights h2 newGameState (rookRights targetPiece toRow toCol) ;;
  Ok (h3, newGameState).

Definition canPromotePawn (row col : Z) (h : list object) (board : list nat)
  : result bool :=
  here <- readCell h board row col ;;
  match asPiece here with
  | None => Ok false
  | Some piece =>
      if String.eqb (charAt piece 1) "P" then
        Ok ((String.eqb (charAt piece 0) "w" && (row =? 0))
            || (String.eqb (charAt piece 0) "b" && (row =? 7)))
      else Ok false
  end.

Definition promotePawn (row col : Z) (h : list object) (board : list nat)
    (newPiece : string) : result (list object) :=
  here <- readCell h board row col ;;
  match asPiece here with
  | None => Ok h
  | Some piece =>
      if String.eqb (charAt piece 1) "P" then
        let color := charAt piece 0 in
        writeCell h board row col (color ++ newPiece)%string
      else Ok h
  end.

(** The loop that fills [blackPieces]; every [getPossibleMoves] call is
    made on the argument [board]. *)
Fixpoint collectBlack (h : list object) (board : list nat) (gameState : nat)
    (sqs : list Square) : result (list object * list Candidate) :=
  match sqs with
  | [] => Ok (h, [])
  | (row, col) :: rest =>
      here <- readCell h board row col ;;
      match asPiece here with
      | None => collectBlack h board gameState rest
      | Some piece =>
          if String.eqb (charAt piece 0) "b" then
            r <- getPossibleMoves row col h board gameState ;;
            r' <- collectBlack (fst r) board gameState rest ;;
            Ok (fst r',
                match snd r with
                | [] => []
                | _ :: _ => [mkCandidate row col piece (snd r)]
                end ++ snd r')
          else collectBlack h board gameState rest
      end
  end.

(** Returns the store, the reference of the new board and the location of
    the new rights record. *)
Definition makeComputerMove (h : list object) (board : list nat)
    (gameState : nat) (u1 u2 : Q) : result (list object * (list nat * nat)) :=
  cb <- copyBoard h board ;;
  let newBoard := snd cb in
  cs <- copyRights (fst cb) gameState ;;
  let newGameState := snd cs in
  bp <- collectBlack (fst cs) board gameState squares ;;
  let blackPieces := snd bp in
  match blackPieces with
  | [] => Ok (fst bp, (newBoard, newGameState))
  | _ :: _ =>
      match idx blackPieces (randomIndex u1 (length blackPieces)) with
      | None => Err TypeError
      | Some selectedPiece =>
          let moves := cMoves selectedPiece in
          match idx moves (randomIndex u2 (length moves)) with
          | None => Err TypeError
          | Some targetMove =>
              ug <- updateGameState (cRow selectedPiece) (cCol selectedPiece)
                      (fst targetMove) (snd targetMove) (fst bp) newBoard
                      newGameState ;;
              h1 <- writeCell (fst ug) newBoard (fst targetMove) (snd targetMove)
                      (cPiece selectedPiece) ;;
              h2 <- writeCell h1 newBoard (cRow selectedPiece)
                      (cCol selectedPiece) "" ;;
              promote <- canPromotePawn (fst targetMove) (snd targetMove) h2
                           newBoard ;;
              h3 <- (if promote
                     then promotePawn (fst targetMove) (snd targetMove) h2
                            newBoard "Q"
                     else Ok h2) ;;
              Ok (h3, (newBoard, snd ug))
          end
      end
  end.

(** [keeps n h h']: the objects at the locations below [n] are the same in
    [h'] as in [h], and no object has been dropped. *)
Definition keeps (n : nat) (h h' : list object) : Prop :=
  (length h <= length h')%nat /\
  forall l, (l < n)%nat -> h' !! l = h !! l.

(** [denotes h board l b gs]: in the store [h] the reference [board]
    denotes the board value [b] through row objects that are pairwise
    distinct, and the location [l], which is none of them, holds the rights
    [gs]. *)
Definition denotes (h : list object) (board : list nat) (l : nat) (b : Board)
    (gs : GameState) : Prop :=
  snapshot h board = Ok b /\ rightsAt h l = Ok gs /\
  List.NoDup board /\ ~ In l board.

(** The start position as a store: rows at locations 0..7, the rights
    record at location 8. *)
Definition startStore : list object :=
  map Cells initialBoard ++ [Rights initialGameState].

Definition startBoard : list nat := [0; 1; 2; 3; 4; 5; 6; 7]%nat.

End Store.

(** ** Well-formed boards *)

(** The shape of a board: eight rows of eight cells. *)
Definition grid (board : Board) : Prop :=
  length board = 8%nat /\ Forall (fun row : Row => length row = 8%nat) board.

(** ** Comparing rights records *)

(** [rightsLe gs' gs]: every right set in [gs'] is set in [gs]. *)
Definition rightsLe (gs' gs : GameState) : Prop :=
  (canWhiteCastleKingside gs = false -> canWhiteCastleKingside gs' = false) /\
  (canWhiteCastleQueenside gs = false -> canWhiteCastleQueenside gs' = false) /\
  (canBlackCastleKingside gs = false -> canBlackCastleKingside gs' = false) /\
  (canBlackCastleQueenside gs = false -> canBlackCastleQueenside gs' = false).

(** Rights records linked by a sequence of [updateGameState] calls, each on
    any board and any pair of squares. *)
Inductive updates : GameState -> GameState -> Prop :=
| updates_refl (gs : GameState) : updates gs gs
| updates_step (gs gs1 gs2 : GameState) (fromRow fromCol toRow toCol : Z)
    (board board' : Board) :
    updateGameState fromRow fromCol toRow toCol board gs = Ok (board', gs1) ->
    updates gs1 gs2 ->
    updates gs gs2.

(** A call that does not return a value. *)
Definition fails {A : Type} (r : result A) : Prop := forall a, r <> Ok a.

Definition emptyRow : Row := [""; ""; ""; ""; ""; ""; ""; ""].

(** A board with no piece at all. *)
Definition emptyBoard : Board :=
  [emptyRow; emptyRow; emptyRow; emptyRow; emptyRow; emptyRow; emptyRow; emptyRow].

(** [kingAbsent board isWhite]: no cell holds the king of that color. *)
Definition kingAbsent (board : Board) (isWhite : bool) : Prop :=
  forall r c, cellAt board r c <> Ok (Some (if isWhite then "wK" else "bK")).

(** A black pawn standing on its far rank, with both kings on the board. *)
Definition farRankBoardBlack : Board :=
  [ [""; ""; ""; ""; "bK"; ""; ""; ""];
    emptyRow; emptyRow; emptyRow; emptyRow; emptyRow; emptyRow;
    ["wK"; ""; ""; ""; ""; "bP"; ""; ""] ].

(** A white pawn standing on its far rank, with both kings on the board. *)
Definition farRankBoard : Board :=
  [ [""; ""; "wP"; ""; ""; ""; ""; "bK"];
    emptyRow; emptyRow; emptyRow; emptyRow; emptyRow; emptyRow;
    [""; ""; ""; ""; "wK"; ""; ""; ""] ].

(** ** Castling conditions, as the specification words them *)

(** The rights bit is set, the cells between king and rook are empty, the
    rook stands on its corner, the king is not in check and neither of the two
    squares it crosses is attacked by the other color. *)
Definition castlingClear (board : Board) (right : bool) (home : Z)
    (between : list Z) (rookCol : Z) (rook : string) (isWhite : bool)
    (c1 c2 : Z) : Prop :=
  right = true /\
  (forall c, In c between -> cellAt board home c = Ok (Some "")) /\
  cellAt board home rookCol = Ok (Some rook) /\
  isKingInCheck board isWhite = Ok false /\
  isSquareUnderAttack home c1 board (negb isWhite) = Ok false /\
  isSquareUnderAttack home c2 board (negb isWhite) = Ok false.

(** The simulated move leaves the mover's king out of check. *)
Definition safeAfter (board : Board) (row col : Z) (piece : string)
    (move : Square) (isWhite : bool) : Prop :=
  exists testBoard,
    testMove board row col piece move = Ok testBoard /\
    isKingInCheck testBoard isWhite = Ok false.

Definition kingOf (isWhite : bool) : string := if isWhite then "wK" else "bK".
Definition rookOf (isWhite : bool) : string := if isWhite then "wR" else "bR".
Definition homeRow (isWhite : bool) : Z := if isWhite then 7 else 0.
Definition kingsideRight (gs : GameState) (isWhite : bool) : bool :=
  if isWhite then canWhiteCastleKingside gs else canBlackCastleKingside gs.
Definition queensideRight (gs : GameState) (isWhite : bool) : bool :=
  if isWhite then canWhiteCastleQueenside gs else canBlackCastleQueenside gs.

(** White may castle kingside by every listed condition, but a black pawn on
    (6,7) would capture the king on (7,6). *)
Definition castleIntoPawn : Board :=
  [ [""; ""; ""; ""; "bK"; ""; ""; ""];
    emptyRow; emptyRow; emptyRow; emptyRow; emptyRow;
    [""; ""; ""; ""; ""; ""; ""; "bP"];
    [""; ""; ""; ""; "wK"; ""; ""; "wR"] ].

(** Both white castlings are open by every test the code makes, but the
    black pawn on (6,4) covers (7,5) and (7,3), the squares next to the
    king. *)
Definition castleAcrossPawn : Board :=
  [ [""; ""; ""; ""; "bK"; ""; ""; ""];
    emptyRow; emptyRow; emptyRow; emptyRow; emptyRow;
    [""; ""; ""; ""; "bP"; ""; ""; ""];
    ["wR"; ""; ""; ""; "wK"; ""; ""; "wR"] ].

(** The same for the black king, with a white pawn on (1,4). *)
Definition castleAcrossPawnBlack : Board :=
  [ ["bR"; ""; ""; ""; "bK"; ""; ""; "bR"];
    [""; ""; ""; ""; "wP"; ""; ""; ""];
    emptyRow; emptyRow; emptyRow; emptyRow; emptyRow;
    [""; ""; ""; ""; "wK"; ""; ""; ""] ].

(** ** The rook's share of a castling move *)

(** The relocation [updateGameState] performs for a move of [piece] from
    [(fromRow, fromCol)] to column [toCol]: the rook's row, the column it
    leaves and the column it lands on. *)
Definition castlingRook (piece : option string) (fromRow fromCol toCol : Z)
  : option (Z * Z * Z) :=
  if isStr piece "wK" then
    if (fromRow =? 7) && (fromCol =? 4) then
      if toCol =? 6 then Some (7, 7, 5)
      else if toCol =? 2 then Some (7, 0, 3)
      else None
    else None
  else if isStr piece "bK" then
    if (fromRow =? 0) && (fromCol =? 4) then
      if toCol =? 6 then Some (0, 7, 5)
      else if toCol =? 2 then Some (0, 0, 3)
      else None
    else None
  else None.

Definition hopBoard (board : Board) (hop : option (Z * Z * Z)) : result Board :=
  match hop with
  | None => Ok board
  | Some (r, c1, c2) => relocateRook board r c1 c2
  end.

(** ** Where a move may land *)

(** The cell at [m] is empty or holds a piece whose color letter differs
    from the mover's. *)
Definition landable (board : Board) (piece : string) (m : Square) : Prop :=
  exists v, cellAt board (fst m) (snd m) = Ok v /\
    match asPiece v with
    | None => True
    | Some t => String.eqb (charAt t 0) (charAt piece 0) = false
    end.

(** ** Example positions *)

(** Both kings at home, the white rooks on their corners, nothing between. *)
Definition castleReady : Board :=
  [ [""; ""; ""; ""; "bK"; ""; ""; ""];
    emptyRow; emptyRow; emptyRow; emptyRow; emptyRow; emptyRow;
    ["wR"; ""; ""; ""; "wK"; ""; ""; "wR"] ].

(** The black king is boxed in by two rooks without being in check; the
    black pawn on (6,0) has the only legal move, to (7,0). *)
Definition loneMove : Board :=
  [ [""; ""; ""; ""; ""; ""; ""; "bK"];
    ["wR"; ""; ""; ""; ""; ""; ""; ""];
    emptyRow; emptyRow; emptyRow;
    [""; ""; ""; ""; ""; ""; "wR"; ""];
    ["bP"; ""; ""; ""; ""; ""; ""; ""];
    [""; ""; ""; ""; "wK"; ""; ""; ""] ].

(** ** Pawns on their far rank *)

(** A pawn of the color [isWhite] (as the engine reads colors: the first
    letter is, or is not, ["w"]) stands at [(r, c)] on the last row in its
    direction of travel. *)
Definition farRankPawnAt (board : Board) (isWhite : bool) (r c : Z) : Prop :=
  exists s, cellAt board r c = Ok (Some s) /\ s <> "" /\
            String.eqb (charAt s 0) "w" = isWhite /\
            charAt s 1 = "P" /\
            r = (if isWhite then 0 else 7).

Definition noFarRankPawn (board : Board) (isWhite : bool) : Prop :=
  forall r c, ~ farRankPawnAt board isWhite r c.

(** The number of squares a slide started at [(r, c)] can still visit. *)
Definition slideRoom (r c dr dc : Z) : Z :=
  if dr =? 1 then 8 - r
  else if dr =? -1 then r + 1
  else if dc =? 1 then 8 - c
  else c + 1.

(** * The rest of the engine and the bookkeeping of the game component *)

(** ** Whose turn it is (the piece-count heuristic) *)

(** [piece.startsWith(prefix)]. *)
Definition startsWith (piece prefix : string) : bool := String.prefix prefix piece.

(** The counting loop of [isWhiteTurn]; [startsWith] is called on the cell
    value, so an [undefined] cell throws. *)
Fixpoint countPieces (board : Board) (sqs : list Square)
    (whitePieceCount blackPieceCount : Z) : result (Z * Z) :=
  match sqs with
  | [] => Ok (whitePieceCount, blackPieceCount)
  | (row, col) :: rest =>
      here <- cellAt board row col ;;
      match here with
      | None => Err TypeError
      | Some piece =>
          countPieces board rest
            (if startsWith piece "w" then whitePieceCount + 1 else whitePieceCount)
            (if startsWith piece "b" then blackPieceCount + 1 else blackPieceCount)
      end
  end.

Definition isWhiteTurn (board : Board) : result bool :=
  counts <- countPieces board squares 0 0 ;;
  Ok ((fst counts <=? 16) && (fst counts >=? snd counts)).

(** What one cell adds to the two counters. *)
Definition tally (piece : string) : Z * Z :=
  ((if startsWith piece "w" then 1 else 0),
   (if startsWith piece "b" then 1 else 0)).

(** ** Terminal positions *)

Definition hasAnyValidMoves (board : Board) (isWhite : bool)
    (gameState : GameState) : result bool :=
  anyM (fun sq : Square =>
    let (row, col) := sq in
    here <- cellAt board row col ;;
    match asPiece here with
    | None => Ok false
    | Some piece =>
        if String.eqb (charAt piece 0) (if isWhite then "w" else "b") then
          moves <- getPossibleMoves row col board gameState ;;
          Ok (match moves with [] => false | _ :: _ => true end)
        else Ok false
    end) squares.

(** [if (e) return v; rest]. *)
Definition returnIf {A : Type} (e : result bool) (v : A) (rest : result A)
  : result A :=
  t <- e ;; if t then Ok v else rest.

Definition isGameOver (board : Board) (gameState : GameState) : result bool :=
  returnIf (isKingInCheck board true &&>
            notM (hasAnyValidMoves board true gameState)) true
  (returnIf (isKingInCheck board false &&>
             notM (hasAnyValidMoves board false gameState)) true
  (returnIf (notM (isKingInCheck board true) &&>
             notM (hasAnyValidMoves board true gameState)) true
  (returnIf (notM (isKingInCheck board false) &&>
             notM (hasAnyValidMoves board false gameState)) true
  (Ok false)))).

Definition getGameStatus (board : Board) (gameState : GameState) : result string :=
  returnIf (isKingInCheck board true &&>
            notM (hasAnyValidMoves board true gameState))
    "Checkmate! Computer wins."
  (returnIf (isKingInCheck board false &&>
             notM (hasAnyValidMoves board false gameState))
    "Checkmate! You win!"
  (returnIf (notM (isKingInCheck board true) &&>
             notM (hasAnyValidMoves board true gameState))
    "Stalemate! Game is a draw."
  (returnIf (notM (isKingInCheck board false) &&>
             notM (hasAnyValidMoves board false gameState))
    "Stalemate! Game is a draw."
  (returnIf (isKingInCheck board true) "Your king is in check!"
  (returnIf (isKingInCheck board false) "Computer's king is in check!"
  (Ok "Game in progress")))))).

Definition resetGame : Board * GameState := (initialBoard, initialGameState).

(** ** Captured pieces (components/ChessGame.tsx) *)

(** The counting loop of [getAllPiecesCount] and of [isOnBoard]: how many
    cells are the string [pieceType]. *)
Fixpoint countCells (currentBoard : Board) (pieceType : string)
    (sqs : list Square) (count : Z) : result Z :=
  match sqs with
  | [] => Ok count
  | (row, col) :: rest =>
      here <- cellAt currentBoard row col ;;
      countCells currentBoard pieceType rest
        (if isStr here pieceType then count + 1 else count)
  end.

Definition getAllPiecesCount (currentBoard : Board) (pieceType : string)
  : result Z :=
  countCells currentBoard pieceType squares 0.

(** [isOnBoard] runs the same loop on the current board before it calls
    [getAllPiecesCount] on a fresh initial board. *)
Definition isOnBoard (piece : string) (currentBoard : Board) : result bool :=
  count <- countCells currentBoard piece squares 0 ;;
  initialCount <- getAllPiecesCount initialBoard piece ;;
  Ok (count >=? initialCount).

Definition getAllPieces (currentBoard : Board) : result (list string) :=
  forPush (fun sq : Square =>
    let (row, col) := sq in
    here <- cellAt currentBoard row col ;;
    match asPiece here with
    | None => Ok []
    | Some piece => Ok [piece]
    end) squares.

(** One iteration of the loop of [updateCapturedPieces], on the pair of the
    two lists it pushes to. *)
Definition capturedStep (newBoard : Board) (lists : list string * list string)
    (piece : string) : result (list string * list string) :=
  present <- isOnBoard piece newBoard ;;
  if present then Ok lists
  else if String.eqb (charAt piece 0) "w"
       then Ok (fst lists ++ [piece], snd lists)
       else Ok (fst lists, snd lists ++ [piece]).

Fixpoint capturedLoop (newBoard : Board) (lists : list string * list string)
    (pieces : list string) : result (list string * list string) :=
  match pieces with
  | [] => Ok lists
  | piece :: rest =>
      lists' <- capturedStep newBoard lists piece ;;
      capturedLoop newBoard lists' rest
  end.

(** [updateCapturedPieces]: the lists handed to [setCapturedWhite] and
    [setCapturedBlack]. *)
Definition updateCapturedPieces (newBoard : Board)
  : result (list string * list string) :=
  pieces <- getAllPieces initialBoard ;;
  capturedLoop newBoard ([], []) pieces.

(** ** Statements used below *)

(** The cell is on the grid and empty. *)
Definition emptyAt (board : Board) (r c : Z) : Prop :=
  cellAt board r c = Ok (Some "").

(** The cell holds a piece whose color letter is not the one of [piece]. *)
Definition foeAt (board : Board) (piece : string) (r c : Z) : Prop :=
  exists t, cellAt board r c = Ok (Some t) /\ t <> "" /\
            charAt t 0 <> charAt piece 0.

Definition freeFor (board : Board) (piece : string) (m : Square) : Prop :=
  emptyAt board (fst m) (snd m) \/ foeAt board piece (fst m) (snd m).

(** [m] is reached from [(row, col)] by [k >= 1] steps in one of the
    [directions], over empty squares, and is empty or holds a foe. *)
Definition slidesTo (board : Board) (row col : Z) (piece : string)
    (directions : list (Z * Z)) (m : Square) : Prop :=
  exists d k, In d directions /\ 1 <= k /\
    m = (row + k * fst d, col + k * snd d) /\
    (forall j, 1 <= j < k -> emptyAt board (row + j * fst d) (col + j * snd d)) /\
    freeFor board piece m.

(** [m] is [(row, col)] moved by one of the [offsets], and is empty or holds
    a foe. *)
Definition stepsTo (board : Board) (row col : Z) (piece : string)
    (offsets : list (Z * Z)) (m : Square) : Prop :=
  exists o, In o offsets /\ m = (row + fst o, col + snd o) /\
    freeFor board piece m.

(** A pawn's destinations: one row ahead in its column, onto an empty cell;
    two rows ahead from its start row, both cells being empty; one row ahead
    and one column aside, onto a foe. *)
Definition pawnTo (board : Board) (row col : Z) (piece : string)
    (isWhite : bool) (m : Square) : Prop :=
  let direction := if isWhite then -1 else 1 in
  (m = (row + direction, col) /\ emptyAt board (row + direction) col) \/
  (row = (if isWhite then 6 else 1) /\ m = (row + 2 * direction, col) /\
   emptyAt board (row + direction) col /\
   emptyAt board (row + 2 * direction) col) \/
  (exists offset, In offset [-1; 1] /\
     m = (row + direction, col + offset) /\
     foeAt board piece (row + direction) (col + offset)).

(** The raw moves of [piece] standing on [(row, col)], by the second letter
    of its name. *)
Definition reaches (board : Board) (row col : Z) (piece : string) (m : Square)
  : Prop :=
  (charAt piece 1 = "P" /\
   pawnTo board row col piece (String.eqb (charAt piece 0) "w") m) \/
  ((charAt piece 1 = "R" \/ charAt piece 1 = "Q") /\
   slidesTo board row col piece rookDirections m) \/
  (charAt piece 1 = "N" /\ stepsTo board row col piece knightOffsets m) \/
  ((charAt piece 1 = "B" \/ charAt piece 1 = "Q") /\
   slidesTo board row col piece bishopDirections m) \/
  (charAt piece 1 = "K" /\ stepsTo board row col piece kingOffsets m).

(** How many of the strings of a list are [s]. *)
Definition occurrences (s : string) (l : list string) : nat :=
  count_occ String.string_dec l s.

(** The piece on [(r, c)] has the color [byWhite] and [(row, col)] among its
    raw moves. *)
Definition attacks (board : Board) (byWhite : bool) (r c row col : Z) : Prop :=
  exists piece l,
    cellAt board r c = Ok (Some piece) /\ piece <> "" /\
    String.eqb (charAt piece 0) "w" = byWhite /\
    getRawPossibleMoves r c board = Ok l /\ In (row, col) l.

(** The piece on [(r, c)] has the color letter of [isWhite] and a legal
    move. *)
Definition canMove (board : Board) (isWhite : bool) (gameState : GameState)
    (r c : Z) : Prop :=
  exists piece m l,
    cellAt board r c = Ok (Some piece) /\ piece <> "" /\
    charAt piece 0 = (if isWhite then "w" else "b") /\
    getPossibleMoves r c board gameState = Ok (m :: l).

Definition terminalStatus (s : string) : Prop :=
  s = "Checkmate! Computer wins." \/ s = "Checkmate! You win!" \/
  s = "Stalemate! Game is a draw.".

(** [changesOnly n board h h']: among the locations below [n], only those of
    the rows of [board] may hold a different object in [h'] than in [h]. *)
Definition changesOnly (n : nat) (board : list nat) (h h' : list object) : Prop :=
  (length h <= length h')%nat /\
  forall l, (l < n)%nat -> ~ In l board -> h' !! l = h !! l.

(** A decision procedure for [noFarRankPawn] on grids. *)
Definition farRankPawnb (board : Board) (isWhite : bool) (c : Z) : bool :=
  match cellAt board (if isWhite then 0 else 7) c with
  | Ok (Some s) =>
      negb (String.eqb s "") &&
      Bool.eqb (String.eqb (charAt s 0) "w") isWhite &&
      String.eqb (charAt s 1) "P"
  | _ => false
  end.

Definition noFarRankPawnb (board : Board) (isWhite : bool) : bool :=
  forallb (fun c => negb (farRankPawnb board isWhite c)) range8.

(** The boards the engine is played on: eight by eight, no pawn on its far
    rank. *)
Definition playable (board : Board) : Prop :=
  grid board /\ noFarRankPawn board true /\ noFarRankPawn board false.

(** What the move generators read of a cell other than the mover's: whether
    it holds a piece, and the color letter of that piece. *)
Definition shade (v : option string) : option string :=
  match asPiece v with
  | None => None
  | Some t => Some (charAt t 0)
  end.

Definition shadeAt (board : Board) (r c : Z) : result (option string) :=
  v <- cellAt board r c ;; Ok (shade v).

(** [repainted isWhite b1 b2]: the two boards differ only on squares where
    both hold a piece of the side [isWhite], of the same color letter, that
    is not the king of that side. *)
Definition repainted (isWhite : bool) (b1 b2 : Board) : Prop :=
  forall r c,
    cellAt b1 r c = cellAt b2 r c \/
    exists s1 s2,
      cellAt b1 r c = Ok (Some s1) /\ cellAt b2 r c = Ok (Some s2) /\
      s1 <> "" /\ s2 <> "" /\ charAt s1 0 = charAt s2 0 /\
      String.eqb (charAt s1 0) "w" = isWhite /\
      s1 <> kingOf isWhite /\ s2 <> kingOf isWhite.

(** A white pawn one step from its far rank, with both kings. *)
Definition lastStep : Board :=
  [ [""; ""; ""; ""; ""; ""; ""; "bK"];
    ["wP"; ""; ""; ""; ""; ""; ""; ""];
    [""; ""; ""; ""; ""; ""; ""; ""];
    [""; ""; ""; ""; ""; ""; ""; ""];
    [""; ""; ""; ""; ""; ""; ""; ""];
    [""; ""; ""; ""; ""; ""; ""; ""];
    [""; ""; ""; ""; ""; ""; ""; ""];
    [""; ""; ""; ""; "wK"; ""; ""; ""] ].

(** * The game component (components/ChessGame.tsx)

    The component keeps its data in React state.  A handler reads the values
    of the render it was created in, and the [set...] calls it makes take
    effect together before the next handler runs: a handler is modelled as a
    function from the state to the state it leaves.  A handler that throws is
    [Err]; the updates it had queued before throwing are not modelled, nor
    are the toasts, nor the dialog's own [onOpenChange]. *)
Module Component.

Record state : Type := mkState {
  board : Board;
  gameState : GameState;
  selectedPiece : option Square;
  availableMoves : list Square;
  gameStatus : string;
  capturedWhite : list string;
  capturedBlack : list string;
  gameOver : bool;
  showPromotion : bool;
  promotionPosition : option Square
}.

(** The values of the [useState] calls. *)
Definition initialState : state :=
  mkState initialBoard initialGameState None [] "Your turn" [] [] false false None.

Definition setBoard (v : Board) (g : state) : state :=
  mkState v (gameState g) (selectedPiece g) (availableMoves g) (gameStatus g)
    (capturedWhite g) (capturedBlack g) (gameOver g) (showPromotion g)
    (promotionPosition g).

Definition setGameState (v : GameState) (g : state) : state :=
  mkState (board g) v (selectedPiece g) (availableMoves g) (gameStatus g)
    (capturedWhite g) (capturedBlack g) (gameOver g) (showPromotion g)
    (promotionPosition g).

Definition setSelectedPiece (v : option Square) (g : state) : state :=
  mkState (board g) (gameState g) v (availableMoves g) (gameStatus g)
    (capturedWhite g) (capturedBlack g) (gameOver g) (showPromotion g)
    (promotionPosition g).

Definition setAvailableMoves (v : list Square) (g : state) : state :=
  mkState (board g) (gameState g) (selectedPiece g) v (gameStatus g)
    (capturedWhite g) (capturedBlack g) (gameOver g) (showPromotion g)
    (promotionPosition g).

Definition setGameStatus (v : string) (g : state) : state :=
  mkState (board g) (gameState g) (selectedPiece g) (availableMoves g) v
    (capturedWhite g) (capturedBlack g) (gameOver g) (showPromotion g)
    (promotionPosition g).

Definition setCapturedWhite (v : list string) (g : state) : state :=
  mkState (board g) (gameState g) (selectedPiece g) (availableMoves g)
    (gameStatus g) v (capturedBlack g) (gameOver g) (showPromotion g)
    (promotionPosition g).

Definition setCapturedBlack (v : list string) (g : state) : state :=
  mkState (board g) (gameState g) (selectedPiece g) (availableMoves g)
    (gameStatus g) (capturedWhite g) v (gameOver g) (showPromotion g)
    (promotionPosition g).

Definition setGameOver (v : bool) (g : state) : state :=
  mkState (board g) (gameState g) (selectedPiece g) (availableMoves g)
    (gameStatus g) (capturedWhite g) (capturedBlack g) v (showPromotion g)
    (promotionPosition g).

Definition setShowPromotion (v : bool) (g : state) : state :=
  mkState (board g) (gameState g) (selectedPiece g) (availableMoves g)
    (gameStatus g) (capturedWhite g) (capturedBlack g) (gameOver g) v
    (promotionPosition g).

Definition setPromotionPosition (v : option Square) (g : state) : state :=
  mkState (board g) (gameState g) (selectedPiece g) (availableMoves g)
    (gameStatus g) (capturedWhite g) (capturedBlack g) (gameOver g)
    (showPromotion g) v.

(** A computer move scheduled by [setTimeout]: the board and the rights the
    callback closes over. *)
Definition pending : Type := option (Board * GameState).

Definition handleGameOver (currentBoard : Board) (currentGameState : GameState)
    (g : state) : result state :=
  status <- getGameStatus currentBoard currentGameState ;;
  Ok (setGameOver true (setGameStatus status g)).

(** The callback of [makeComputerMove(...).then], for the two draws of the
    move. *)
Definition computerReply (newBoard : Board) (newGameState : GameState)
    (u1 u2 : Q) (g : state) : result state :=
  result <- makeComputerMove newBoard newGameState u1 u2 ;;
  let g1 := setGameState (snd result) (setBoard (fst result) g) in
  captured <- updateCapturedPieces (fst result) ;;
  let g2 := setCapturedBlack (snd captured) (setCapturedWhite (fst captured) g1) in
  over <- isGameOver (fst result) (snd result) ;;
  if over then handleGameOver (fst result) (snd result) g2
  else
    chk <- isKingInCheck (fst result) true ;;
    Ok (setGameStatus (if chk then "Your king is in check!" else "Your turn") g2).

(** What follows a position the player has produced: the game-over test,
    the status line and the scheduling of the computer's move. *)
Definition afterPlayer (newBoard : Board) (newGameState : GameState) (g : state)
  : result (state * pending) :=
  over <- isGameOver newBoard newGameState ;;
  if over then
    g' <- handleGameOver newBoard newGameState g ;; Ok (g', None)
  else
    chk <- isKingInCheck newBoard false ;;
    Ok (setGameStatus (if chk then "Computer's king is in check!"
                       else "Computer is thinking...") g,
        Some (newBoard, newGameState)).

(** The branch of [handleCellClick] that moves the selected piece to the
    clicked square.  [movingPiece] is read before [updateGameState] moves a
    castling rook, the captured piece after it.  A selected square past the
    end of its row would read [undefined] and store it in the board, which
    boards here cannot hold: [OffGrid]. *)
Definition moveSelected (sel : Square) (row col : Z) (g : state)
  : result (state * pending) :=
  let newBoard := board g in
  moving <- cellAt newBoard (fst sel) (snd sel) ;;
  match moving with
  | None => Err OffGrid
  | Some movingPiece =>
      st <- updateGameState (fst sel) (snd sel) row col newBoard (gameState g) ;;
      let newGameState := snd st in
      let g1 := setGameState newGameState g in
      target <- cellAt (fst st) row col ;;
      let g2 :=
        match asPiece target with
        | Some t =>
            if String.eqb (charAt t 0) "b"
            then setCapturedBlack (capturedBlack g ++ [t]) g1
            else setCapturedWhite (capturedWhite g ++ [t]) g1
        | None => g1
        end in
      newBoard1 <- setCell (fst st) row col movingPiece ;;
      newBoard2 <- setCell newBoard1 (fst sel) (snd sel) "" ;;
      if String.eqb movingPiece "wP" && (row =? 0) then
        Ok (setBoard newBoard2
              (setShowPromotion true (setPromotionPosition (Some (row, col)) g2)),
            None)
      else
        afterPlayer newBoard2 newGameState
          (setAvailableMoves [] (setSelectedPiece None (setBoard newBoard2 g2)))
  end.

(** The two other branches of [handleCellClick]: a click on a white piece
    selects it and stores its legal moves, any other click clears the
    selection. *)
Definition selectOrClear (piece : option string) (row col : Z) (g : state)
  : result (state * pending) :=
  match asPiece piece with
  | Some p =>
      if String.eqb (charAt p 0) "w" then
        moves <- getPossibleMoves row col (board g) (gameState g) ;;
        Ok (setAvailableMoves moves (setSelectedPiece (Some (row, col)) g), None)
      else Ok (setAvailableMoves [] (setSelectedPiece None g), None)
  | None => Ok (setAvailableMoves [] (setSelectedPiece None g), None)
  end.

Definition handleCellClick (row col : Z) (g : state) : result (state * pending) :=
  if gameOver g then Ok (g, None)
  else if showPromotion g then Ok (g, None)
  else
    turn <- isWhiteTurn (board g) ;;
    if turn then
      piece <- cellAt (board g) row col ;;
      match selectedPiece g with
      | Some sel =>
          if existsb (fun move => sqEqb move row col) (availableMoves g)
          then moveSelected sel row col g
          else selectOrClear piece row col g
      | None => selectOrClear piece row col g
      end
    else Ok (g, None).

Definition handlePromotion (pieceType : string) (g : state)
  : result (state * pending) :=
  match promotionPosition g with
  | None => Ok (g, None)
  | Some pos =>
      newBoard <- promotePawn (fst pos) (snd pos) (board g) pieceType ;;
      afterPlayer newBoard (gameState g)
        (setPromotionPosition None (setShowPromotion false (setBoard newBoard g)))
  end.

(** A run of clicks during which no scheduled computer move fires. *)
Fixpoint clicks (cs : list Square) (g : state) : result state :=
  match cs with
  | [] => Ok g
  | (row, col) :: rest =>
      r <- handleCellClick row col g ;; clicks rest (fst r)
  end.

Definition handleReset (g : state) : state :=
  mkState (fst resetGame) (snd resetGame) None [] "Your turn" [] [] false false
    None.

End Component.

(** * Properties *)

(** ** The result monad *)

Lemma bind_Ok {A B : Type} (m : result A) (k : A -> result B) (b : B) :
  bind m k = Ok b -> exists a, m = Ok a /\ k a = Ok b.
Proof. destruct m as [a|e]; simpl; [eauto | discriminate]. Qed.

(** Splits a hypothesis [x <- m ;; k = Ok v] into its two runs. *)
Ltac bindOk H :=
  let a := fresh "a" in
  let Ha := fresh "Ha" in
  apply bind_Ok in H; destruct H as (a & Ha & H).

Tactic Notation "splitBind" hyp(H) "as" simple_intropattern(x) ident(Hx) :=
  apply bind_Ok in H; destruct H as (x & Hx & H).

Lemma forPush_app {A B : Type} (f : A -> result (list B)) (xs ys : list A) :
  forPush f (xs ++ ys) =
  (l1 <- forPush f xs ;; l2 <- forPush f ys ;; Ok (l1 ++ l2)).
Proof.
  induction xs as [|x xs IH]; simpl.
  - destruct (forPush f ys); reflexivity.
  - destruct (f x) as [l|e]; simpl; [|reflexivity].
    rewrite IH. destruct (forPush f xs) as [l1|e]; simpl; [|reflexivity].
    destruct (forPush f ys) as [l2|e]; simpl; [|reflexivity].
    now rewrite app_assoc.
Qed.

Lemma forPush_In {A B : Type} (f : A -> result (list B)) (xs : list A)
    (l : list B) (y : B) :
  forPush f xs = Ok l -> In y l ->
  exists x ys, In x xs /\ f x = Ok ys /\ In y ys.
Proof.
  revert l. induction xs as [|x xs IH]; simpl; intros l H Hy.
  - inversion H; subst. destruct Hy.
  - bindOk H. bindOk H. inversion H; subst.
    apply in_app_or in Hy as [Hy|Hy].
    + exists x, a. auto.
    + destruct (IH _ Ha0 Hy) as (x' & ys & ? & ? & ?). exists x', ys. auto.
Qed.

Lemma forPush_Ok_each {A B : Type} (f : A -> result (list B)) (xs : list A)
    (l : list B) (x : A) :
  forPush f xs = Ok l -> In x xs ->
  exists ys, f x = Ok ys /\ forall y, In y ys -> In y l.
Proof.
  revert l. induction xs as [|x' xs IH]; simpl; intros l H Hx; [destruct Hx|].
  bindOk H. bindOk H. inversion H; subst.
  destruct Hx as [->|Hx].
  - exists a. split; [assumption|]. intros y Hy. apply in_or_app. auto.
  - destruct (IH _ Ha0 Hx) as (ys & ? & Hsub). exists ys. split; [assumption|].
    intros y Hy. apply in_or_app. auto.
Qed.

(** ** Grids *)

Lemma inRange_spec (i : Z) : inRange i = true <-> 0 <= i < 8.
Proof. unfold inRange. rewrite andb_true_iff, Z.leb_le, Z.ltb_lt. tauto. Qed.

Lemma onBoard_spec (r c : Z) : onBoard r c = true <-> 0 <= r < 8 /\ 0 <= c < 8.
Proof. unfold onBoard. rewrite andb_true_iff, !inRange_spec. tauto. Qed.

Lemma idx_Some {A : Type} (xs : list A) (i : Z) (x : A) :
  idx xs i = Some x <-> 0 <= i /\ xs !! Z.to_nat i = Some x.
Proof.
  unfold idx. destruct (Z.leb_spec 0 i); split.
  - auto.
  - intros [_ H']; exact H'.
  - discriminate.
  - intros [? _]; lia.
Qed.

Lemma idx_lt {A : Type} (xs : list A) (i : Z) (x : A) :
  idx xs i = Some x -> 0 <= i < Z.of_nat (length xs).
Proof.
  intros H. apply idx_Some in H as [H0 H]. apply lookup_lt_Some in H. lia.
Qed.

Lemma idx_in_range {A : Type} (xs : list A) (i : Z) :
  0 <= i < Z.of_nat (length xs) -> exists x, idx xs i = Some x.
Proof.
  intros H. destruct (lookup_lt_is_Some_2 xs (Z.to_nat i)) as [x Hx]; [lia|].
  exists x. apply idx_Some. split; [lia|assumption].
Qed.

Lemma grid_row (board : Board) (r : Z) :
  grid board -> 0 <= r < 8 ->
  exists row, idx board r = Some row /\ length row = 8%nat.
Proof.
  intros [Hlen Hrows] Hr.
  destruct (idx_in_range board r) as [row Hrow]; [lia|].
  exists row. split; [assumption|].
  apply idx_Some in Hrow as [_ Hrow].
  rewrite Forall_forall in Hrows. apply Hrows.
  apply list_elem_of_lookup. eauto.
Qed.

Lemma grid_cellAt (board : Board) (r c : Z) :
  grid board -> onBoard r c = true ->
  exists s, cellAt board r c = Ok (Some s).
Proof.
  intros Hg Hrc. apply onBoard_spec in Hrc as [Hr Hc].
  destruct (grid_row board r Hg Hr) as (row & Hrow & Hlen).
  destruct (idx_in_range row c) as [s Hs]; [lia|].
  exists s. unfold cellAt. now rewrite Hrow, Hs.
Qed.

Lemma cellAt_Ok_row (board : Board) (r c : Z) (v : option string) :
  cellAt board r c = Ok v -> 0 <= r < Z.of_nat (length board).
Proof.
  unfold cellAt. destruct (idx board r) eqn:E; [|discriminate].
  intros _. eapply idx_lt; eauto.
Qed.

Lemma cellAt_Some_col (board : Board) (r c : Z) (s : string) :
  grid board -> cellAt board r c = Ok (Some s) -> onBoard r c = true.
Proof.
  intros Hg H. pose proof (cellAt_Ok_row _ _ _ _ H) as Hr.
  destruct Hg as [Hlen Hrows]. rewrite Hlen in Hr.
  destruct (grid_row board r (conj Hlen Hrows) Hr) as (row & Hrow & Hl).
  unfold cellAt in H. rewrite Hrow in H. inversion H as [Hc].
  apply idx_lt in Hc. apply onBoard_spec. lia.
Qed.

Lemma setCell_Ok (board board' : Board) (r c : Z) (v : string) :
  setCell board r c v = Ok board' ->
  exists row old, idx board r = Some row /\ idx row c = Some old /\
    board' = <[Z.to_nat r := <[Z.to_nat c := v]> row]> board.
Proof.
  unfold setCell. destruct (idx board r) as [row|] eqn:Er; [|discriminate].
  destruct (idx row c) as [old|] eqn:Ec; [|discriminate].
  intros H. inversion H. eauto.
Qed.

(** Reading after a write: the written cell holds the new value and every
    other access behaves as before. *)
Lemma cellAt_setCell (board board' : Board) (r c : Z) (v : string) (r' c' : Z) :
  setCell board r c v = Ok board' ->
  cellAt board' r' c' =
  if (r' =? r) && (c' =? c) then Ok (Some v) else cellAt board r' c'.
Proof.
  intros H. apply setCell_Ok in H as (row & old & Hr & Hc & ->).
  pose proof (idx_lt _ _ _ Hr) as Lr. pose proof (idx_lt _ _ _ Hc) as Lc.
  apply idx_Some in Hr as [Hr0 Hr]. apply idx_Some in Hc as [Hc0 Hc].
  unfold cellAt, idx.
  destruct (Z.leb_spec 0 r') as [Hr'|Hr'].
  - destruct (Z.eqb_spec r' r) as [->|Hne]; cbn [andb].
    + rewrite list_lookup_insert_eq by lia. rewrite Hr.
      destruct (Z.leb_spec 0 c') as [Hc'|Hc'].
      * destruct (Z.eqb_spec c' c) as [->|Hnc].
        -- rewrite list_lookup_insert_eq by lia. reflexivity.
        -- rewrite list_lookup_insert_ne by lia. reflexivity.
      * destruct (Z.eqb_spec c' c) as [->|Hnc]; [lia|reflexivity].
    + rewrite list_lookup_insert_ne by lia. reflexivity.
  - destruct (Z.eqb_spec r' r) as [->|Hne]; [lia|reflexivity].
Qed.

Lemma setCell_grid (board : Board) (r c : Z) (v : string) :
  grid board -> onBoard r c = true ->
  exists board', setCell board r c v = Ok board' /\ grid board'.
Proof.
  intros Hg Hrc. pose proof Hg as [Hlen Hrows].
  apply onBoard_spec in Hrc as [Hr Hc].
  destruct (grid_row board r Hg Hr) as (row & Hrow & Hl).
  destruct (idx_in_range row c) as [old Hold]; [lia|].
  unfold setCell. rewrite Hrow, Hold. eexists. split; [reflexivity|].
  split.
  - now rewrite length_insert.
  - apply Forall_insert; [assumption|]. now rewrite length_insert.
Qed.

Lemma setCell_Ok_grid (board board' : Board) (r c : Z) (v : string) :
  grid board -> setCell board r c v = Ok board' -> grid board'.
Proof.
  intros Hg H. pose proof H as H'.
  apply setCell_Ok in H as (row & old & Hr & Hc & ->).
  destruct Hg as [Hlen Hrows]. split.
  - now rewrite length_insert.
  - apply Forall_insert; [assumption|]. rewrite length_insert.
    rewrite Forall_forall in Hrows. apply Hrows.
    apply idx_Some in Hr as [_ Hr]. apply list_elem_of_lookup. eauto.
Qed.

(** Two grids with the same cells are the same board. *)
Lemma grid_ext (b1 b2 : Board) :
  grid b1 -> grid b2 ->
  (forall r c, onBoard r c = true -> cellAt b1 r c = cellAt b2 r c) ->
  b1 = b2.
Proof.
  intros Hg1 Hg2 Hcells. apply list_eq. intros i.
  destruct (Nat.lt_ge_cases i 8) as [Hi|Hi].
  - destruct (grid_row b1 (Z.of_nat i) Hg1) as (row1 & Hr1 & Hl1); [lia|].
    destruct (grid_row b2 (Z.of_nat i) Hg2) as (row2 & Hr2 & Hl2); [lia|].
    pose proof Hr1 as Hr1'. pose proof Hr2 as Hr2'.
    apply idx_Some in Hr1' as [_ Hr1']. apply idx_Some in Hr2' as [_ Hr2'].
    rewrite Nat2Z.id in Hr1', Hr2'. rewrite Hr1', Hr2'. f_equal.
    apply list_eq. intros j.
    destruct (Nat.lt_ge_cases j 8) as [Hj|Hj].
    + assert (Hon : onBoard (Z.of_nat i) (Z.of_nat j) = true)
        by (apply onBoard_spec; lia).
      specialize (Hcells _ _ Hon). unfold cellAt in Hcells.
      rewrite Hr1, Hr2 in Hcells. inversion Hcells as [Hc].
      unfold idx in Hc. destruct (Z.leb_spec 0 (Z.of_nat j)); [|lia].
      now rewrite Nat2Z.id in Hc.
    + rewrite !lookup_ge_None_2 by lia. reflexivity.
  - destruct Hg1 as [L1 _], Hg2 as [L2 _].
    rewrite !lookup_ge_None_2 by lia. reflexivity.
Qed.

(** ** Castling rights *)

Lemma rightsLe_refl (gs : GameState) : rightsLe gs gs.
Proof. unfold rightsLe. tauto. Qed.

Lemma rightsLe_trans (a b c : GameState) :
  rightsLe a b -> rightsLe b c -> rightsLe a c.
Proof. unfold rightsLe. intuition. Qed.

Lemma rookRights_le (piece : option string) (r c : Z) (gs : GameState) :
  rightsLe (rookRights piece r c gs) gs.
Proof.
  unfold rookRights.
  repeat match goal with |- context [if ?b then _ else _] => destruct b end;
    unfold rightsLe; simpl; tauto.
Qed.

Lemma updateGameState_le (fromRow fromCol toRow toCol : Z) (board board' : Board)
    (gs gs' : GameState) :
  updateGameState fromRow fromCol toRow toCol board gs = Ok (board', gs') ->
  rightsLe gs' gs.
Proof.
  unfold updateGameState. intros H.
  bindOk H. bindOk H. bindOk H. inversion H; subst; clear H.
  eapply rightsLe_trans; [apply rookRights_le|].
  eapply rightsLe_trans; [apply rookRights_le|].
  destruct (isStr a "wK").
  - bindOk Ha0. inversion Ha0; subst. unfold rightsLe; simpl; tauto.
  - destruct (isStr a "bK").
    + bindOk Ha0. inversion Ha0; subst. unfold rightsLe; simpl; tauto.
    + inversion Ha0; subst. apply rightsLe_refl.
Qed.


(** ** The squares of the board *)

Lemma range8_spec (i : Z) : In i range8 <-> 0 <= i < 8.
Proof. unfold range8. simpl. lia. Qed.

Lemma squares_spec (r c : Z) : In (r, c) squares <-> onBoard r c = true.
Proof.
  rewrite onBoard_spec. unfold squares. rewrite in_flat_map. split.
  - intros (x & Hx & Hin). apply in_map_iff in Hin as (y & Heq & Hy).
    inversion Heq; subst. apply range8_spec in Hx, Hy. lia.
  - intros [Hr Hc]. exists r. split; [now apply range8_spec|].
    apply in_map_iff. exists c. split; [reflexivity|now apply range8_spec].
Qed.

(** ** Locating the king *)

Lemma firstAt_None (board : Board) (s : string) (sqs : list Square) :
  firstAt board s sqs = Ok None ->
  forall r c, In (r, c) sqs -> cellAt board r c <> Ok (Some s).
Proof.
  induction sqs as [|[r0 c0] sqs IH]; simpl; intros H r c Hin; [destruct Hin|].
  bindOk H. destruct (isStr a s) eqn:E; [discriminate|].
  destruct Hin as [Heq|Hin].
  - inversion Heq; subst. rewrite Ha. intros Hk. inversion Hk; subst.
    simpl in E. now rewrite String.eqb_refl in E.
  - now apply IH.
Qed.

Lemma firstAt_Some (board : Board) (s : string) (sqs : list Square) (r c : Z) :
  firstAt board s sqs = Ok (Some (r, c)) ->
  In (r, c) sqs /\ cellAt board r c = Ok (Some s).
Proof.
  induction sqs as [|[r0 c0] sqs IH]; simpl; intros H; [discriminate|].
  bindOk H. destruct (isStr a s) eqn:E.
  - inversion H; subst. split; [now left|]. rewrite Ha.
    destruct a as [s'|]; simpl in E; [|discriminate].
    apply String.eqb_eq in E. now subst.
  - destruct (IH H). auto.
Qed.

Lemma firstAt_absent (board : Board) (s : string) (sqs : list Square) :
  (forall r c, In (r, c) sqs ->
     exists v, cellAt board r c = Ok v /\ v <> Some s) ->
  firstAt board s sqs = Ok None.
Proof.
  induction sqs as [|[r0 c0] sqs IH]; simpl; intros H; [reflexivity|].
  destruct (H r0 c0) as (v & Hv & Hne); [now left|]. rewrite Hv. simpl.
  destruct (isStr v s) eqn:E.
  - destruct v as [s'|]; simpl in E; [|discriminate].
    apply String.eqb_eq in E. now subst.
  - apply IH. intros r c Hin. apply H. now right.
Qed.

Lemma findKing_absent (board : Board) (isWhite : bool) :
  grid board -> kingAbsent board isWhite -> findKing board isWhite = Ok None.
Proof.
  intros Hg Habs. unfold findKing. apply firstAt_absent.
  intros r c Hin. apply squares_spec in Hin.
  destruct (grid_cellAt board r c Hg Hin) as [s Hs].
  exists (Some s). split; [assumption|].
  intros Heq. apply (Habs r c). now rewrite Hs, Heq.
Qed.

Lemma emptyBoard_grid : grid emptyBoard.
Proof. split; [reflexivity|]. repeat constructor. Qed.

Lemma emptyBoard_kingAbsent (isWhite : bool) : kingAbsent emptyBoard isWhite.
Proof.
  intros r c H. pose proof (cellAt_Some_col _ _ _ _ emptyBoard_grid H) as Hon.
  apply squares_spec in Hon. unfold squares in Hon. simpl in Hon.
  destruct isWhite;
    repeat (destruct Hon as [Hon|Hon];
            [inversion Hon; subst; vm_compute in H; discriminate|]);
    destruct Hon.
Qed.

(** C4, as stated, fails: on a board without any king the check test
    returns an ordinary boolean. *)
Lemma isKingInCheck_kingless_returns :
  kingAbsent emptyBoard true /\ ~ fails (isKingInCheck emptyBoard true).
Proof.
  split; [apply emptyBoard_kingAbsent|].
  intros H. apply (H false). reflexivity.
Qed.

(** C4 (amended): when no king of the queried color is on the board,
    [isKingInCheck] returns [false]; when one is, it returns whether the
    other color attacks the square on which [findKing] locates it. *)
Theorem isKingInCheck_cases (board : Board) (isWhite : bool) :
  grid board ->
  (kingAbsent board isWhite -> isKingInCheck board isWhite = Ok false) /\
  (~ kingAbsent board isWhite ->
   exists r c,
     findKing board isWhite = Ok (Some (r, c)) /\
     onBoard r c = true /\
     cellAt board r c = Ok (Some (if isWhite then "wK" else "bK")) /\
     isKingInCheck board isWhite =
     isSquareUnderAttack r c board (negb isWhite)).
Proof.
  intros Hg. split.
  - intros Habs. unfold isKingInCheck.
    now rewrite (findKing_absent board isWhite Hg Habs).
  - intros Hpres. unfold isKingInCheck.
    destruct (findKing board isWhite) as [[[r c]|]|e] eqn:E.
    + pose proof E as E'. unfold findKing in E'.
      apply firstAt_Some in E' as [Hin Hc].
      exists r, c. split; [reflexivity|].
      split; [now apply squares_spec|]. split; [assumption|reflexivity].
    + exfalso. apply Hpres. intros r c Hc. unfold findKing in E.
      pose proof (cellAt_Some_col _ _ _ _ Hg Hc) as Hon.
      apply squares_spec in Hon. exact (firstAt_None _ _ _ E r c Hon Hc).
    + exfalso. unfold findKing in E.
      assert (Hall : forall sqs, (forall r c, In (r, c) sqs -> onBoard r c = true) ->
                forall e', firstAt board (if isWhite then "wK" else "bK") sqs <> Err e').
      { induction sqs as [|[r0 c0] sqs IH]; simpl; intros Hon e'; [discriminate|].
        destruct (grid_cellAt board r0 c0 Hg) as [s Hs]; [apply Hon; now left|].
        rewrite Hs. simpl. destruct (String.eqb s _); [discriminate|].
        apply IH. intros; apply Hon; now right. }
      apply (Hall squares) with (e' := e); [|assumption].
      intros r c Hin. now apply squares_spec.
Qed.

(** ** Promotion *)

Lemma asPiece_Some (v : option string) (p : string) :
  asPiece v = Some p <-> v = Some p /\ p <> "".
Proof.
  unfold asPiece. destruct v as [s|].
  - destruct (String.eqb_spec s ""); split.
    + discriminate.
    + intros [H Hne]. inversion H; subst. contradiction.
    + intros H. inversion H; subst. auto.
    + intros [H _]. exact H.
  - split; [discriminate|]. intros [H _]. discriminate.
Qed.

Lemma asPiece_None_Some (s : string) : asPiece (Some s) = None <-> s = "".
Proof.
  simpl. destruct (String.eqb_spec s "") as [E|E]; split; intros H.
  - exact E.
  - reflexivity.
  - discriminate.
  - contradiction.
Qed.

(** C7: on a grid, [promotePawn] returns; a square that is empty or holds a
    piece other than a pawn leaves the board as it was, and a pawn is replaced
    by the piece of its own color and the requested kind while every other
    cell keeps its value. *)
Theorem promotePawn_effect (board : Board) (row col : Z) (newPiece s : string) :
  grid board -> onBoard row col = true ->
  cellAt board row col = Ok (Some s) ->
  exists board',
    promotePawn row col board newPiece = Ok board' /\
    (s = "" \/ charAt s 1 <> "P" -> board' = board) /\
    (s <> "" /\ charAt s 1 = "P" ->
     cellAt board' row col = Ok (Some (charAt s 0 ++ newPiece)%string) /\
     forall r c, (r, c) <> (row, col) -> cellAt board' r c = cellAt board r c).
Proof.
  intros Hg Hon Hs. unfold promotePawn. rewrite Hs. simpl.
  destruct (String.eqb_spec s "") as [->|Hne].
  - exists board. split; [reflexivity|]. split; [reflexivity|].
    intros [H _]. contradiction.
  - destruct (String.eqb_spec (charAt s 1) "P") as [HP|HP].
    + destruct (setCell_grid board row col (charAt s 0 ++ newPiece)%string Hg Hon)
        as (board' & Hset & _).
      exists board'. split; [assumption|]. split.
      * intros [?|?]; contradiction.
      * intros _. split.
        -- rewrite (cellAt_setCell _ _ _ _ _ row col Hset).
           now rewrite !Z.eqb_refl.
        -- intros r c Hrc. rewrite (cellAt_setCell _ _ _ _ _ r c Hset).
           destruct (Z.eqb_spec r row) as [->|]; [|reflexivity].
           destruct (Z.eqb_spec c col) as [->|]; [|reflexivity].
           contradiction.
    + exists board. split; [reflexivity|]. split; [reflexivity|].
      intros [_ H]. contradiction.
Qed.

(** ** Rights and the moves of other pieces *)

(** C9: for a square whose piece is not a king, the answer of
    [getPossibleMoves] is the same under any two rights records. *)
Theorem getPossibleMoves_rights_irrelevant (board : Board) (row col : Z)
    (gs1 gs2 : GameState) :
  (forall p, cellAt board row col = Ok (Some p) -> charAt p 1 <> "K") ->
  getPossibleMoves row col board gs1 = getPossibleMoves row col board gs2.
Proof.
  intros Hk. unfold getPossibleMoves.
  destruct (cellAt board row col) as [v|e] eqn:E; [|reflexivity]. simpl.
  destruct (asPiece v) as [p|] eqn:Ep; [|reflexivity].
  apply asPiece_Some in Ep as [-> _].
  destruct (String.eqb_spec (charAt p 1) "K") as [HK|HK]; [|reflexivity].
  exfalso. exact (Hk p eq_refl HK).
Qed.

(** ** A pawn on its far rank *)

(** C5 fails on the code: for a white pawn on row 0 the capture lookup reads
    [board[-1]], for a black pawn on row 7 it reads [board[8]], and both move
    generators throw; so does the legal-move query for any piece of the other
    color, whose check test goes through the pawn's raw moves. *)
Theorem far_rank_pawn_throws :
  (grid farRankBoard /\
   getRawPossibleMoves 0 2 farRankBoard = Err TypeError /\
   getPossibleMoves 0 2 farRankBoard initialGameState = Err TypeError /\
   getPossibleMoves 0 7 farRankBoard initialGameState = Err TypeError) /\
  (grid farRankBoardBlack /\
   getRawPossibleMoves 7 5 farRankBoardBlack = Err TypeError /\
   getPossibleMoves 7 5 farRankBoardBlack initialGameState = Err TypeError /\
   getPossibleMoves 7 0 farRankBoardBlack initialGameState = Err TypeError).
Proof.
  split; (split; [split; [reflexivity|repeat constructor]|]);
    repeat split; vm_compute; reflexivity.
Qed.

(** ** Generated squares are on the board *)

Definition allOnBoard (l : list Square) : Prop :=
  forall m, In m l -> onBoard (fst m) (snd m) = true.

Lemma allOnBoard_nil : allOnBoard [].
Proof. intros m []. Qed.

Lemma allOnBoard_one (r c : Z) : onBoard r c = true -> allOnBoard [(r, c)].
Proof. intros H m [<-|[]]. exact H. Qed.

Lemma allOnBoard_app (l1 l2 : list Square) :
  allOnBoard l1 -> allOnBoard l2 -> allOnBoard (l1 ++ l2).
Proof. intros H1 H2 m Hm. apply in_app_or in Hm as [?|?]; auto. Qed.

Lemma forPush_all {A B : Type} (P : B -> Prop) (f : A -> result (list B))
    (xs : list A) (l : list B) :
  (forall x ys, In x xs -> f x = Ok ys -> forall y, In y ys -> P y) ->
  forPush f xs = Ok l -> forall y, In y l -> P y.
Proof.
  intros Hf H y Hy.
  destruct (forPush_In f xs l y H Hy) as (x & ys & Hx & Hfx & Hy').
  exact (Hf x ys Hx Hfx y Hy').
Qed.

Lemma forPush_allOnBoard {A : Type} (f : A -> result (list Square))
    (xs : list A) (l : list Square) :
  (forall x ys, In x xs -> f x = Ok ys -> allOnBoard ys) ->
  forPush f xs = Ok l -> allOnBoard l.
Proof. intros Hf H. exact (forPush_all _ f xs l Hf H). Qed.

Lemma slide_onBoard (fuel : nat) (board : Board) (piece : string)
    (r c dr dc : Z) (l : list Square) :
  slide fuel board piece r c dr dc = Ok l -> allOnBoard l.
Proof.
  revert r c l. induction fuel as [|fuel IH]; intros r c l; simpl;
    destruct (onBoard r c) eqn:Hon; intros H;
    try (inversion H; subst; apply allOnBoard_nil); try discriminate.
  bindOk H. destruct (asPiece a) as [t|].
  - destruct (String.eqb _ _); inversion H; subst;
      [apply allOnBoard_nil|now apply allOnBoard_one].
  - bindOk H. inversion H; subst.
    apply (allOnBoard_app [(r, c)]); [now apply allOnBoard_one|eauto].
Qed.

Lemma slides_onBoard (board : Board) (piece : string) (row col : Z)
    (directions : list (Z * Z)) (l : list Square) :
  slides board piece row col directions = Ok l -> allOnBoard l.
Proof.
  unfold slides. apply forPush_allOnBoard.
  intros d ys _ H. eapply slide_onBoard; eauto.
Qed.

Lemma steps_onBoard (board : Board) (piece : string) (row col : Z)
    (offsets : list (Z * Z)) (l : list Square) :
  steps board piece row col offsets = Ok l -> allOnBoard l.
Proof.
  unfold steps. apply forPush_allOnBoard.
  intros o ys _ H. cbv zeta in H.
  destruct (onBoard (row + fst o) (col + snd o)) eqn:Hon.
  - bindOk H. destruct (asPiece a) as [t|].
    + destruct (String.eqb _ _); inversion H; subst;
        [apply allOnBoard_nil|now apply allOnBoard_one].
    + inversion H; subst. now apply allOnBoard_one.
  - inversion H; subst. apply allOnBoard_nil.
Qed.

Lemma pawnForward_onBoard (board : Board) (row col : Z) (isWhite : bool)
    (l : list Square) :
  inRange col = true ->
  pawnForward board row col isWhite = Ok l -> allOnBoard l.
Proof.
  intros Hcol. unfold pawnForward.
  set (direction := if isWhite then -1 else 1).
  destruct (inRange (row + direction)) eqn:Hr; intros H;
    [|inversion H; subst; apply allOnBoard_nil].
  assert (Hone : onBoard (row + direction) col = true)
    by (unfold onBoard; now rewrite Hr, Hcol).
  bindOk H. destruct (asPiece a) as [t|];
    [inversion H; subst; apply allOnBoard_nil|].
  destruct (Z.eqb_spec row (if isWhite then 6 else 1)) as [Hs|Hs].
  - assert (Htwo : onBoard (row + 2 * direction) col = true).
    { unfold onBoard. rewrite Hcol, andb_true_r. apply inRange_spec.
      subst direction. destruct isWhite; lia. }
    bindOk H. destruct (asPiece a0); inversion H; subst.
    + now apply allOnBoard_one.
    + apply (allOnBoard_app [_] [_]); now apply allOnBoard_one.
  - inversion H; subst. now apply allOnBoard_one.
Qed.

Lemma pawnCaptures_onBoard (board : Board) (row col : Z) (piece : string)
    (isWhite : bool) (l : list Square) :
  grid board ->
  pawnCaptures board row col piece isWhite = Ok l -> allOnBoard l.
Proof.
  intros [Hlen _]. unfold pawnCaptures. apply forPush_allOnBoard.
  intros offset ys _ H.
  destruct (inRange (col + offset)) eqn:Hc;
    [|inversion H; subst; apply allOnBoard_nil].
  bindOk H. apply cellAt_Ok_row in Ha. rewrite Hlen in Ha.
  destruct (asPiece a) as [t|]; [|inversion H; subst; apply allOnBoard_nil].
  destruct (String.eqb _ _); inversion H; subst; [apply allOnBoard_nil|].
  apply allOnBoard_one. unfold onBoard. rewrite Hc, andb_true_r.
  apply inRange_spec. lia.
Qed.

Lemma getRawPossibleMoves_onBoard (board : Board) (row col : Z) (l : list Square) :
  grid board -> onBoard row col = true ->
  getRawPossibleMoves row col board = Ok l -> allOnBoard l.
Proof.
  intros Hg Hon. unfold getRawPossibleMoves. intros H.
  bindOk H. destruct (asPiece a) as [piece|];
    [|inversion H; subst; apply allOnBoard_nil].
  apply andb_true_iff in Hon as [_ Hcol].
  bindOk H. bindOk H. bindOk H. bindOk H. bindOk H. inversion H; subst.
  repeat apply allOnBoard_app.
  - destruct (String.eqb (charAt piece 1) "P");
      [|inversion Ha0; subst; apply allOnBoard_nil].
    bindOk Ha0. bindOk Ha0. inversion Ha0; subst.
    apply allOnBoard_app;
      [eapply pawnForward_onBoard|eapply pawnCaptures_onBoard]; eauto.
  - destruct (String.eqb (charAt piece 1) "R" || String.eqb (charAt piece 1) "Q");
      [eapply slides_onBoard; eauto|].
    inversion Ha1; subst; apply allOnBoard_nil.
  - destruct (String.eqb (charAt piece 1) "N"); [eapply steps_onBoard; eauto|].
    inversion Ha2; subst; apply allOnBoard_nil.
  - destruct (String.eqb (charAt piece 1) "B" || String.eqb (charAt piece 1) "Q");
      [eapply slides_onBoard; eauto|].
    inversion Ha3; subst; apply allOnBoard_nil.
  - destruct (String.eqb (charAt piece 1) "K"); [eapply steps_onBoard; eauto|].
    inversion Ha4; subst; apply allOnBoard_nil.
Qed.

Lemma castlingMoves_In (board : Board) (gameState : GameState) (isWhite : bool)
    (l : list Square) (m : Square) :
  castlingMoves board gameState isWhite = Ok l -> In m l ->
  fst m = (if isWhite then 7 else 0) /\ (snd m = 6 \/ snd m = 2).
Proof.
  unfold castlingMoves. destruct isWhite; intros H Hm;
    bindOk H; bindOk H; inversion H; subst;
    destruct a, a0; simpl in Hm; intuition (subst; simpl; auto).
Qed.

Lemma keepSafe_In (board : Board) (row col : Z) (piece : string) (isWhite : bool)
    (possibleMoves l : list Square) (m : Square) :
  keepSafe board row col piece isWhite possibleMoves = Ok l ->
  In m l <->
  In m possibleMoves /\
  exists testBoard, testMove board row col piece m = Ok testBoard /\
                    isKingInCheck testBoard isWhite = Ok false.
Proof.
  unfold keepSafe. intros H. split.
  - intros Hm. destruct (forPush_In _ _ _ _ H Hm) as (x & ys & Hx & Hfx & Hy).
    bindOk Hfx. bindOk Hfx. inversion Hfx; subst.
    destruct a0; [destruct Hy|]. destruct Hy as [->|[]]. eauto.
  - intros (Hm & tb & Htb & Hchk).
    destruct (forPush_Ok_each _ _ _ _ H Hm) as (ys & Hys & Hsub).
    apply Hsub. rewrite Htb in Hys. simpl in Hys. rewrite Hchk in Hys.
    simpl in Hys. inversion Hys. now left.
Qed.

(** The candidates of [getPossibleMoves] and what the filter keeps. *)
Lemma getPossibleMoves_Ok (board : Board) (row col : Z) (gameState : GameState)
    (piece : string) (l : list Square) :
  cellAt board row col = Ok (Some piece) -> piece <> "" ->
  getPossibleMoves row col board gameState = Ok l ->
  exists raw castling,
    getRawPossibleMoves row col board = Ok raw /\
    (if String.eqb (charAt piece 1) "K"
     then castlingMoves board gameState (String.eqb (charAt piece 0) "w")
     else Ok []) = Ok castling /\
    keepSafe board row col piece (String.eqb (charAt piece 0) "w")
      (raw ++ castling) = Ok l.
Proof.
  intros Hc Hne. unfold getPossibleMoves. rewrite Hc. simpl.
  destruct (String.eqb_spec piece ""); [contradiction|].
  intros H. bindOk H. bindOk H. eauto.
Qed.

Lemma getPossibleMoves_onBoard (board : Board) (row col : Z)
    (gameState : GameState) (l : list Square) :
  grid board -> onBoard row col = true ->
  getPossibleMoves row col board gameState = Ok l -> allOnBoard l.
Proof.
  intros Hg Hon H m Hm.
  destruct (grid_cellAt board row col Hg Hon) as [s Hs].
  destruct (String.eqb_spec s "") as [E|Hne].
  - subst s. unfold getPossibleMoves in H. rewrite Hs in H. simpl in H.
    inversion H; subst. destruct Hm.
  - destruct (getPossibleMoves_Ok _ _ _ _ _ _ Hs Hne H)
      as (raw & castling & Hraw & Hcas & Hkeep).
    destruct (proj1 (keepSafe_In _ _ _ _ _ _ _ m Hkeep) Hm) as [Hm' _].
    clear Hm. apply in_app_or in Hm' as [Hm|Hm].
    + exact (getRawPossibleMoves_onBoard _ _ _ _ Hg Hon Hraw m Hm).
    + destruct (String.eqb (charAt s 1) "K").
      * destruct (castlingMoves_In _ _ _ _ _ Hcas Hm) as [Hr Hcol].
        apply onBoard_spec.
        destruct (String.eqb (charAt s 0) "w"); lia.
      * inversion Hcas; subst. destruct Hm.
Qed.

(** C6: on a grid and for an on-board query square, every square in a list
    returned by [getRawPossibleMoves] or by [getPossibleMoves] has its row and
    its column in 0..7. *)
Theorem generated_moves_on_board (board : Board) (row col : Z)
    (gameState : GameState) :
  grid board -> onBoard row col = true ->
  (forall l, getRawPossibleMoves row col board = Ok l ->
             forall m, In m l -> 0 <= fst m <= 7 /\ 0 <= snd m <= 7) /\
  (forall l, getPossibleMoves row col board gameState = Ok l ->
             forall m, In m l -> 0 <= fst m <= 7 /\ 0 <= snd m <= 7).
Proof.
  intros Hg Hon. split; intros l H m Hm.
  - pose proof (getRawPossibleMoves_onBoard _ _ _ _ Hg Hon H m Hm) as Hb.
    apply onBoard_spec in Hb. lia.
  - pose proof (getPossibleMoves_onBoard _ _ _ _ _ Hg Hon H m Hm) as Hb.
    apply onBoard_spec in Hb. lia.
Qed.

(** ** Castling destinations *)

Lemma andThen_true (a k : result bool) :
  (a &&> k) = Ok true <-> a = Ok true /\ k = Ok true.
Proof.
  unfold andThen. destruct a as [[|]|e]; simpl; split;
    try tauto; try discriminate; intros [H _]; discriminate.
Qed.

Lemma notM_true (e : result bool) : notM e = Ok true <-> e = Ok false.
Proof.
  unfold notM. destruct e as [[|]|e]; simpl; split; intros H;
    try reflexivity; discriminate.
Qed.

Lemma isAt_true (board : Board) (r c : Z) (s : string) :
  isAt board r c s = Ok true <-> cellAt board r c = Ok (Some s).
Proof.
  unfold isAt. destruct (cellAt board r c) as [[s'|]|e]; simpl;
    try (split; discriminate).
  destruct (String.eqb_spec s' s) as [->|Hne]; split; intros H;
    try reflexivity; try discriminate.
  inversion H; subst. contradiction.
Qed.

Lemma isEmptyAt_true (board : Board) (r c : Z) :
  grid board -> onBoard r c = true ->
  isEmptyAt board r c = Ok true <-> cellAt board r c = Ok (Some "").
Proof.
  intros Hg Hon. destruct (grid_cellAt board r c Hg Hon) as [s Hs].
  unfold isEmptyAt. rewrite Hs. simpl.
  destruct (String.eqb_spec s "") as [->|Hne]; split; intros H;
    try reflexivity; try discriminate.
  inversion H; subst. contradiction.
Qed.

Lemma steps_In (board : Board) (piece : string) (row col : Z)
    (offsets : list (Z * Z)) (l : list Square) (m : Square) :
  steps board piece row col offsets = Ok l -> In m l ->
  exists o, In o offsets /\ m = (row + fst o, col + snd o).
Proof.
  unfold steps. intros H Hm.
  destruct (forPush_In _ _ _ _ H Hm) as (o & ys & Ho & Hf & Hy).
  exists o. split; [assumption|]. cbv zeta in Hf.
  destruct (onBoard _ _); [|inversion Hf; subst; destruct Hy].
  bindOk Hf. destruct (asPiece a).
  - destruct (String.eqb _ _); inversion Hf; subst; [destruct Hy|].
    destruct Hy as [<-|[]]. reflexivity.
  - inversion Hf; subst. destruct Hy as [<-|[]]. reflexivity.
Qed.

(** A king's raw moves stay within one column of its square. *)
Lemma king_raw_near (board : Board) (row col : Z) (isWhite : bool)
    (l : list Square) (m : Square) :
  cellAt board row col = Ok (Some (kingOf isWhite)) ->
  getRawPossibleMoves row col board = Ok l -> In m l ->
  col - 1 <= snd m <= col + 1.
Proof.
  intros Hc H Hm. unfold getRawPossibleMoves in H. rewrite Hc in H.
  destruct isWhite; simpl in H; bindOk H; inversion H; subst;
    simpl in Hm;
    destruct (steps_In _ _ _ _ _ _ _ Ha Hm) as (o & Ho & ->);
    simpl in Ho; simpl; intuition (subst; simpl; lia).
Qed.

Lemma kingside_chain (board : Board) (right : bool) (home : Z) (rook : string)
    (isWhite : bool) :
  grid board -> inRange home = true ->
  (Ok right &&>
   isEmptyAt board home 5 &&> isEmptyAt board home 6 &&>
   isAt board home 7 rook &&>
   notM (isKingInCheck board isWhite) &&>
   notM (isSquareUnderAttack home 5 board (negb isWhite)) &&>
   notM (isSquareUnderAttack home 6 board (negb isWhite))) = Ok true <->
  castlingClear board right home [5; 6] 7 rook isWhite 5 6.
Proof.
  intros Hg Hh. unfold castlingClear.
  rewrite !andThen_true, !notM_true, isAt_true.
  rewrite !(isEmptyAt_true board home) by
    (assumption || (unfold onBoard; now rewrite Hh)).
  split.
  - intros (Hr & H5 & H6 & H7 & Hk & Ha5 & Ha6). inversion Hr.
    repeat split; try assumption.
    intros c [<-|[<-|[]]]; assumption.
  - intros (Hr & Hb & H7 & Hk & Ha5 & Ha6). subst right.
    repeat split; try assumption; apply Hb; simpl; auto.
Qed.

Lemma queenside_chain (board : Board) (right : bool) (home : Z) (rook : string)
    (isWhite : bool) :
  grid board -> inRange home = true ->
  (Ok right &&>
   isEmptyAt board home 1 &&> isEmptyAt board home 2 &&> isEmptyAt board home 3 &&>
   isAt board home 0 rook &&>
   notM (isKingInCheck board isWhite) &&>
   notM (isSquareUnderAttack home 2 board (negb isWhite)) &&>
   notM (isSquareUnderAttack home 3 board (negb isWhite))) = Ok true <->
  castlingClear board right home [1; 2; 3] 0 rook isWhite 2 3.
Proof.
  intros Hg Hh. unfold castlingClear.
  rewrite !andThen_true, !notM_true, isAt_true.
  rewrite !(isEmptyAt_true board home) by
    (assumption || (unfold onBoard; now rewrite Hh)).
  split.
  - intros (Hr & H1 & H2 & H3 & H0 & Hk & Ha2 & Ha3). inversion Hr.
    repeat split; try assumption.
    intros c [<-|[<-|[<-|[]]]]; assumption.
  - intros (Hr & Hb & H0 & Hk & Ha2 & Ha3). subst right.
    repeat split; try assumption; apply Hb; simpl; auto.
Qed.

Lemma result_bool_true (e : result bool) (a : bool) :
  e = Ok a -> (a = true <-> e = Ok true).
Proof. intros ->. split; [intros ->; reflexivity|intros H; now inversion H]. Qed.

(** The castling destinations pushed for a king are exactly those whose
    conditions hold. *)
Lemma castlingMoves_spec (board : Board) (gs : GameState) (isWhite : bool)
    (l : list Square) :
  grid board ->
  castlingMoves board gs isWhite = Ok l ->
  (In (homeRow isWhite, 6) l <->
   castlingClear board (kingsideRight gs isWhite) (homeRow isWhite) [5; 6] 7
     (rookOf isWhite) isWhite 5 6) /\
  (In (homeRow isWhite, 2) l <->
   castlingClear board (queensideRight gs isWhite) (homeRow isWhite) [1; 2; 3] 0
     (rookOf isWhite) isWhite 2 3).
Proof.
  intros Hg H. unfold castlingMoves in H.
  destruct isWhite; bindOk H; bindOk H; inversion H; subst; clear H;
    apply result_bool_true in Ha, Ha0.
  - rewrite (kingside_chain board _ 7 "wR" true Hg eq_refl) in Ha.
    rewrite (queenside_chain board _ 7 "wR" true Hg eq_refl) in Ha0.
    simpl homeRow. rewrite <- Ha, <- Ha0.
    destruct a, a0; simpl; split; split; intros H;
      try reflexivity; try discriminate; auto;
      repeat (destruct H as [H|H]; try discriminate H); try destruct H.
  - rewrite (kingside_chain board _ 0 "bR" false Hg eq_refl) in Ha.
    rewrite (queenside_chain board _ 0 "bR" false Hg eq_refl) in Ha0.
    simpl homeRow. rewrite <- Ha, <- Ha0.
    destruct a, a0; simpl; split; split; intros H;
      try reflexivity; try discriminate; auto;
      repeat (destruct H as [H|H]; try discriminate H); try destruct H.
Qed.

(** The filter loop also runs over the castling candidates: on
    [castleIntoPawn] every condition of the castling branch holds for white's
    kingside, yet (7,6) is not among the king's moves, because the king
    would be in check there. *)
Lemma castling_needs_safe_arrival :
  castlingClear castleIntoPawn (canWhiteCastleKingside initialGameState)
    7 [5; 6] 7 "wR" true 5 6 /\
  cellAt castleIntoPawn 7 4 = Ok (Some "wK") /\
  exists l, getPossibleMoves 7 4 castleIntoPawn initialGameState = Ok l /\
            ~ In (7, 6) l.
Proof.
  split.
  - unfold castlingClear. repeat split; try (vm_compute; reflexivity).
    intros c [<-|[<-|[]]]; reflexivity.
  - split; [reflexivity|]. eexists. split; [vm_compute; reflexivity|].
    simpl. intros H. repeat (destruct H as [H|H]; try discriminate H).
    destruct H.
Qed.

(** What the code does: for the white king on (7,4), and likewise the black
    king on (0,4), a castling destination is among the moves returned by
    [getPossibleMoves] exactly when the conditions of the castling branch
    hold, each as the code tests it ([castlingClear]: the two crossed squares
    pass [isSquareUnderAttack]), and the king is not in check on the board on
    which it has been put on the destination square. *)
Lemma castling_destinations (board : Board) (gs : GameState) (isWhite : bool)
    (l : list Square) :
  grid board ->
  cellAt board (homeRow isWhite) 4 = Ok (Some (kingOf isWhite)) ->
  getPossibleMoves (homeRow isWhite) 4 board gs = Ok l ->
  (In (homeRow isWhite, 6) l <->
   castlingClear board (kingsideRight gs isWhite) (homeRow isWhite) [5; 6] 7
     (rookOf isWhite) isWhite 5 6 /\
   safeAfter board (homeRow isWhite) 4 (kingOf isWhite) (homeRow isWhite, 6) isWhite) /\
  (In (homeRow isWhite, 2) l <->
   castlingClear board (queensideRight gs isWhite) (homeRow isWhite) [1; 2; 3] 0
     (rookOf isWhite) isWhite 2 3 /\
   safeAfter board (homeRow isWhite) 4 (kingOf isWhite) (homeRow isWhite, 2) isWhite).
Proof.
  intros Hg Hc H.
  assert (Hne : kingOf isWhite <> "") by (destruct isWhite; discriminate).
  destruct (getPossibleMoves_Ok _ _ _ _ _ _ Hc Hne H)
    as (raw & castling & Hraw & Hcas & Hkeep).
  assert (HK : String.eqb (charAt (kingOf isWhite) 1) "K" = true)
    by (destruct isWhite; reflexivity).
  assert (HW : String.eqb (charAt (kingOf isWhite) 0) "w" = isWhite)
    by (destruct isWhite; reflexivity).
  rewrite HK in Hcas. rewrite HW in Hcas, Hkeep.
  destruct (castlingMoves_spec _ _ _ _ Hg Hcas) as [Hks Hqs].
  assert (Hfar : forall c, (c = 6 \/ c = 2) -> ~ In (homeRow isWhite, c) raw).
  { intros c Hcol Hin.
    pose proof (king_raw_near _ _ _ _ _ _ Hc Hraw Hin) as Hnear. simpl in Hnear.
    lia. }
  unfold safeAfter. rewrite <- Hks, <- Hqs.
  rewrite !(keepSafe_In _ _ _ _ _ _ _ _ Hkeep), !in_app_iff.
  split; split.
  - intros [[Hin|Hin] Hs]; [exfalso; apply (Hfar 6); auto|auto].
  - intros [Hin Hs]. auto.
  - intros [[Hin|Hin] Hs]; [exfalso; apply (Hfar 2); auto|auto].
  - intros [Hin Hs]. auto.
Qed.

(** C2 fails on the code.  [isSquareUnderAttack] looks a square up in the
    raw moves of the other side, and a pawn's diagonal is a raw move only
    onto an occupied cell: an empty square next to the king is never seen as
    attacked by a pawn.  With a black pawn on (6,4) the squares (7,5) and
    (7,3) pass the test although the white king would be in check on either
    (the filter removes both steps from its moves), and both castling
    destinations, reached across them, are returned.  The same holds for the
    black king with a white pawn on (1,4). *)
Theorem castling_across_pawn_attack :
  (grid castleAcrossPawn /\
   cellAt castleAcrossPawn 6 4 = Ok (Some "bP") /\
   isKingInCheck castleAcrossPawn true = Ok false /\
   isSquareUnderAttack 7 5 castleAcrossPawn false = Ok false /\
   isSquareUnderAttack 7 3 castleAcrossPawn false = Ok false /\
   (exists T, testMove castleAcrossPawn 7 4 "wK" (7, 5) = Ok T /\
              isKingInCheck T true = Ok true) /\
   (exists T, testMove castleAcrossPawn 7 4 "wK" (7, 3) = Ok T /\
              isKingInCheck T true = Ok true) /\
   getPossibleMoves 7 4 castleAcrossPawn initialGameState
   = Ok [(6, 3); (6, 4); (6, 5); (7, 6); (7, 2)]) /\
  (grid castleAcrossPawnBlack /\
   cellAt castleAcrossPawnBlack 1 4 = Ok (Some "wP") /\
   isKingInCheck castleAcrossPawnBlack false = Ok false /\
   isSquareUnderAttack 0 5 castleAcrossPawnBlack true = Ok false /\
   isSquareUnderAttack 0 3 castleAcrossPawnBlack true = Ok false /\
   (exists T, testMove castleAcrossPawnBlack 0 4 "bK" (0, 5) = Ok T /\
              isKingInCheck T false = Ok true) /\
   (exists T, testMove castleAcrossPawnBlack 0 4 "bK" (0, 3) = Ok T /\
              isKingInCheck T false = Ok true) /\
   getPossibleMoves 0 4 castleAcrossPawnBlack initialGameState
   = Ok [(1, 5); (1, 4); (1, 3); (0, 6); (0, 2)]).
Proof.
  split; (split; [split; [reflexivity|repeat constructor]|]);
    repeat split;
    try (eexists; split; vm_compute; reflexivity);
    vm_compute; reflexivity.
Qed.

(** ** Moving the castling rook does not expose the king *)

Lemma anyM_false {A : Type} (f : A -> result bool) (xs : list A) :
  anyM f xs = Ok false <-> forall x, In x xs -> f x = Ok false.
Proof.
  induction xs as [|x xs IH]; simpl.
  - split; [intros _ x []|reflexivity].
  - split.
    + intros H. bindOk H. destruct a; [discriminate|].
      intros y [<-|Hy]; [assumption|]. now apply IH.
    + intros H. rewrite (H x) by now left. simpl. apply IH.
      intros y Hy. apply H. now right.
Qed.

Lemma slide_off_board (fuel : nat) (board : Board) (piece : string)
    (r c dr dc : Z) :
  onBoard r c = false -> slide fuel board piece r c dr dc = Ok [].
Proof. intros H. destruct fuel; simpl; now rewrite H. Qed.

Lemma existsb_sqEqb_false (l : list Square) (r c : Z) :
  existsb (fun m => sqEqb m r c) l = false <-> ~ In (r, c) l.
Proof.
  split.
  - intros H Hin. assert (Ht : existsb (fun m => sqEqb m r c) l = true).
    { apply existsb_exists. exists (r, c). split; [assumption|].
      unfold sqEqb. simpl. now rewrite !Z.eqb_refl. }
    congruence.
  - intros H. destruct (existsb _ l) eqn:E; [|reflexivity].
    apply existsb_exists in E as ([r' c'] & Hin & Heq).
    unfold sqEqb in Heq. simpl in Heq. apply andb_true_iff in Heq as [H1 H2].
    apply Z.eqb_eq in H1, H2. subst. contradiction.
Qed.

(** [forPush] preserves "whatever holds [t] on the second board held it on
    the first", iteration by iteration. *)
Lemma forPush_rel {A : Type} (fT fA : A -> result (list Square)) (xs : list A)
    (t : Square) (lT : list Square) :
  (forall x ys, In x xs -> fT x = Ok ys ->
     exists ys', fA x = Ok ys' /\ (In t ys' -> In t ys)) ->
  forPush fT xs = Ok lT ->
  exists lA, forPush fA xs = Ok lA /\ (In t lA -> In t lT).
Proof.
  revert lT. induction xs as [|x xs IH]; simpl; intros lT Hf H.
  - inversion H; subst. exists []. auto.
  - bindOk H. bindOk H. inversion H; subst.
    destruct (Hf x a (or_introl eq_refl) Ha) as (ys' & Hys' & Hin).
    destruct (IH a0 (fun y ys Hy => Hf y ys (or_intror Hy)) Ha0) as (lA & HlA & Hin').
    rewrite Hys', HlA. simpl. eexists. split; [reflexivity|].
    rewrite !in_app_iff. tauto.
Qed.

Lemma pawnForward_total (board : Board) (row col : Z) (isWhite : bool) :
  grid board -> inRange col = true ->
  exists l, pawnForward board row col isWhite = Ok l.
Proof.
  intros Hg Hcol. unfold pawnForward.
  set (direction := if isWhite then -1 else 1).
  destruct (inRange (row + direction)) eqn:Hr; [|eauto].
  destruct (grid_cellAt board (row + direction) col Hg) as [s Hs];
    [unfold onBoard; now rewrite Hr, Hcol|].
  rewrite Hs. simpl. destruct (String.eqb s ""); [|eauto].
  destruct (Z.eqb_spec row (if isWhite then 6 else 1)) as [Hs'|]; [|eauto].
  destruct (grid_cellAt board (row + 2 * direction) col Hg) as [s2 Hs2].
  { unfold onBoard. rewrite Hcol, andb_true_r. apply inRange_spec.
    subst direction. destruct isWhite; lia. }
  rewrite Hs2. simpl. destruct (String.eqb s2 ""); eauto.
Qed.

(** A pawn only steps forward onto empty cells. *)
Lemma pawnForward_empty (board : Board) (row col : Z) (isWhite : bool)
    (l : list Square) (m : Square) :
  pawnForward board row col isWhite = Ok l -> In m l ->
  exists v, cellAt board (fst m) (snd m) = Ok v /\ asPiece v = None.
Proof.
  unfold pawnForward. set (direction := if isWhite then -1 else 1).
  destruct (inRange (row + direction)); intros H Hm;
    [|inversion H; subst; destruct Hm].
  bindOk H. destruct (asPiece a) eqn:Ea; [inversion H; subst; destruct Hm|].
  destruct (row =? (if isWhite then 6 else 1)).
  - bindOk H. destruct (asPiece a0) eqn:Ea0; inversion H; subst.
    + destruct Hm as [<-|[]]. simpl. eauto.
    + destruct Hm as [<-|[<-|[]]]; simpl; eauto.
  - inversion H; subst. destruct Hm as [<-|[]]. simpl. eauto.
Qed.

(** Closes a goal about a single candidate square that is not the king's. *)
Ltac oneSquare s piece :=
  destruct (String.eqb s ""); [|destruct (String.eqb (charAt s 0) (charAt piece 0))];
  eexists; (split; [reflexivity|]); simpl;
  first [ let Hin := fresh "Hin" in
          intros [Hin|[]]; inversion Hin; contradiction
        | intros [] ].

Section RookHop.

(** [T] is the board of the simulated king move, [A] the board after the
    real move: the rook has left the corner [(vr, vc)] for [(fr, fc)]. *)
Variables T A : Board.
Variable isWhite : bool.
Variable rook : string.
Variables fr fc vr vc : Z.

Hypothesis gridT : grid T.
Hypothesis gridA : grid A.
Hypothesis fill_T : cellAt T fr fc = Ok (Some "").
Hypothesis vac_T : cellAt T vr vc = Ok (Some rook).
Hypothesis fill_A : cellAt A fr fc = Ok (Some rook).
Hypothesis vac_A : cellAt A vr vc = Ok (Some "").
Hypothesis same_elsewhere :
  forall r c, (r, c) <> (fr, fc) -> (r, c) <> (vr, vc) ->
              cellAt A r c = cellAt T r c.
Hypothesis rook_piece : rook <> "" /\ rook <> kingOf isWhite.
Hypothesis rook_color : String.eqb (charAt rook 0) "w" = isWhite.
Hypothesis corner :
  forall dr dc, (dr, dc) <> (0, 0) -> onBoard (vr - dr) (vc - dc) = true ->
                onBoard (vr + dr) (vc + dc) = false.

Lemma sq_cases (r c : Z) :
  (r, c) = (fr, fc) \/ (r, c) = (vr, vc) \/
  ((r, c) <> (fr, fc) /\ (r, c) <> (vr, vc)).
Proof.
  destruct (Z.eq_dec r fr), (Z.eq_dec c fc), (Z.eq_dec r vr), (Z.eq_dec c vc);
    subst; auto; right; right; split; intros E; inversion E; contradiction.
Qed.

Section KingSquare.

(** The king's square: its cell is the same non-empty string on both
    boards. *)
Variables kr kc : Z.
Variable king : string.
Hypothesis king_T : cellAt T kr kc = Ok (Some king).
Hypothesis king_piece : king <> "" /\ king <> rook.

Lemma king_not_moved : (kr, kc) <> (fr, fc) /\ (kr, kc) <> (vr, vc).
Proof.
  split; intros E; inversion E; subst.
  - rewrite fill_T in king_T. destruct king_piece. congruence.
  - rewrite vac_T in king_T. destruct king_piece. congruence.
Qed.

Lemma king_A : cellAt A kr kc = Ok (Some king).
Proof.
  destruct king_not_moved. rewrite same_elsewhere by assumption. exact king_T.
Qed.

Lemma slide_hop (piece : string) (dr dc : Z) (fuel : nat) :
  (dr, dc) <> (0, 0) ->
  forall r c lT,
    onBoard (r - dr) (c - dc) = true ->
    slide fuel T piece r c dr dc = Ok lT ->
    exists lA, slide fuel A piece r c dr dc = Ok lA /\
               (In (kr, kc) lA -> In (kr, kc) lT).
Proof.
  intros Hd. destruct king_not_moved as [Hkf Hkv].
  induction fuel as [|fuel IH]; intros r c lT Hprev; simpl;
    destruct (onBoard r c) eqn:Hon; intros H;
    try discriminate; try (inversion H; subst; exists []; now auto).
  destruct (sq_cases r c) as [E|[E|[Hf Hv]]].
  - injection E as -> ->. rewrite fill_A. simpl.
    destruct (String.eqb_spec rook ""); [tauto|].
    destruct (String.eqb (charAt rook 0) (charAt piece 0));
      eexists; (split; [reflexivity|]); intros Hin; [destruct Hin|].
    destruct Hin as [Hin|[]]. now symmetry in Hin.
  - injection E as -> ->. rewrite vac_A. simpl.
    rewrite slide_off_board by (now apply corner).
    simpl. eexists. split; [reflexivity|].
    intros [Hin|[]]. now symmetry in Hin.
  - rewrite (same_elsewhere r c Hf Hv). bindOk H. rewrite Ha. simpl.
    destruct (asPiece a) as [p|].
    + exists lT. split; [assumption|auto].
    + bindOk H. inversion H; subst lT.
      destruct (IH (r + dr) (c + dc) a0) as (lA & HlA & Hin);
        [replace (r + dr - dr) with r by lia;
         replace (c + dc - dc) with c by lia; assumption|assumption|].
      rewrite HlA. simpl. eexists. split; [reflexivity|].
      simpl. tauto.
Qed.

Lemma slides_hop (piece : string) (row col : Z) (directions : list (Z * Z))
    (lT : list Square) :
  onBoard row col = true ->
  (forall d, In d directions -> d <> (0, 0)) ->
  slides T piece row col directions = Ok lT ->
  exists lA, slides A piece row col directions = Ok lA /\
             (In (kr, kc) lA -> In (kr, kc) lT).
Proof.
  intros Hon Hd. unfold slides. apply forPush_rel.
  intros [dr dc] ys Hin H. simpl in *.
  apply (slide_hop piece dr dc 8 (Hd _ Hin)); [|assumption].
  replace (row + dr - dr) with row by lia.
  replace (col + dc - dc) with col by lia. assumption.
Qed.

Lemma steps_hop (piece : string) (row col : Z) (offsets : list (Z * Z))
    (lT : list Square) :
  steps T piece row col offsets = Ok lT ->
  exists lA, steps A piece row col offsets = Ok lA /\
             (In (kr, kc) lA -> In (kr, kc) lT).
Proof.
  destruct king_not_moved as [Hkf Hkv].
  unfold steps. apply forPush_rel.
  intros o ys _ H. cbv zeta in *.
  destruct (onBoard (row + fst o) (col + snd o)) eqn:Hon;
    [|inversion H; subst; exists []; auto].
  destruct (grid_cellAt A _ _ gridA Hon) as [s Hs]. rewrite Hs. simpl.
  destruct (Z.eq_dec (row + fst o) kr) as [Er|Er];
    [destruct (Z.eq_dec (col + snd o) kc) as [Ec|Ec]|].
  - rewrite Er, Ec in *. rewrite king_A in Hs. inversion Hs; subst s.
    rewrite king_T in H. simpl in H. exists ys. split; [assumption|auto].
  - oneSquare s piece.
  - oneSquare s piece.
Qed.

Lemma pawnCaptures_hop (piece : string) (row col : Z) (w : bool)
    (lT : list Square) :
  pawnCaptures T row col piece w = Ok lT ->
  exists lA, pawnCaptures A row col piece w = Ok lA /\
             (In (kr, kc) lA -> In (kr, kc) lT).
Proof.
  destruct king_not_moved as [Hkf Hkv].
  unfold pawnCaptures. set (direction := if w then -1 else 1).
  apply forPush_rel. intros offset ys _ H.
  destruct (inRange (col + offset)) eqn:Hc;
    [|inversion H; subst; exists []; auto].
  bindOk H. pose proof (cellAt_Ok_row _ _ _ _ Ha) as Hrow.
  destruct gridT as [LT _]. rewrite LT in Hrow.
  assert (Hon : onBoard (row + direction) (col + offset) = true).
  { unfold onBoard. rewrite Hc, andb_true_r. apply inRange_spec. lia. }
  destruct (grid_cellAt A _ _ gridA Hon) as [s Hs]. rewrite Hs. simpl.
  destruct (Z.eq_dec (row + direction) kr) as [Er|Er];
    [destruct (Z.eq_dec (col + offset) kc) as [Ec|Ec]|].
  - rewrite Er, Ec in *. rewrite king_A in Hs. inversion Hs; subst s.
    rewrite king_T in Ha. inversion Ha; subst a. simpl in H.
    exists ys. split; [assumption|auto].
  - oneSquare s piece.
  - oneSquare s piece.
Qed.

Lemma pawnForward_hop (row col : Z) (w : bool) :
  inRange col = true ->
  exists lA, pawnForward A row col w = Ok lA /\ ~ In (kr, kc) lA.
Proof.
  intros Hcol. destruct (pawnForward_total A row col w gridA Hcol) as [lA HlA].
  exists lA. split; [assumption|]. intros Hin.
  destruct (pawnForward_empty _ _ _ _ _ _ HlA Hin) as (v & Hv & Hnone).
  simpl in Hv. rewrite king_A in Hv. inversion Hv; subst v.
  apply asPiece_None_Some in Hnone. tauto.
Qed.

Lemma directions_nonzero (d : Z * Z) :
  In d rookDirections \/ In d bishopDirections -> d <> (0, 0).
Proof.
  unfold rookDirections, bishopDirections. simpl.
  intros H E. subst d. intuition discriminate.
Qed.

(** The raw moves of a piece that did not take part in the hop: if they
    reach the king's square after the hop, they reached it before. *)
Lemma getRawPossibleMoves_hop (row col : Z) (lT : list Square) :
  onBoard row col = true ->
  (row, col) <> (fr, fc) -> (row, col) <> (vr, vc) ->
  getRawPossibleMoves row col T = Ok lT ->
  exists lA, getRawPossibleMoves row col A = Ok lA /\
             (In (kr, kc) lA -> In (kr, kc) lT).
Proof.
  intros Hon Hf Hv. unfold getRawPossibleMoves.
  rewrite (same_elsewhere row col Hf Hv). intros H.
  bindOk H. rewrite Ha. simpl.
  destruct (asPiece a) as [piece|]; [|inversion H; subst; exists []; auto].
  pose proof Hon as Hon'. apply andb_true_iff in Hon' as [_ Hcol].
  bindOk H. bindOk H. bindOk H. bindOk H. bindOk H. inversion H; subst lT.
  assert (Hpawn : exists l0,
    (if String.eqb (charAt piece 1) "P" then
       fwd <- pawnForward A row col (String.eqb (charAt piece 0) "w") ;;
       caps <- pawnCaptures A row col piece (String.eqb (charAt piece 0) "w") ;;
       Ok (fwd ++ caps)
     else Ok []) = Ok l0 /\ (In (kr, kc) l0 -> In (kr, kc) a0)).
  { destruct (String.eqb (charAt piece 1) "P");
      [|inversion Ha0; subst; exists []; auto].
    bindOk Ha0. bindOk Ha0. inversion Ha0; subst a0.
    destruct (pawnForward_hop row col (String.eqb (charAt piece 0) "w") Hcol)
      as (fA & HfA & Hnot).
    destruct (pawnCaptures_hop _ _ _ _ _ Ha6) as (cA & HcA & Hin).
    rewrite HfA, HcA. simpl. eexists. split; [reflexivity|].
    rewrite !in_app_iff. tauto. }
  assert (Hrook : exists l1,
    (if String.eqb (charAt piece 1) "R" || String.eqb (charAt piece 1) "Q"
     then slides A piece row col rookDirections else Ok []) = Ok l1 /\
    (In (kr, kc) l1 -> In (kr, kc) a1)).
  { destruct (String.eqb (charAt piece 1) "R" || String.eqb (charAt piece 1) "Q");
      [|inversion Ha1; subst; exists []; auto].
    apply slides_hop; [assumption| |assumption].
    intros d Hd. apply directions_nonzero. now left. }
  assert (Hknight : exists l2,
    (if String.eqb (charAt piece 1) "N"
     then steps A piece row col knightOffsets else Ok []) = Ok l2 /\
    (In (kr, kc) l2 -> In (kr, kc) a2)).
  { destruct (String.eqb (charAt piece 1) "N");
      [|inversion Ha2; subst; exists []; auto].
    now apply steps_hop. }
  assert (Hbishop : exists l3,
    (if String.eqb (charAt piece 1) "B" || String.eqb (charAt piece 1) "Q"
     then slides A piece row col bishopDirections else Ok []) = Ok l3 /\
    (In (kr, kc) l3 -> In (kr, kc) a3)).
  { destruct (String.eqb (charAt piece 1) "B" || String.eqb (charAt piece 1) "Q");
      [|inversion Ha3; subst; exists []; auto].
    apply slides_hop; [assumption| |assumption].
    intros d Hd. apply directions_nonzero. now right. }
  assert (Hking : exists l4,
    (if String.eqb (charAt piece 1) "K"
     then steps A piece row col kingOffsets else Ok []) = Ok l4 /\
    (In (kr, kc) l4 -> In (kr, kc) a4)).
  { destruct (String.eqb (charAt piece 1) "K");
      [|inversion Ha4; subst; exists []; auto].
    now apply steps_hop. }
  destruct Hpawn as (l0 & -> & H0), Hrook as (l1 & -> & H1),
    Hknight as (l2 & -> & H2), Hbishop as (l3 & -> & H3),
    Hking as (l4 & -> & H4).
  simpl. eexists. split; [reflexivity|].
  rewrite !in_app_iff. tauto.
Qed.

(** No piece of the other color attacks the king's square after the hop
    if none did before. *)
Lemma isSquareUnderAttack_hop :
  isSquareUnderAttack kr kc T (negb isWhite) = Ok false ->
  isSquareUnderAttack kr kc A (negb isWhite) = Ok false.
Proof.
  unfold isSquareUnderAttack. rewrite !anyM_false.
  intros H [r c] Hin. specialize (H (r, c) Hin). simpl in H.
  apply squares_spec in Hin.
  destruct (sq_cases r c) as [E|[E|[Hf Hv]]].
  - injection E as -> ->. rewrite fill_A. simpl.
    destruct (String.eqb_spec rook ""); [tauto|].
    rewrite rook_color. now destruct isWhite.
  - injection E as -> ->. rewrite vac_A. reflexivity.
  - rewrite (same_elsewhere r c Hf Hv).
    destruct (cellAt T r c) as [v|e]; [|discriminate]. simpl in *.
    destruct (asPiece v) as [piece|]; [|reflexivity].
    destruct (Bool.eqb _ _); [|reflexivity].
    bindOk H. inversion H as [Hex].
    destruct (getRawPossibleMoves_hop r c a Hin Hf Hv Ha) as (lA & -> & Hsub).
    simpl. f_equal. rewrite Hex. apply existsb_sqEqb_false. intros HA.
    apply existsb_sqEqb_false in Hex. auto.
Qed.

End KingSquare.

Lemma firstAt_hop (sqs : list Square) :
  (forall r c, In (r, c) sqs -> onBoard r c = true) ->
  firstAt A (kingOf isWhite) sqs = firstAt T (kingOf isWhite) sqs.
Proof.
  induction sqs as [|[r c] sqs IH]; intros Hon; [reflexivity|]. simpl.
  assert (IH' : firstAt A (kingOf isWhite) sqs = firstAt T (kingOf isWhite) sqs)
    by (apply IH; intros; apply Hon; now right).
  destruct rook_piece as [Hr1 Hr2].
  assert (Hk : kingOf isWhite <> "") by (destruct isWhite; discriminate).
  destruct (sq_cases r c) as [E|[E|[Hf Hv]]].
  - injection E as -> ->. rewrite fill_A, fill_T. cbn [bind isStr].
    destruct (String.eqb_spec rook (kingOf isWhite)); [contradiction|].
    destruct (String.eqb_spec "" (kingOf isWhite)); [congruence|exact IH'].
  - injection E as -> ->. rewrite vac_A, vac_T. cbn [bind isStr].
    destruct (String.eqb_spec rook (kingOf isWhite)); [contradiction|].
    destruct (String.eqb_spec "" (kingOf isWhite)); [congruence|exact IH'].
  - rewrite (same_elsewhere r c Hf Hv).
    destruct (cellAt T r c) as [v|e]; [|reflexivity]. simpl.
    destruct (isStr v (kingOf isWhite)); [reflexivity|exact IH'].
Qed.

(** The king that was not in check on the simulated board is not in check
    once the rook has moved as well. *)
Lemma isKingInCheck_hop :
  isKingInCheck T isWhite = Ok false -> isKingInCheck A isWhite = Ok false.
Proof.
  unfold isKingInCheck, findKing. fold (kingOf isWhite).
  rewrite firstAt_hop by (intros r c Hin; now apply squares_spec).
  destruct (firstAt T (kingOf isWhite) squares) as [[[kr kc]|]|e] eqn:E;
    simpl; [|auto|discriminate].
  apply firstAt_Some in E as [_ Hk].
  apply (isSquareUnderAttack_hop kr kc (kingOf isWhite) Hk).
  destruct rook_piece as [_ Hr]. split; [destruct isWhite; discriminate|].
  intros E. now symmetry in E.
Qed.

End RookHop.

(** ** Applying a legal move *)

Lemma updateGameState_run (fromRow fromCol toRow toCol : Z) (board board1 : Board)
    (gs : GameState) (piece v : option string) :
  cellAt board fromRow fromCol = Ok piece ->
  hopBoard board (castlingRook piece fromRow fromCol toCol) = Ok board1 ->
  cellAt board1 toRow toCol = Ok v ->
  exists gs', updateGameState fromRow fromCol toRow toCol board gs = Ok (board1, gs').
Proof.
  intros Hp Hhop Hv. unfold updateGameState. rewrite Hp. simpl.
  unfold castlingRook, hopBoard in Hhop.
  destruct (isStr piece "wK"); [|destruct (isStr piece "bK")].
  - destruct ((fromRow =? 7) && (fromCol =? 4));
      [destruct (toCol =? 6); [|destruct (toCol =? 2)]|];
      try rewrite Hhop; try (inversion Hhop; subst board1);
      simpl; rewrite Hv; simpl; eauto.
  - destruct ((fromRow =? 0) && (fromCol =? 4));
      [destruct (toCol =? 6); [|destruct (toCol =? 2)]|];
      try rewrite Hhop; try (inversion Hhop; subst board1);
      simpl; rewrite Hv; simpl; eauto.
  - inversion Hhop; subst board1. simpl. rewrite Hv. simpl. eauto.
Qed.

Lemma castlingRook_Some (piece : string) (fromRow fromCol toCol r c1 c2 : Z) :
  castlingRook (Some piece) fromRow fromCol toCol = Some (r, c1, c2) ->
  exists isWhite kingside,
    piece = kingOf isWhite /\ fromRow = homeRow isWhite /\ fromCol = 4 /\
    r = homeRow isWhite /\
    toCol = (if kingside : bool then 6 else 2) /\
    c1 = (if kingside then 7 else 0) /\ c2 = (if kingside then 5 else 3).
Proof.
  unfold castlingRook. simpl.
  destruct (String.eqb_spec piece "wK") as [->|_];
    [|destruct (String.eqb_spec piece "bK") as [->|_]; [|discriminate]].
  - destruct (Z.eqb_spec fromRow 7); [|discriminate].
    destruct (Z.eqb_spec fromCol 4); [|discriminate]. simpl.
    destruct (Z.eqb_spec toCol 6);
      [|destruct (Z.eqb_spec toCol 2); [|discriminate]];
      intros H; inversion H; subst.
    + exists true, true. auto 10.
    + exists true, false. auto 10.
  - destruct (Z.eqb_spec fromRow 0); [|discriminate].
    destruct (Z.eqb_spec fromCol 4); [|discriminate]. simpl.
    destruct (Z.eqb_spec toCol 6);
      [|destruct (Z.eqb_spec toCol 2); [|discriminate]];
      intros H; inversion H; subst.
    + exists false, true. auto 10.
    + exists false, false. auto 10.
Qed.

(** Decides the nested column and row tests left by [cellAt_setCell]. *)
Ltac cellTests r c :=
  destruct (Z.eqb_spec r 7); destruct (Z.eqb_spec r 0);
  destruct (Z.eqb_spec c 0); destruct (Z.eqb_spec c 2);
  destruct (Z.eqb_spec c 3); destruct (Z.eqb_spec c 4);
  destruct (Z.eqb_spec c 5); destruct (Z.eqb_spec c 6);
  destruct (Z.eqb_spec c 7); simpl; try reflexivity; try lia;
  subst; try congruence.

(** The castled position: the king that was safe on the simulated board is
    safe on the board where the rook has moved too. *)
Lemma castle_applied_safe (isWhite kingside : bool) (board T : Board) :
  let home := homeRow isWhite in
  let dest := if kingside then 6 else 2 in
  let c1 := if kingside then 7 else 0 in
  let c2 := if kingside then 5 else 3 in
  grid board ->
  cellAt board home c1 = Ok (Some (rookOf isWhite)) ->
  cellAt board home c2 = Ok (Some "") ->
  testMove board home 4 (kingOf isWhite) (home, dest) = Ok T ->
  isKingInCheck T isWhite = Ok false ->
  exists b1 b2 A,
    relocateRook board home c1 c2 = Ok b1 /\
    setCell b1 home dest (kingOf isWhite) = Ok b2 /\
    setCell b2 home 4 "" = Ok A /\
    isKingInCheck A isWhite = Ok false.
Proof.
  intros home dest c1 c2 Hg Hrook Hfill HT Hchk.
  assert (Hh : inRange home = true) by (subst home; destruct isWhite; reflexivity).
  assert (Hon : forall c, inRange c = true -> onBoard home c = true)
    by (intros c Hc; unfold onBoard; now rewrite Hh, Hc).
  unfold testMove in HT. bindOk HT. simpl in Ha. rename a into T1.
  pose proof (setCell_Ok_grid _ _ _ _ _ Hg Ha) as HgT1.
  pose proof (setCell_Ok_grid _ _ _ _ _ HgT1 HT) as HgT.
  unfold relocateRook. rewrite Hrook. simpl.
  destruct (setCell_grid board home c2 (rookOf isWhite) Hg) as (R1 & HR1 & HgR1);
    [apply Hon; subst c2; now destruct kingside|].
  rewrite HR1. simpl.
  destruct (setCell_grid R1 home c1 "" HgR1) as (b1 & Hb1 & Hgb1);
    [apply Hon; subst c1; now destruct kingside|].
  rewrite Hb1.
  destruct (setCell_grid b1 home dest (kingOf isWhite) Hgb1) as (b2 & Hb2 & Hgb2);
    [apply Hon; subst dest; now destruct kingside|].
  destruct (setCell_grid b2 home 4 "" Hgb2) as (A & HA & HgA);
    [now apply Hon|].
  exists b1, b2, A. repeat split; try assumption.
  assert (HcT : forall r c, cellAt T r c =
            if (r =? home) && (c =? 4) then Ok (Some "")
            else if (r =? home) && (c =? dest) then Ok (Some (kingOf isWhite))
            else cellAt board r c).
  { intros r c. rewrite (cellAt_setCell _ _ _ _ _ r c HT).
    now rewrite (cellAt_setCell _ _ _ _ _ r c Ha). }
  assert (HcA : forall r c, cellAt A r c =
            if (r =? home) && (c =? 4) then Ok (Some "")
            else if (r =? home) && (c =? dest) then Ok (Some (kingOf isWhite))
            else if (r =? home) && (c =? c1) then Ok (Some "")
            else if (r =? home) && (c =? c2) then Ok (Some (rookOf isWhite))
            else cellAt board r c).
  { intros r c. rewrite (cellAt_setCell _ _ _ _ _ r c HA).
    rewrite (cellAt_setCell _ _ _ _ _ r c Hb2).
    rewrite (cellAt_setCell _ _ _ _ _ r c Hb1).
    now rewrite (cellAt_setCell _ _ _ _ _ r c HR1). }
  apply (isKingInCheck_hop T A isWhite (rookOf isWhite) home c2 home c1);
    try assumption.
  - rewrite HcT. rewrite <- Hfill. subst home dest c2.
    destruct isWhite, kingside; reflexivity.
  - rewrite HcT. rewrite <- Hrook. subst home dest c1.
    destruct isWhite, kingside; reflexivity.
  - rewrite HcA. subst home dest c1 c2.
    destruct isWhite, kingside; reflexivity.
  - rewrite HcA. subst home dest c1 c2.
    destruct isWhite, kingside; reflexivity.
  - intros r c Hf Hv. rewrite HcA, HcT. subst home dest c1 c2.
    destruct isWhite, kingside; simpl in *; cellTests r c.
  - destruct isWhite; split; discriminate.
  - now destruct isWhite.
  - intros dr dc Hd Hprev. apply onBoard_spec in Hprev.
    destruct (onBoard (home + dr) (c1 + dc)) eqn:E; [|reflexivity].
    apply onBoard_spec in E. exfalso. apply Hd.
    subst home c1. destruct isWhite, kingside; simpl in *; f_equal; lia.
Qed.

Lemma setCell_Ok_cellAt (board board' : Board) (r c : Z) (v : string) :
  setCell board r c v = Ok board' -> exists old, cellAt board r c = Ok (Some old).
Proof.
  intros H. apply setCell_Ok in H as (row & old & Hr & Hc & _).
  exists old. unfold cellAt. now rewrite Hr, Hc.
Qed.

(** On a grid the rook relocation of [updateGameState] always succeeds. *)
Lemma hopBoard_grid (board : Board) (piece : option string)
    (fromRow fromCol toCol : Z) :
  grid board ->
  exists board1,
    hopBoard board (castlingRook piece fromRow fromCol toCol) = Ok board1 /\
    grid board1.
Proof.
  intros Hg.
  assert (Hrel : forall r c1 c2,
            onBoard r c1 = true -> onBoard r c2 = true ->
            exists board1, relocateRook board r c1 c2 = Ok board1 /\ grid board1).
  { intros r c1 c2 H1 H2. unfold relocateRook.
    destruct (grid_cellAt board r c1 Hg H1) as [s ->]. simpl.
    destruct (setCell_grid board r c2 s Hg H2) as (b1 & -> & Hg1). simpl.
    exact (setCell_grid b1 r c1 "" Hg1 H1). }
  unfold castlingRook, hopBoard.
  destruct (isStr piece "wK"); [|destruct (isStr piece "bK")];
    try (destruct (_ && _); [destruct (toCol =? 6); [|destruct (toCol =? 2)]|]);
    try (apply Hrel; reflexivity); eauto.
Qed.

(** On a grid a move between two squares of the board can always be
    applied, and the result is a grid. *)
Lemma applyMove_grid (from to : Square) (piece : string) (board : Board)
    (gs : GameState) :
  grid board ->
  onBoard (fst from) (snd from) = true -> onBoard (fst to) (snd to) = true ->
  exists board' gs',
    applyMove from to piece board gs = Ok (board', gs') /\ grid board'.
Proof.
  intros Hg Hfrom Hto.
  destruct (grid_cellAt board _ _ Hg Hfrom) as [s Hs].
  destruct (hopBoard_grid board (Some s) (fst from) (snd from) (snd to) Hg)
    as (b1 & Hb1 & Hg1).
  destruct (grid_cellAt b1 _ _ Hg1 Hto) as [t Ht].
  destruct (updateGameState_run _ _ _ _ _ _ gs _ _ Hs Hb1 Ht) as [gs' Hgs'].
  destruct (setCell_grid b1 _ _ piece Hg1 Hto) as (b2 & Hb2 & Hg2).
  destruct (setCell_grid b2 _ _ "" Hg2 Hfrom) as (b3 & Hb3 & Hg3).
  exists b3, gs'. unfold applyMove. rewrite Hgs'. simpl.
  rewrite Hb2. simpl. rewrite Hb3. auto.
Qed.

(** On a grid [updateGameState] returns for any two squares of the board. *)
Lemma updateGameState_grid (fromRow fromCol toRow toCol : Z) (board : Board)
    (gs : GameState) :
  grid board ->
  onBoard fromRow fromCol = true -> onBoard toRow toCol = true ->
  exists board' gs',
    updateGameState fromRow fromCol toRow toCol board gs = Ok (board', gs') /\
    grid board'.
Proof.
  intros Hg Hfrom Hto.
  destruct (grid_cellAt board _ _ Hg Hfrom) as [s Hs].
  destruct (hopBoard_grid board (Some s) fromRow fromCol toCol Hg)
    as (b1 & Hb1 & Hg1).
  destruct (grid_cellAt b1 _ _ Hg1 Hto) as [t Ht].
  destruct (updateGameState_run _ _ _ _ _ _ gs _ _ Hs Hb1 Ht) as [gs' Hgs'].
  eauto.
Qed.

(** C3: on a grid [updateGameState] returns for any two squares of the
    board; a right that is false before the call is false in the record it
    returns, on any board; and along any sequence of such calls no right goes
    from false back to true. *)
Theorem castling_rights_only_cleared :
  (forall fromRow fromCol toRow toCol board gs,
      grid board ->
      onBoard fromRow fromCol = true -> onBoard toRow toCol = true ->
      exists board' gs',
        updateGameState fromRow fromCol toRow toCol board gs = Ok (board', gs')) /\
  (forall fromRow fromCol toRow toCol board board' gs gs',
      updateGameState fromRow fromCol toRow toCol board gs = Ok (board', gs') ->
      rightsLe gs' gs) /\
  (forall gs gs', updates gs gs' -> rightsLe gs' gs).
Proof.
  split; [|split].
  - intros fromRow fromCol toRow toCol board gs Hg Hfrom Hto.
    destruct (updateGameState_grid fromRow fromCol toRow toCol board gs Hg Hfrom Hto)
      as (board' & gs' & H & _).
    eauto.
  - intros. eapply updateGameState_le; eauto.
  - intros gs gs' H. induction H as [gs|gs gs1 gs2 fr fc tr tc b b' Hstep _ IH].
    + apply rightsLe_refl.
    + eapply rightsLe_trans; [exact IH|]. eapply updateGameState_le; eauto.
Qed.

(** C1: on a grid, every destination returned by [getPossibleMoves] for a
    piece can be applied ([updateGameState], with the rook relocation of a
    castling move, then the two writes of the moving piece), and on the board
    so obtained the king of the mover's color is not in check.  The move need
    not come from a position with one king of each color: the grid shape is
    all the proof uses. *)
Theorem legal_move_keeps_king_safe (board : Board) (gs : GameState)
    (row col : Z) (piece : string) (l : list Square) (m : Square) :
  grid board ->
  cellAt board row col = Ok (Some piece) -> piece <> "" ->
  getPossibleMoves row col board gs = Ok l -> In m l ->
  exists board' gs',
    applyMove (row, col) m piece board gs = Ok (board', gs') /\
    isKingInCheck board' (String.eqb (charAt piece 0) "w") = Ok false.
Proof.
  intros Hg Hc Hne Hl Hm.
  destruct (getPossibleMoves_Ok _ _ _ _ _ _ Hc Hne Hl)
    as (raw & castling & Hraw & Hcas & Hkeep).
  destruct (proj1 (keepSafe_In _ _ _ _ _ _ _ m Hkeep) Hm)
    as (Hcand & T & HT & Hchk).
  pose proof HT as HT'. unfold testMove in HT'. bindOk HT'. rename a into T1.
  destruct (setCell_Ok_cellAt _ _ _ _ _ Ha) as [old Hold].
  unfold applyMove. simpl fst. simpl snd.
  destruct (castlingRook (Some piece) row col (snd m)) as [[[r c1] c2]|] eqn:Ehop.
  - destruct (castlingRook_Some _ _ _ _ _ _ _ Ehop)
      as (w & kingside & -> & -> & -> & -> & Hdest & -> & ->).
    assert (HK : String.eqb (charAt (kingOf w) 1) "K" = true)
      by (destruct w; reflexivity).
    assert (HW : String.eqb (charAt (kingOf w) 0) "w" = w)
      by (destruct w; reflexivity).
    rewrite HK in Hcas. rewrite HW in *.
    apply in_app_or in Hcand as [Hin|Hin].
    { pose proof (king_raw_near _ _ _ _ _ _ Hc Hraw Hin) as Hnear.
      rewrite Hdest in Hnear. destruct kingside; lia. }
    destruct (castlingMoves_In _ _ _ _ _ Hcas Hin) as [Hrow _].
    assert (Em : m = (homeRow w, if kingside then 6 else 2))
      by (destruct m as [mr mc]; simpl in Hrow, Hdest; unfold homeRow;
          now rewrite Hrow, Hdest).
    subst m. clear Hrow Hdest.
    destruct (castlingMoves_spec _ _ _ _ Hg Hcas) as [Hks Hqs].
    assert (Hcells : cellAt board (homeRow w) (if kingside then 7 else 0)
                       = Ok (Some (rookOf w)) /\
                     cellAt board (homeRow w) (if kingside then 5 else 3)
                       = Ok (Some "")).
    { destruct kingside.
      - apply Hks in Hin. destruct Hin as (_ & Hb & Hr & _).
        split; [assumption|]. apply Hb. simpl. auto.
      - apply Hqs in Hin. destruct Hin as (_ & Hb & Hr & _).
        split; [assumption|]. apply Hb. simpl. auto. }
    destruct Hcells as [Hrook Hfill].
    destruct (castle_applied_safe w kingside board T Hg Hrook Hfill HT Hchk)
      as (b1 & b2 & A & Hb1 & Hb2 & HA & Hsafe).
    destruct (setCell_Ok_cellAt _ _ _ _ _ Hb2) as [old1 Hold1].
    destruct (updateGameState_run (homeRow w) 4 (homeRow w)
                (if kingside then 6 else 2) board b1 gs _ (Some old1) Hc) as [gs' Hgs'];
      [simpl snd in Ehop; rewrite Ehop; exact Hb1|exact Hold1|].
    simpl fst in *. simpl snd in *. rewrite Hgs'. simpl.
    rewrite Hb2. simpl. rewrite HA. simpl. eauto.
  - destruct (updateGameState_run row col (fst m) (snd m) board board gs _
                (Some old) Hc)
      as [gs' Hgs']; [now rewrite Ehop|exact Hold|].
    rewrite Hgs'. simpl. rewrite Ha. simpl. rewrite HT'. simpl. eauto.
Qed.

(** ** Moves land on empty cells or on the other color *)

Lemma slide_landable (fuel : nat) (board : Board) (piece : string)
    (r c dr dc : Z) (l : list Square) :
  slide fuel board piece r c dr dc = Ok l ->
  forall m, In m l -> landable board piece m.
Proof.
  revert r c l. induction fuel as [|fuel IH]; intros r c l; simpl;
    destruct (onBoard r c); intros H m Hm;
    try discriminate; try (inversion H; subst; destruct Hm).
  bindOk H. destruct (asPiece a) as [t|] eqn:Et.
  - destruct (String.eqb (charAt t 0) (charAt piece 0)) eqn:Ecol;
      inversion H; subst; [destruct Hm|].
    destruct Hm as [<-|[]]. exists a. simpl. rewrite Et. auto.
  - bindOk H. inversion H; subst. destruct Hm as [<-|Hm].
    + exists a. simpl. rewrite Et. auto.
    + eauto.
Qed.

Lemma steps_landable (board : Board) (piece : string) (row col : Z)
    (offsets : list (Z * Z)) (l : list Square) :
  steps board piece row col offsets = Ok l ->
  forall m, In m l -> landable board piece m.
Proof.
  unfold steps. apply forPush_all. intros o ys _ H m Hm. cbv zeta in H.
  destruct (onBoard _ _); [|inversion H; subst; destruct Hm].
  bindOk H. destruct (asPiece a) as [t|] eqn:Et.
  - destruct (String.eqb (charAt t 0) (charAt piece 0)) eqn:Ecol;
      inversion H; subst; [destruct Hm|].
    destruct Hm as [<-|[]]. exists a. simpl. rewrite Et. auto.
  - inversion H; subst. destruct Hm as [<-|[]].
    exists a. simpl. rewrite Et. auto.
Qed.

Lemma pawnCaptures_landable (board : Board) (row col : Z) (piece : string)
    (isWhite : bool) (l : list Square) :
  pawnCaptures board row col piece isWhite = Ok l ->
  forall m, In m l -> landable board piece m.
Proof.
  unfold pawnCaptures. apply forPush_all. intros o ys _ H m Hm.
  destruct (inRange _); [|inversion H; subst; destruct Hm].
  bindOk H. destruct (asPiece a) as [t|] eqn:Et;
    [|inversion H; subst; destruct Hm].
  destruct (String.eqb (charAt t 0) (charAt piece 0)) eqn:Ecol;
    inversion H; subst; [destruct Hm|].
  destruct Hm as [<-|[]]. exists a. simpl. rewrite Et. auto.
Qed.

Lemma getRawPossibleMoves_landable (board : Board) (row col : Z)
    (piece : string) (l : list Square) :
  cellAt board row col = Ok (Some piece) -> piece <> "" ->
  getRawPossibleMoves row col board = Ok l ->
  forall m, In m l -> landable board piece m.
Proof.
  intros Hc Hne. unfold getRawPossibleMoves. rewrite Hc. simpl.
  destruct (String.eqb_spec piece ""); [contradiction|].
  intros H. bindOk H. bindOk H. bindOk H. bindOk H. bindOk H.
  inversion H; subst l. intros m Hm.
  rewrite !in_app_iff in Hm. destruct Hm as [Hm|[Hm|[Hm|[Hm|Hm]]]].
  - destruct (String.eqb (charAt piece 1) "P");
      [|inversion Ha; subst; destruct Hm].
    bindOk Ha. bindOk Ha. inversion Ha; subst a.
    apply in_app_or in Hm as [Hm|Hm].
    + destruct (pawnForward_empty _ _ _ _ _ _ Ha4 Hm) as (v & Hv & Hnone).
      exists v. split; [assumption|]. now rewrite Hnone.
    + eapply pawnCaptures_landable; eauto.
  - destruct (String.eqb (charAt piece 1) "R" || String.eqb (charAt piece 1) "Q");
      [|inversion Ha0; subst; destruct Hm].
    unfold slides in Ha0.
    refine (forPush_all _ _ _ _ _ Ha0 m Hm).
    intros d ys _ Hd. eapply slide_landable; eauto.
  - destruct (String.eqb (charAt piece 1) "N");
      [|inversion Ha1; subst; destruct Hm].
    eapply steps_landable; eauto.
  - destruct (String.eqb (charAt piece 1) "B" || String.eqb (charAt piece 1) "Q");
      [|inversion Ha2; subst; destruct Hm].
    unfold slides in Ha2.
    refine (forPush_all _ _ _ _ _ Ha2 m Hm).
    intros d ys _ Hd. eapply slide_landable; eauto.
  - destruct (String.eqb (charAt piece 1) "K");
      [|inversion Ha3; subst; destruct Hm].
    eapply steps_landable; eauto.
Qed.

(** No move returned by [getPossibleMoves] lands on a piece of the mover's
    own color; in particular none stays on the origin square. *)
Lemma getPossibleMoves_landable (board : Board) (gs : GameState) (row col : Z)
    (piece : string) (l : list Square) :
  grid board ->
  cellAt board row col = Ok (Some piece) -> piece <> "" ->
  getPossibleMoves row col board gs = Ok l ->
  forall m, In m l -> landable board piece m.
Proof.
  intros Hg Hc Hne Hl m Hm.
  destruct (getPossibleMoves_Ok _ _ _ _ _ _ Hc Hne Hl)
    as (raw & castling & Hraw & Hcas & Hkeep).
  destruct (proj1 (keepSafe_In _ _ _ _ _ _ _ m Hkeep) Hm) as [Hcand _].
  apply in_app_or in Hcand as [Hin|Hin].
  - eapply getRawPossibleMoves_landable; eauto.
  - destruct (String.eqb (charAt piece 1) "K");
      [|inversion Hcas; subst; destruct Hin].
    destruct (castlingMoves_In _ _ _ _ _ Hcas Hin) as [Hrow Hcol].
    destruct (castlingMoves_spec _ _ _ _ Hg Hcas) as [Hks Hqs].
    assert (Hempty : cellAt board (fst m) (snd m) = Ok (Some "")).
    { destruct m as [mr mc]. simpl in *. fold (homeRow (String.eqb (charAt piece 0) "w")) in Hrow.
      subst mr. destruct Hcol as [->| ->].
      - apply Hks in Hin. destruct Hin as (_ & Hb & _). apply Hb. simpl. auto.
      - apply Hqs in Hin. destruct Hin as (_ & Hb & _). apply Hb. simpl. auto. }
    exists (Some ""). split; [assumption|]. simpl. exact I.
Qed.

Lemma landable_not_origin (board : Board) (row col : Z) (piece : string)
    (m : Square) :
  cellAt board row col = Ok (Some piece) -> piece <> "" ->
  landable board piece m -> m <> (row, col).
Proof.
  intros Hc Hne (v & Hv & Hland) ->. simpl in Hv. rewrite Hc in Hv.
  inversion Hv; subst v. simpl in Hland.
  destruct (String.eqb_spec piece ""); [contradiction|].
  now rewrite String.eqb_refl in Hland.
Qed.


(** ** The computer's only move *)

Lemma squares_NoDup : NoDup squares.
Proof. apply (bool_decide_unpack _). vm_compute. exact I. Qed.

Lemma forPush_none {A B : Type} (f : A -> result (list B)) (xs : list A) :
  (forall x, In x xs -> f x = Ok []) -> forPush f xs = Ok [].
Proof.
  induction xs as [|x xs IH]; simpl; intros H; [reflexivity|].
  rewrite (H x) by now left. simpl. rewrite IH by (intros; apply H; now right).
  reflexivity.
Qed.

(** A loop in which a single iteration pushes, and pushes one entry. *)
Lemma forPush_single {A B : Type} (f : A -> result (list B)) (xs : list A)
    (x : A) (y : B) :
  NoDup xs -> In x xs -> f x = Ok [y] ->
  (forall x', In x' xs -> x' <> x -> f x' = Ok []) ->
  forPush f xs = Ok [y].
Proof.
  induction xs as [|a xs IH]; intros Hnd Hin Hx Hother; [destruct Hin|].
  apply NoDup_cons in Hnd as [Hna Hnd]. simpl.
  destruct Hin as [->|Hin].
  - rewrite Hx. simpl. rewrite forPush_none; [reflexivity|].
    intros x' Hx'. apply Hother; [now right|].
    intros ->. apply Hna. now apply list_elem_of_In.
  - rewrite (Hother a) by
      (try (now left); intros ->; apply Hna; now apply list_elem_of_In).
    simpl. rewrite IH; auto. intros x' Hx' Hne. apply Hother; auto. now right.
Qed.

Lemma randomIndex_one (u : Q) : isDraw u -> randomIndex u 1 = 0.
Proof.
  intros [H0 H1]. unfold randomIndex.
  assert (E : (u * inject_Z (Z.of_nat 1) == u)%Q) by (simpl; ring).
  rewrite (Qfloor_comp _ _ E).
  pose proof (Qfloor_le u) as Hle. pose proof (Qlt_floor u) as Hlt.
  assert (Hlo : (inject_Z (Qfloor u) < inject_Z 1)%Q)
    by (eapply Qle_lt_trans; eauto).
  assert (Hhi : (inject_Z 0 < inject_Z (Qfloor u + 1))%Q)
    by (eapply Qle_lt_trans; eauto).
  rewrite <- Zlt_Qlt in Hlo, Hhi. lia.
Qed.

Lemma collectBlack_single (board : Board) (gs : GameState) (r c : Z)
    (p : string) (m : Square) :
  grid board ->
  cellAt board r c = Ok (Some p) -> charAt p 0 = "b" ->
  getPossibleMoves r c board gs = Ok [m] ->
  (forall r' c' p', (r', c') <> (r, c) ->
     cellAt board r' c' = Ok (Some p') -> charAt p' 0 = "b" ->
     getPossibleMoves r' c' board gs = Ok []) ->
  collectBlack board gs = Ok [mkCandidate r c p [m]].
Proof.
  intros Hg Hc Hb Hl Hother. unfold collectBlack.
  assert (Hne : p <> "") by (intros ->; discriminate).
  apply forPush_single with (x := (r, c)).
  - apply squares_NoDup.
  - apply squares_spec. eapply cellAt_Some_col; eauto.
  - unfold candidateAt. rewrite Hc. simpl. destruct (String.eqb_spec p ""); [contradiction|].
    rewrite Hb. simpl. rewrite Hl. reflexivity.
  - intros [r' c'] Hin Hne'. apply squares_spec in Hin. unfold candidateAt.
    destruct (grid_cellAt board r' c' Hg Hin) as [s Hs]. rewrite Hs. simpl.
    destruct (String.eqb_spec s ""); [reflexivity|].
    destruct (String.eqb_spec (charAt s 0) "b") as [Eb|]; [|reflexivity].
    now rewrite (Hother r' c' s Hne' Hs Eb).
Qed.

Lemma cellAt_setCell_Ok (board : Board) (r c : Z) (s v : string) :
  cellAt board r c = Ok (Some s) -> exists board', setCell board r c v = Ok board'.
Proof.
  unfold cellAt, setCell. destruct (idx board r) as [row|]; [|discriminate].
  intros H. inversion H as [Hc]. rewrite Hc. eauto.
Qed.

(** After [applyMove] the destination holds the moving piece, provided the
    destination is not the origin. *)
Lemma applyMove_dest (from to : Square) (piece : string) (board board' : Board)
    (gs gs' : GameState) :
  applyMove from to piece board gs = Ok (board', gs') -> to <> from ->
  cellAt board' (fst to) (snd to) = Ok (Some piece).
Proof.
  unfold applyMove. intros H Hne. bindOk H. bindOk H. bindOk H.
  inversion H; subst.
  rewrite (cellAt_setCell _ _ _ _ _ (fst to) (snd to) Ha1).
  rewrite (cellAt_setCell _ _ _ _ _ (fst to) (snd to) Ha0).
  rewrite !Z.eqb_refl. simpl.
  destruct (Z.eqb_spec (fst to) (fst from)); [|reflexivity].
  destruct (Z.eqb_spec (snd to) (snd from)); [|reflexivity].
  exfalso. apply Hne. destruct to, from. simpl in *. congruence.
Qed.

(** C8: when one black piece has legal moves and has exactly one, whatever
    the two draws, [makeComputerMove] returns the board on which that move
    has been applied; and when the piece is a pawn arriving on row 7, the
    destination holds a black queen and the rest of the board is that of the
    applied move. *)
Theorem makeComputerMove_only_choice (board : Board) (gs : GameState)
    (u1 u2 : Q) (r c : Z) (p : string) (m : Square) :
  grid board -> isDraw u1 -> isDraw u2 ->
  cellAt board r c = Ok (Some p) -> charAt p 0 = "b" ->
  getPossibleMoves r c board gs = Ok [m] ->
  (forall r' c' p', (r', c') <> (r, c) ->
     cellAt board r' c' = Ok (Some p') -> charAt p' 0 = "b" ->
     getPossibleMoves r' c' board gs = Ok []) ->
  exists board1 gs1 board',
    applyMove (r, c) m p board gs = Ok (board1, gs1) /\
    makeComputerMove board gs u1 u2 = Ok (board', gs1) /\
    if String.eqb (charAt p 1) "P" && (fst m =? 7)
    then cellAt board' (fst m) (snd m) = Ok (Some "bQ") /\
         forall r' c', (r', c') <> m -> cellAt board' r' c' = cellAt board1 r' c'
    else board' = board1.
Proof.
  intros Hg Hu1 Hu2 Hc Hb Hl Hother.
  assert (Hne : p <> "") by (intros ->; discriminate).
  pose proof (cellAt_Some_col _ _ _ _ Hg Hc) as Hon.
  pose proof (getPossibleMoves_onBoard _ _ _ gs _ Hg Hon Hl m (or_introl eq_refl))
    as Hmon.
  destruct (applyMove_grid (r, c) m p board gs Hg Hon Hmon)
    as (board1 & gs1 & Happ & _).
  assert (Hmne : m <> (r, c)).
  { eapply landable_not_origin; eauto.
    eapply getPossibleMoves_landable; eauto. now left. }
  pose proof (applyMove_dest _ _ _ _ _ _ _ Happ Hmne) as Hdest.
  assert (Hprom : canPromotePawn (fst m) (snd m) board1 =
                  Ok (String.eqb (charAt p 1) "P" && (fst m =? 7))).
  { unfold canPromotePawn. rewrite Hdest. simpl.
    destruct (String.eqb_spec p ""); [contradiction|].
    rewrite Hb. simpl. now destruct (String.eqb (charAt p 1) "P"). }
  assert (Hrun : makeComputerMove board gs u1 u2 =
                 (board3 <- (if String.eqb (charAt p 1) "P" && (fst m =? 7)
                             then promotePawn (fst m) (snd m) board1 "Q"
                             else Ok board1) ;;
                  Ok (board3, gs1))).
  { unfold makeComputerMove.
    rewrite (collectBlack_single board gs r c p m Hg Hc Hb Hl Hother).
    cbv beta iota zeta delta [bind].
    change (length [mkCandidate r c p [m]]) with 1%nat.
    rewrite (randomIndex_one u1 Hu1).
    change (idx [mkCandidate r c p [m]] 0) with (Some (mkCandidate r c p [m])).
    cbv beta iota zeta delta [cMoves cRow cCol cPiece].
    change (length [m]) with 1%nat.
    rewrite (randomIndex_one u2 Hu2).
    change (idx [m] 0) with (Some m).
    cbv beta iota.
    unfold applyMove in Happ. cbn [fst snd] in Happ.
    bindOk Happ. bindOk Happ. bindOk Happ. inversion Happ; subst.
    rewrite Ha. cbv beta iota delta [bind]. rewrite Ha0. cbv beta iota.
    rewrite Ha1. cbv beta iota. fold (@bind bool).
    rewrite Hprom. reflexivity. }
  exists board1, gs1.
  destruct (String.eqb (charAt p 1) "P" && (fst m =? 7)) eqn:Epromo.
  - apply andb_true_iff in Epromo as [EP _].
    destruct (cellAt_setCell_Ok board1 (fst m) (snd m) p "bQ" Hdest)
      as [board' Hset].
    assert (Hpp : promotePawn (fst m) (snd m) board1 "Q" = Ok board').
    { unfold promotePawn. rewrite Hdest. simpl.
      destruct (String.eqb_spec p ""); [contradiction|].
      rewrite EP, Hb. exact Hset. }
    exists board'. split; [assumption|]. rewrite Hrun, Hpp. simpl.
    split; [reflexivity|]. split.
    + rewrite (cellAt_setCell _ _ _ _ _ (fst m) (snd m) Hset).
      now rewrite !Z.eqb_refl.
    + intros r' c' Hne'. rewrite (cellAt_setCell _ _ _ _ _ r' c' Hset).
      destruct (Z.eqb_spec r' (fst m)); [|reflexivity].
      destruct (Z.eqb_spec c' (snd m)); [|reflexivity].
      exfalso. apply Hne'. destruct m. simpl in *. congruence.
  - exists board1. split; [assumption|]. rewrite Hrun. simpl. auto.
Qed.

(** ** The store: what a call leaves alone *)

Lemma keeps_refl (n : nat) (h : list object) : Store.keeps n h h.
Proof. split; [lia|auto]. Qed.

Lemma keeps_trans (n : nat) (h1 h2 h3 : list object) :
  Store.keeps n h1 h2 -> Store.keeps n h2 h3 -> Store.keeps n h1 h3.
Proof.
  intros [L1 K1] [L2 K2]. split; [lia|].
  intros l Hl. now rewrite K2, K1.
Qed.

Lemma keeps_le (n m : nat) (h h' : list object) :
  (n <= m)%nat -> Store.keeps m h h' -> Store.keeps n h h'.
Proof. intros Hnm [L K]. split; [assumption|]. intros l Hl. apply K. lia. Qed.

Lemma keeps_alloc (h : list object) (o : object) :
  Store.keeps (length h) h (h ++ [o]).
Proof.
  split; [rewrite length_app; lia|].
  intros l Hl. now apply lookup_app_l.
Qed.

Lemma keeps_insert (n l : nat) (h : list object) (o : object) :
  (n <= l)%nat -> Store.keeps n h (<[l := o]> h).
Proof.
  intros Hnl. split; [rewrite length_insert; lia|].
  intros l' Hl'. apply list_lookup_insert_ne. lia.
Qed.

Lemma idx_In {A : Type} (xs : list A) (i : Z) (x : A) :
  idx xs i = Some x -> In x xs.
Proof.
  intros H. apply idx_Some in H as [_ H].
  apply list_elem_of_In, list_elem_of_lookup. eauto.
Qed.

Lemma copyBoard_keeps (board : list nat) (h h' : list object) (locs : list nat) :
  Store.copyBoard h board = Ok (h', locs) ->
  Store.keeps (length h) h h' /\ Forall (fun l => (length h <= l)%nat) locs.
Proof.
  revert h h' locs. induction board as [|l ls IH]; simpl; intros h h' locs H.
  - inversion H; subst. split; [apply keeps_refl|constructor].
  - bindOk H. bindOk H. destruct a0 as [h1 locs1]. inversion H; subst.
    destruct (IH _ _ _ Ha0) as [K F]. rewrite length_app in K, F. simpl in K, F.
    split.
    + eapply keeps_trans; [apply keeps_alloc|].
      eapply keeps_le; [|exact K]. lia.
    + constructor; [lia|]. eapply Forall_impl; [exact F|]. simpl. intros; lia.
Qed.

Lemma copyRights_keeps (h h' : list object) (gameState l : nat) :
  Store.copyRights h gameState = Ok (h', l) ->
  Store.keeps (length h) h h' /\ l = length h.
Proof.
  unfold Store.copyRights. intros H. bindOk H. inversion H; subst.
  split; [apply keeps_alloc|reflexivity].
Qed.

Lemma writeCell_keeps (n : nat) (h h' : list object) (board : list nat)
    (r c : Z) (v : string) :
  Forall (fun l => (n <= l)%nat) board ->
  Store.writeCell h board r c v = Ok h' -> Store.keeps n h h'.
Proof.
  intros F. unfold Store.writeCell.
  destruct (idx board r) as [l|] eqn:El; [|discriminate].
  intros H. bindOk H. destruct (idx a c); [|discriminate].
  inversion H; subst. apply keeps_insert.
  rewrite Forall_forall in F. apply F. apply list_elem_of_In.
  eapply idx_In; eauto.
Qed.

Lemma modifyRights_keeps (n l : nat) (h h' : list object)
    (f : GameState -> GameState) :
  (n <= l)%nat -> Store.modifyRights h l f = Ok h' -> Store.keeps n h h'.
Proof.
  intros Hnl. unfold Store.modifyRights. intros H. bindOk H.
  inversion H; subst. now apply keeps_insert.
Qed.

Lemma relocateRook_keeps (n : nat) (h h' : list object) (board : list nat)
    (r c1 c2 : Z) :
  Forall (fun l => (n <= l)%nat) board ->
  Store.relocateRook h board r c1 c2 = Ok h' -> Store.keeps n h h'.
Proof.
  intros F. unfold Store.relocateRook. intros H. bindOk H.
  destruct a as [s|]; [|discriminate]. bindOk H.
  eapply keeps_trans; eapply writeCell_keeps; eauto.
Qed.

Lemma promotePawn_keeps (n : nat) (h h' : list object) (board : list nat)
    (row col : Z) (newPiece : string) :
  Forall (fun l => (n <= l)%nat) board ->
  Store.promotePawn row col h board newPiece = Ok h' -> Store.keeps n h h'.
Proof.
  intros F. unfold Store.promotePawn. intros H. bindOk H.
  destruct (asPiece a) as [piece|]; [|inversion H; subst; apply keeps_refl].
  destruct (String.eqb (charAt piece 1) "P");
    [|inversion H; subst; apply keeps_refl].
  eapply writeCell_keeps; eauto.
Qed.

(** [updateGameState] writes to the rows of the board it is given and to the
    record it has just allocated, and to nothing else. *)
Lemma updateGameState_keeps (n : nat) (h h' : list object) (board : list nat)
    (gameState l : nat) (fromRow fromCol toRow toCol : Z) :
  Forall (fun l => (n <= l)%nat) board -> (n <= length h)%nat ->
  Store.updateGameState fromRow fromCol toRow toCol h board gameState = Ok (h', l) ->
  Store.keeps n h h' /\ l = length h.
Proof.
  intros F Hn. unfold Store.updateGameState. intros H.
  bindOk H. destruct a as [h0 l0]. simpl in H.
  destruct (copyRights_keeps _ _ _ _ Ha) as [K0 ->].
  bindOk H. bindOk H. bindOk H. bindOk H. bindOk H. inversion H; subst.
  split; [|reflexivity].
  eapply keeps_trans; [eapply keeps_le; [|exact K0]; assumption|].
  assert (K1 : Store.keeps n h0 a0).
  { destruct (isStr a "wK"); [|destruct (isStr a "bK")].
    - bindOk Ha1.
      eapply keeps_trans; [eapply modifyRights_keeps; eauto|].
      destruct ((fromRow =? 7) && (fromCol =? 4));
        [destruct (toCol =? 6); [|destruct (toCol =? 2)]|];
        try (eapply relocateRook_keeps; eauto; fail);
        inversion Ha1; subst; apply keeps_refl.
    - bindOk Ha1.
      eapply keeps_trans; [eapply modifyRights_keeps; eauto|].
      destruct ((fromRow =? 0) && (fromCol =? 4));
        [destruct (toCol =? 6); [|destruct (toCol =? 2)]|];
        try (eapply relocateRook_keeps; eauto; fail);
        inversion Ha1; subst; apply keeps_refl.
    - inversion Ha1; subst. apply keeps_refl. }
  eapply keeps_trans; [exact K1|].
  eapply keeps_trans; eapply modifyRights_keeps; eauto.
Qed.

(** The filter loop writes to the test boards it allocates only. *)
Lemma keepSafe_keeps (moves : list Square) (h h' : list object)
    (board : list nat) (row col : Z) (piece : string) (isWhite : bool)
    (l : list Square) :
  Store.keepSafe h board row col piece isWhite moves = Ok (h', l) ->
  Store.keeps (length h) h h'.
Proof.
  revert h h' l. induction moves as [|move rest IH]; simpl; intros h h' l H.
  - inversion H; subst. apply keeps_refl.
  - splitBind H as [h0 testBoard] Hcopy. simpl in H.
    destruct (copyBoard_keeps _ _ _ _ Hcopy) as [K0 F].
    splitBind H as h1 Hw1. splitBind H as h2 Hw2. splitBind H as tb Htb.
    splitBind H as chk Hchk. splitBind H as [h4 l4] Hrest. inversion H; subst.
    pose proof (writeCell_keeps _ _ _ _ _ _ _ F Hw1) as K1.
    pose proof (writeCell_keeps _ _ _ _ _ _ _ F Hw2) as K2.
    pose proof (IH _ _ _ Hrest) as K3.
    eapply keeps_trans; [exact K0|].
    eapply keeps_trans; [exact K1|].
    eapply keeps_trans; [exact K2|].
    eapply keeps_le; [|exact K3].
    destruct K0, K1, K2. lia.
Qed.

Lemma getPossibleMoves_keeps (h h' : list object) (board : list nat)
    (gameState : nat) (row col : Z) (l : list Square) :
  Store.getPossibleMoves row col h board gameState = Ok (h', l) ->
  Store.keeps (length h) h h'.
Proof.
  unfold Store.getPossibleMoves. intros H.
  splitBind H as b Hb. splitBind H as here Hhere.
  destruct (asPiece here); [|inversion H; subst; apply keeps_refl].
  splitBind H as raw Hraw. splitBind H as castling Hcas.
  eapply keepSafe_keeps; eauto.
Qed.

Lemma collectBlack_keeps (sqs : list Square) (h h' : list object)
    (board : list nat) (gameState : nat) (l : list Candidate) :
  Store.collectBlack h board gameState sqs = Ok (h', l) ->
  Store.keeps (length h) h h'.
Proof.
  revert h h' l. induction sqs as [|[row col] rest IH]; simpl; intros h h' l H.
  - inversion H; subst. apply keeps_refl.
  - splitBind H as here Hhere. destruct (asPiece here) as [piece|]; [|eauto].
    destruct (String.eqb (charAt piece 0) "b"); [|eauto].
    splitBind H as [h0 l0] Hmoves. splitBind H as [h1 l1] Hrest.
    inversion H; subst. simpl in *.
    pose proof (getPossibleMoves_keeps _ _ _ _ _ _ _ Hmoves) as K0.
    pose proof (IH _ _ _ Hrest) as K1.
    eapply keeps_trans; [exact K0|]. eapply keeps_le; [|exact K1].
    destruct K0. lia.
Qed.

Lemma makeComputerMove_keeps (h h' : list object) (board newBoard : list nat)
    (gameState newGameState : nat) (u1 u2 : Q) :
  Store.makeComputerMove h board gameState u1 u2
    = Ok (h', (newBoard, newGameState)) ->
  Store.keeps (length h) h h' /\
  Forall (fun l => (length h <= l)%nat) newBoard /\
  (length h <= newGameState)%nat.
Proof.
  unfold Store.makeComputerMove. intros H.
  splitBind H as [h0 nb] Hcopy. cbn [fst snd] in H.
  destruct (copyBoard_keeps _ _ _ _ Hcopy) as [K0 F].
  splitBind H as [h1 ngs] Hrights. cbn [fst snd] in H.
  destruct (copyRights_keeps _ _ _ _ Hrights) as [K1 ->].
  splitBind H as [h2 blackPieces] Hblack. cbn [fst snd] in H.
  pose proof (collectBlack_keeps _ _ _ _ _ _ Hblack) as K2.
  assert (K012 : Store.keeps (length h) h h2).
  { eapply keeps_trans; [exact K0|].
    eapply keeps_trans; [eapply keeps_le; [|exact K1]; destruct K0; lia|].
    eapply keeps_le; [|exact K2]. destruct K0, K1. lia. }
  assert (L2 : (length h <= length h2)%nat) by (destruct K012; assumption).
  destruct blackPieces as [|cand cands].
  - inversion H; subst. split; [assumption|]. split; [assumption|].
    destruct K0. lia.
  - destruct (idx (cand :: cands) _) as [sel|]; [|discriminate].
    destruct (idx (cMoves sel) _) as [target|]; [|discriminate].
    splitBind H as [h3 ngs'] Hupd. cbn [fst snd] in H.
    destruct (updateGameState_keeps _ _ _ _ _ _ _ _ _ _ F L2 Hupd) as [K3 ->].
    splitBind H as h4 Hw1. splitBind H as h5 Hw2. splitBind H as promote Hprom.
    splitBind H as h6 Hpp. inversion H; subst.
    pose proof (writeCell_keeps _ _ _ _ _ _ _ F Hw1) as K4.
    pose proof (writeCell_keeps _ _ _ _ _ _ _ F Hw2) as K5.
    assert (K6 : Store.keeps (length h) h5 h').
    { destruct promote; [eapply promotePawn_keeps; eauto|].
      inversion Hpp; subst. apply keeps_refl. }
    split; [|split; [assumption|assumption]].
    eapply keeps_trans; [exact K012|].
    eapply keeps_trans; [exact K3|].
    eapply keeps_trans; [exact K4|].
    eapply keeps_trans; [exact K5|exact K6].
Qed.

Lemma snapshot_keeps (n : nat) (h h' : list object) (board : list nat) (b : Board) :
  Store.keeps n h h' -> Forall (fun l => (l < n)%nat) board ->
  Store.snapshot h board = Ok b -> Store.snapshot h' board = Ok b.
Proof.
  intros [_ K] F. revert b. induction F as [|l ls Hl F IH]; simpl; intros b H.
  - exact H.
  - splitBind H as row Hrow. splitBind H as rows Hrows. inversion H; subst.
    unfold Store.rowAt in *. rewrite (K l Hl).
    destruct (h !! l) as [[row'|gs]|]; try discriminate.
    inversion Hrow; subst. simpl. now rewrite (IH rows Hrows).
Qed.

Lemma snapshot_bound (h : list object) (board : list nat) (b : Board) :
  Store.snapshot h board = Ok b -> Forall (fun l => (l < length h)%nat) board.
Proof.
  revert b. induction board as [|l ls IH]; simpl; intros b H; [constructor|].
  splitBind H as row Hrow. splitBind H as rows Hrows.
  constructor; [|eauto]. unfold Store.rowAt in Hrow.
  destruct (h !! l) eqn:E; [|discriminate]. eapply lookup_lt_Some; eauto.
Qed.

(** ** The store: the returned objects hold what the value model computes *)

Lemma snapshot_lookup (h : list object) (board : list nat) (b : Board) :
  Store.snapshot h board = Ok b ->
  forall n,
    match board !! n with
    | Some l => exists row, Store.rowAt h l = Ok row /\ b !! n = Some row
    | None => b !! n = None
    end.
Proof.
  revert b. induction board as [|l ls IH]; simpl; intros b H n.
  - inversion H; subst. reflexivity.
  - splitBind H as row Hrow. splitBind H as rows Hrows. inversion H; subst.
    destruct n as [|n]; simpl; [eauto|]. exact (IH rows Hrows n).
Qed.

Lemma readCell_snapshot (h : list object) (board : list nat) (b : Board) (r c : Z) :
  Store.snapshot h board = Ok b -> Store.readCell h board r c = cellAt b r c.
Proof.
  intros H. unfold Store.readCell, cellAt, idx.
  destruct (0 <=? r); [|reflexivity].
  pose proof (snapshot_lookup h board b H (Z.to_nat r)) as Hn.
  destruct (board !! Z.to_nat r) as [l|].
  - destruct Hn as (row & -> & ->). reflexivity.
  - now rewrite Hn.
Qed.

Lemma rowAt_insert_ne (h : list object) (l l' : nat) (o : object) :
  l <> l' -> Store.rowAt (<[l := o]> h) l' = Store.rowAt h l'.
Proof. intros Hne. unfold Store.rowAt. now rewrite list_lookup_insert_ne. Qed.

Lemma snapshot_insert_fresh (h : list object) (board : list nat) (l : nat)
    (o : object) :
  ~ In l board ->
  Store.snapshot (<[l := o]> h) board = Store.snapshot h board.
Proof.
  induction board as [|l' ls IH]; simpl; intros Hnot; [reflexivity|].
  rewrite rowAt_insert_ne by (intros ->; apply Hnot; now left).
  rewrite IH by (intros Hin; apply Hnot; now right). reflexivity.
Qed.

(** Replacing the row object of one row of a board whose rows are distinct
    objects replaces that row of the board value. *)
Lemma snapshot_insert_row (h : list object) (board : list nat) (b : Board)
    (n l : nat) (row' : list string) :
  Store.snapshot h board = Ok b -> List.NoDup board ->
  board !! n = Some l -> (l < length h)%nat ->
  Store.snapshot (<[l := Cells row']> h) board = Ok (<[n := row']> b).
Proof.
  revert b n. induction board as [|l0 ls IH]; simpl; intros b n H Hnd Hn Hl;
    [discriminate|].
  splitBind H as row Hrow. splitBind H as rows Hrows. inversion H; subst.
  apply List.NoDup_cons_iff in Hnd as [Hnot Hnd].
  destruct n as [|n]; simpl in *.
  - inversion Hn; subst l0. unfold Store.rowAt at 1.
    rewrite list_lookup_insert_eq by assumption. simpl.
    rewrite snapshot_insert_fresh by assumption. now rewrite Hrows.
  - assert (Hne : l <> l0).
    { intros ->. apply Hnot. apply list_elem_of_In, list_elem_of_lookup. eauto. }
    rewrite rowAt_insert_ne by assumption. rewrite Hrow. simpl.
    now rewrite (IH rows n Hrows Hnd Hn Hl).
Qed.

(** A write through a reference is the write of the value model on the
    board the reference denotes. *)
Lemma writeCell_snapshot (h : list object) (board : list nat) (b b' : Board)
    (r c : Z) (v : string) :
  Store.snapshot h board = Ok b -> List.NoDup board ->
  setCell b r c v = Ok b' ->
  exists h', Store.writeCell h board r c v = Ok h' /\
             Store.snapshot h' board = Ok b' /\
             length h' = length h.
Proof.
  intros Hs Hnd Hset. apply setCell_Ok in Hset as (row & old & Hr & Hc & ->).
  apply idx_Some in Hr as [Hr0 Hr].
  pose proof (snapshot_lookup h board b Hs (Z.to_nat r)) as Hn.
  destruct (board !! Z.to_nat r) as [l|] eqn:El; [|congruence].
  destruct Hn as (row0 & Hrow0 & Hb). rewrite Hr in Hb. inversion Hb; subst row0.
  unfold Store.writeCell, idx. destruct (Z.leb_spec 0 r); [|lia].
  rewrite El, Hrow0. simpl. fold (idx row c). rewrite Hc.
  eexists. split; [reflexivity|]. split; [|apply length_insert].
  apply snapshot_insert_row; try assumption.
  unfold Store.rowAt in Hrow0. destruct (h !! l) eqn:E; [|discriminate].
  eapply lookup_lt_Some; eauto.
Qed.

Lemma rowAt_keeps (n l : nat) (h h' : list object) (row : list string) :
  Store.keeps n h h' -> (l < n)%nat ->
  Store.rowAt h l = Ok row -> Store.rowAt h' l = Ok row.
Proof. intros [_ K] Hl. unfold Store.rowAt. now rewrite (K l Hl). Qed.

Lemma rightsAt_keeps (n l : nat) (h h' : list object) (gs : GameState) :
  Store.keeps n h h' -> (l < n)%nat ->
  Store.rightsAt h l = Ok gs -> Store.rightsAt h' l = Ok gs.
Proof. intros [_ K] Hl. unfold Store.rightsAt. now rewrite (K l Hl). Qed.

Lemma rightsAt_bound (h : list object) (l : nat) (gs : GameState) :
  Store.rightsAt h l = Ok gs -> (l < length h)%nat.
Proof.
  unfold Store.rightsAt. destruct (h !! l) eqn:E; [|discriminate].
  intros _. eapply lookup_lt_Some; eauto.
Qed.

(** Copying a board yields distinct new row objects that denote the same
    board value. *)
Lemma copyBoard_snapshot (board : list nat) (h : list object) (b : Board) :
  Store.snapshot h board = Ok b ->
  exists h' newBoard,
    Store.copyBoard h board = Ok (h', newBoard) /\
    Store.snapshot h' newBoard = Ok b /\
    List.NoDup newBoard /\
    Forall (fun l => (length h <= l < length h')%nat) newBoard /\
    Store.keeps (length h) h h'.
Proof.
  revert h b. induction board as [|l ls IH]; simpl; intros h b H.
  - inversion H; subst. exists h, []. repeat split; try constructor; auto.
  - splitBind H as row Hrow. splitBind H as rows Hrows. inversion H; subst.
    rewrite Hrow. simpl.
    pose proof (keeps_alloc h (Cells row)) as Ka.
    assert (Hs1 : Store.snapshot (h ++ [Cells row]) ls = Ok rows).
    { eapply snapshot_keeps; eauto. eapply snapshot_bound; eauto. }
    destruct (IH _ _ Hs1) as (h' & nb & Hcopy & Hsnap & Hnd & F & K).
    rewrite Hcopy. simpl. exists h', (length h :: nb).
    rewrite length_app in F, K. simpl in F, K.
    split; [reflexivity|]. split; [|split; [|split]].
    + simpl. unfold Store.rowAt.
      rewrite (proj2 K (length h)) by lia.
      rewrite lookup_app_r by lia. rewrite Nat.sub_diag. simpl.
      now rewrite Hsnap.
    + constructor; [|assumption]. intros Hin.
      rewrite Forall_forall in F. apply list_elem_of_In in Hin.
      specialize (F _ Hin). lia.
    + constructor;
        [destruct K as [KL _]; rewrite length_app in KL; simpl in KL; lia|].
      eapply Forall_impl; [exact F|]. simpl. intros; lia.
    + eapply keeps_trans; [exact Ka|]. eapply keeps_le; [|exact K]. lia.
Qed.

Lemma keepSafe_sim (moves : list Square) (h : list object) (board : list nat)
    (b : Board) (row col : Z) (piece : string) (isWhite : bool)
    (l : list Square) :
  Store.snapshot h board = Ok b ->
  keepSafe b row col piece isWhite moves = Ok l ->
  exists h', Store.keepSafe h board row col piece isWhite moves = Ok (h', l).
Proof.
  unfold keepSafe. revert h l.
  induction moves as [|move rest IH]; simpl; intros h l Hs H.
  - inversion H; subst. eauto.
  - splitBind H as ys Hys. splitBind H as zs Hzs. inversion H; subst l.
    splitBind Hys as T HT. splitBind Hys as chk Hchk. inversion Hys; subst ys.
    unfold testMove in HT. splitBind HT as T1 HT1.
    destruct (copyBoard_snapshot board h b Hs)
      as (h0 & tb & Hcopy & Hsnap & Hnd & F & K0).
    rewrite Hcopy. simpl.
    destruct (writeCell_snapshot _ _ _ _ _ _ _ Hsnap Hnd HT1) as (h1 & Hw1 & Hs1 & L1).
    rewrite Hw1. simpl.
    destruct (writeCell_snapshot _ _ _ _ _ _ _ Hs1 Hnd HT) as (h2 & Hw2 & Hs2 & L2).
    rewrite Hw2. simpl. rewrite Hs2. simpl. rewrite Hchk. simpl.
    assert (F' : Forall (fun l => (length h <= l)%nat) tb)
      by (eapply Forall_impl; [exact F|]; simpl; intros; lia).
    assert (Hsb : Store.snapshot h2 board = Ok b).
    { eapply snapshot_keeps; [|eapply snapshot_bound; exact Hs|exact Hs].
      eapply keeps_trans; [exact K0|].
      eapply keeps_trans; eapply writeCell_keeps; eauto. }
    destruct (IH h2 zs Hsb Hzs) as (h' & Hrest). rewrite Hrest. simpl. eauto.
Qed.

Lemma getPossibleMoves_sim (h : list object) (board : list nat) (gameState : nat)
    (b : Board) (gs : GameState) (row col : Z) (l : list Square) :
  Store.snapshot h board = Ok b -> Store.rightsAt h gameState = Ok gs ->
  getPossibleMoves row col b gs = Ok l ->
  exists h', Store.getPossibleMoves row col h board gameState = Ok (h', l).
Proof.
  intros Hs Hgs. unfold getPossibleMoves, Store.getPossibleMoves.
  rewrite Hs. simpl. intros H. splitBind H as here Hhere. rewrite Hhere. simpl.
  destruct (asPiece here) as [piece|]; [|inversion H; subst; eauto].
  splitBind H as raw Hraw. splitBind H as castling Hcas.
  rewrite Hraw. simpl.
  assert (Hcas' : (if String.eqb (charAt piece 1) "K"
                   then gs0 <- Store.rightsAt h gameState ;;
                        castlingMoves b gs0 (String.eqb (charAt piece 0) "w")
                   else Ok []) = Ok castling).
  { destruct (String.eqb (charAt piece 1) "K"); [|assumption].
    rewrite Hgs. exact Hcas. }
  rewrite Hcas'. simpl. eapply keepSafe_sim; eauto.
Qed.

Lemma collectBlack_sim (sqs : list Square) (h : list object) (board : list nat)
    (gameState : nat) (b : Board) (gs : GameState) (cands : list Candidate) :
  Store.snapshot h board = Ok b -> Store.rightsAt h gameState = Ok gs ->
  forPush (candidateAt b gs) sqs = Ok cands ->
  exists h', Store.collectBlack h board gameState sqs = Ok (h', cands).
Proof.
  revert h cands. induction sqs as [|[row col] rest IH]; simpl;
    intros h cands Hs Hgs H.
  - inversion H; subst. eauto.
  - splitBind H as ys Hys. splitBind H as zs Hzs. inversion H; subst cands.
    rewrite (readCell_snapshot _ _ _ row col Hs).
    splitBind Hys as here Hhere. rewrite Hhere. simpl.
    destruct (asPiece here) as [piece|];
      [|inversion Hys; subst; simpl; eauto].
    destruct (String.eqb (charAt piece 0) "b");
      [|inversion Hys; subst; simpl; eauto].
    splitBind Hys as moves Hmoves. inversion Hys; subst ys.
    destruct (getPossibleMoves_sim _ _ _ _ _ _ _ _ Hs Hgs Hmoves) as (h0 & Hm0).
    rewrite Hm0. simpl.
    pose proof (getPossibleMoves_keeps _ _ _ _ _ _ _ Hm0) as K0.
    assert (Hs0 : Store.snapshot h0 board = Ok b)
      by (eapply snapshot_keeps; [exact K0|eapply snapshot_bound; exact Hs|exact Hs]).
    assert (Hgs0 : Store.rightsAt h0 gameState = Ok gs)
      by (eapply rightsAt_keeps; [exact K0|eapply rightsAt_bound; exact Hgs|exact Hgs]).
    destruct (IH h0 zs Hs0 Hgs0 Hzs) as (h' & Hrest). rewrite Hrest. simpl. eauto.
Qed.

Lemma writeCell_other (h h' : list object) (board : list nat) (r c : Z)
    (v : string) (l : nat) :
  Store.writeCell h board r c v = Ok h' -> ~ In l board -> h' !! l = h !! l.
Proof.
  unfold Store.writeCell. destruct (idx board r) as [l0|] eqn:E; [|discriminate].
  intros H Hnot. splitBind H as row Hrow. destruct (idx row c); [|discriminate].
  inversion H; subst. apply list_lookup_insert_ne.
  intros ->. apply Hnot. eapply idx_In; eauto.
Qed.

Lemma denotes_write (h : list object) (board : list nat) (l : nat)
    (b b' : Board) (gs : GameState) (r c : Z) (v : string) :
  Store.denotes h board l b gs -> setCell b r c v = Ok b' ->
  exists h', Store.writeCell h board r c v = Ok h' /\
             Store.denotes h' board l b' gs.
Proof.
  intros (Hs & Hgs & Hnd & Hnot) Hset.
  destruct (writeCell_snapshot _ _ _ _ _ _ _ Hs Hnd Hset) as (h' & Hw & Hs' & _).
  exists h'. split; [assumption|]. repeat split; try assumption.
  unfold Store.rightsAt in *. now rewrite (writeCell_other _ _ _ _ _ _ l Hw Hnot).
Qed.

Lemma denotes_modify (h : list object) (board : list nat) (l : nat)
    (b : Board) (gs : GameState) (f : GameState -> GameState) :
  Store.denotes h board l b gs ->
  exists h', Store.modifyRights h l f = Ok h' /\
             Store.denotes h' board l b (f gs).
Proof.
  intros (Hs & Hgs & Hnd & Hnot). unfold Store.modifyRights. rewrite Hgs. simpl.
  eexists. split; [reflexivity|]. repeat split; try assumption.
  - now rewrite snapshot_insert_fresh.
  - unfold Store.rightsAt.
    rewrite list_lookup_insert_eq by (eapply rightsAt_bound; eauto). reflexivity.
Qed.

Lemma denotes_read (h : list object) (board : list nat) (l : nat)
    (b : Board) (gs : GameState) (r c : Z) :
  Store.denotes h board l b gs -> Store.readCell h board r c = cellAt b r c.
Proof. intros (Hs & _). now apply readCell_snapshot. Qed.

Lemma denotes_relocate (h : list object) (board : list nat) (l : nat)
    (b b' : Board) (gs : GameState) (r c1 c2 : Z) :
  Store.denotes h board l b gs -> relocateRook b r c1 c2 = Ok b' ->
  exists h', Store.relocateRook h board r c1 c2 = Ok h' /\
             Store.denotes h' board l b' gs.
Proof.
  intros Hd. unfold relocateRook, Store.relocateRook.
  rewrite (denotes_read _ _ _ _ _ r c1 Hd). intros H.
  splitBind H as rook Hrook. rewrite Hrook. simpl.
  destruct rook as [s|]; [|discriminate]. splitBind H as b1 Hb1.
  destruct (denotes_write _ _ _ _ _ _ _ _ _ Hd Hb1) as (h1 & Hw1 & Hd1).
  rewrite Hw1. simpl. exact (denotes_write _ _ _ _ _ _ _ _ _ Hd1 H).
Qed.

Lemma denotes_promote (h : list object) (board : list nat) (l : nat)
    (b b' : Board) (gs : GameState) (row col : Z) (newPiece : string) :
  Store.denotes h board l b gs -> promotePawn row col b newPiece = Ok b' ->
  exists h', Store.promotePawn row col h board newPiece = Ok h' /\
             Store.denotes h' board l b' gs.
Proof.
  intros Hd. unfold promotePawn, Store.promotePawn.
  rewrite (denotes_read _ _ _ _ _ row col Hd). intros H.
  splitBind H as here Hhere. rewrite Hhere. simpl.
  destruct (asPiece here) as [piece|]; [|inversion H; subst; eauto].
  destruct (String.eqb (charAt piece 1) "P"); [|inversion H; subst; eauto].
  exact (denotes_write _ _ _ _ _ _ _ _ _ Hd H).
Qed.

Lemma canPromotePawn_sim (h : list object) (board : list nat) (l : nat)
    (b : Board) (gs : GameState) (row col : Z) :
  Store.denotes h board l b gs ->
  Store.canPromotePawn row col h board = canPromotePawn row col b.
Proof.
  intros Hd. unfold canPromotePawn, Store.canPromotePawn.
  now rewrite (denotes_read _ _ _ _ _ row col Hd).
Qed.

(** [updateGameState] on references does to the board and to the new rights
    record what the value model computes. *)
Lemma updateGameState_sim (h : list object) (board : list nat) (gameState : nat)
    (b b' : Board) (gs gs' : GameState) (fromRow fromCol toRow toCol : Z) :
  Store.snapshot h board = Ok b -> List.NoDup board ->
  Store.rightsAt h gameState = Ok gs ->
  updateGameState fromRow fromCol toRow toCol b gs = Ok (b', gs') ->
  exists h' l,
    Store.updateGameState fromRow fromCol toRow toCol h board gameState
      = Ok (h', l) /\
    Store.denotes h' board l b' gs'.
Proof.
  intros Hs Hnd Hgs H. unfold Store.updateGameState, Store.copyRights.
  rewrite Hgs. cbn [bind fst snd].
  assert (Hd0 : Store.denotes (h ++ [Rights gs]) board (length h) b gs).
  { pose proof (snapshot_bound _ _ _ Hs) as Hb.
    repeat split; try assumption.
    - eapply snapshot_keeps; [apply keeps_alloc|exact Hb|exact Hs].
    - unfold Store.rightsAt. rewrite lookup_app_r by lia.
      now rewrite Nat.sub_diag.
    - intros Hin. rewrite Forall_forall in Hb.
      apply list_elem_of_In in Hin. specialize (Hb _ Hin). lia. }
  rewrite (denotes_read _ _ _ _ _ fromRow fromCol Hd0).
  unfold updateGameState in H.
  splitBind H as piece Hpiece. rewrite Hpiece. cbn [bind].
  splitBind H as kingStep Hking. splitBind H as target Htarget.
  inversion H; subst b' gs'. clear H.
  assert (Hstep : exists h1,
    (if isStr piece "wK" then
       h' <- Store.modifyRights (h ++ [Rights gs]) (length h) clearWhite ;;
       if (fromRow =? 7) && (fromCol =? 4) then
         if toCol =? 6 then Store.relocateRook h' board 7 7 5
         else if toCol =? 2 then Store.relocateRook h' board 7 0 3
         else Ok h'
       else Ok h'
     else if isStr piece "bK" then
       h' <- Store.modifyRights (h ++ [Rights gs]) (length h) clearBlack ;;
       if (fromRow =? 0) && (fromCol =? 4) then
         if toCol =? 6 then Store.relocateRook h' board 0 7 5
         else if toCol =? 2 then Store.relocateRook h' board 0 0 3
         else Ok h'
       else Ok h'
     else Ok (h ++ [Rights gs])) = Ok h1 /\
    Store.denotes h1 board (length h) (fst kingStep) (snd kingStep)).
  { destruct (isStr piece "wK"); [|destruct (isStr piece "bK")].
    - splitBind Hking as b1 Hb1. inversion Hking; subst kingStep. cbn [fst snd].
      destruct (denotes_modify _ _ _ _ _ clearWhite Hd0) as (h0 & -> & Hd1).
      cbn [bind].
      destruct ((fromRow =? 7) && (fromCol =? 4));
        [destruct (toCol =? 6); [|destruct (toCol =? 2)]|];
        try (eapply denotes_relocate; eauto; fail);
        inversion Hb1; subst; eauto.
    - splitBind Hking as b1 Hb1. inversion Hking; subst kingStep. cbn [fst snd].
      destruct (denotes_modify _ _ _ _ _ clearBlack Hd0) as (h0 & -> & Hd1).
      cbn [bind].
      destruct ((fromRow =? 0) && (fromCol =? 4));
        [destruct (toCol =? 6); [|destruct (toCol =? 2)]|];
        try (eapply denotes_relocate; eauto; fail);
        inversion Hb1; subst; eauto.
    - inversion Hking; subst kingStep. eauto. }
  destruct Hstep as (h1 & -> & Hd1). cbn [bind].
  destruct (denotes_modify _ _ _ _ _ (rookRights piece fromRow fromCol) Hd1)
    as (h2 & -> & Hd2). cbn [bind].
  rewrite (denotes_read _ _ _ _ _ toRow toCol Hd2). rewrite Htarget. cbn [bind].
  destruct (denotes_modify _ _ _ _ _ (rookRights target toRow toCol) Hd2)
    as (h3 & -> & Hd3). cbn [bind].
  eauto.
Qed.

(** The board and the rights record returned by [makeComputerMove] on
    references denote what [makeComputerMove] on values returns. *)
Lemma makeComputerMove_sim (h : list object) (board : list nat) (gameState : nat)
    (b b' : Board) (gs gs' : GameState) (u1 u2 : Q) :
  Store.snapshot h board = Ok b -> Store.rightsAt h gameState = Ok gs ->
  makeComputerMove b gs u1 u2 = Ok (b', gs') ->
  exists h' newBoard newGameState,
    Store.makeComputerMove h board gameState u1 u2
      = Ok (h', (newBoard, newGameState)) /\
    Store.snapshot h' newBoard = Ok b' /\
    Store.rightsAt h' newGameState = Ok gs'.
Proof.
  intros Hs Hgs H. unfold Store.makeComputerMove.
  destruct (copyBoard_snapshot board h b Hs)
    as (h0 & nb & Hcopy & Hsnap0 & Hnd & F & K0).
  rewrite Hcopy. cbn [bind fst snd].
  pose proof (snapshot_bound _ _ _ Hs) as Hbound.
  pose proof (rightsAt_bound _ _ _ Hgs) as Hgbound.
  assert (Hgs0 : Store.rightsAt h0 gameState = Ok gs)
    by (eapply rightsAt_keeps; eauto).
  unfold Store.copyRights. rewrite Hgs0. cbn [bind fst snd].
  pose proof (keeps_alloc h0 (Rights gs)) as K1.
  assert (L01 : (length h <= length h0)%nat) by (destruct K0; assumption).
  assert (L1 : length (h0 ++ [Rights gs]) = S (length h0))
    by (rewrite length_app; simpl; lia).
  assert (Hs1 : Store.snapshot (h0 ++ [Rights gs]) board = Ok b).
  { eapply snapshot_keeps; [|exact Hbound|exact Hs].
    eapply keeps_trans; [exact K0|]. eapply keeps_le; [|exact K1]. lia. }
  assert (Hgs1 : Store.rightsAt (h0 ++ [Rights gs]) gameState = Ok gs).
  { eapply rightsAt_keeps; [exact K1| |exact Hgs0]. lia. }
  unfold makeComputerMove in H. splitBind H as cands Hcands.
  unfold collectBlack in Hcands.
  destruct (collectBlack_sim _ _ _ _ _ _ _ Hs1 Hgs1 Hcands) as (h2 & Hcb).
  rewrite Hcb. cbn [bind fst snd].
  pose proof (collectBlack_keeps _ _ _ _ _ _ Hcb) as K2. rewrite L1 in K2.
  assert (Fnb : Forall (fun l => (l < length h0)%nat) nb)
    by (eapply Forall_impl; [exact F|]; simpl; intros; lia).
  assert (Hd2 : Store.denotes h2 nb (length h0) b gs).
  { repeat split.
    - eapply snapshot_keeps; [|exact Fnb|exact Hsnap0].
      eapply keeps_trans; [exact K1|]. eapply keeps_le; [|exact K2]. lia.
    - eapply rightsAt_keeps; [exact K2|lia|].
      unfold Store.rightsAt. rewrite lookup_app_r by lia.
      now rewrite Nat.sub_diag.
    - exact Hnd.
    - intros Hin. rewrite Forall_forall in Fnb.
      apply list_elem_of_In in Hin. specialize (Fnb _ Hin). lia. }
  destruct cands as [|cand cands].
  - inversion H; subst b' gs'. destruct Hd2 as (Hs2 & Hg2 & _). eauto 6.
  - destruct (idx (cand :: cands) (randomIndex u1 (length (cand :: cands))))
      as [sel|]; [|discriminate].
    destruct (idx (cMoves sel) (randomIndex u2 (length (cMoves sel))))
      as [target|]; [|discriminate].
    splitBind H as st Hst. destruct st as [b1 gs1]. cbn [fst snd] in H.
    splitBind H as b2 Hb2. splitBind H as b3 Hb3.
    splitBind H as promote Hpromote. splitBind H as b4 Hb4.
    inversion H; subst b' gs'. clear H.
    destruct Hd2 as (Hs2 & Hg2 & _ & _).
    destruct (updateGameState_sim _ _ _ _ _ _ _ _ _ _ _ Hs2 Hnd Hg2 Hst)
      as (h3 & l3 & -> & Hd3). cbn [bind fst snd].
    destruct (denotes_write _ _ _ _ _ _ _ _ _ Hd3 Hb2) as (h4 & -> & Hd4).
    cbn [bind].
    destruct (denotes_write _ _ _ _ _ _ _ _ _ Hd4 Hb3) as (h5 & -> & Hd5).
    cbn [bind].
    rewrite (canPromotePawn_sim _ _ _ _ _ (fst target) (snd target) Hd5).
    rewrite Hpromote. cbn [bind].
    assert (Hlast : exists h6,
      (if promote
       then Store.promotePawn (fst target) (snd target) h5 nb "Q"
       else Ok h5) = Ok h6 /\ Store.denotes h6 nb l3 b4 gs1).
    { destruct promote; [eapply denotes_promote; eauto|].
      inversion Hb4; subst. eauto. }
    destruct Hlast as (h6 & -> & (Hs6 & Hg6 & _)). cbn [bind]. eauto 6.
Qed.

(** C10: [makeComputerMove] leaves every object of the store it was called
    in as it was: the rows of the argument board denote the same board after
    the call and the argument rights record has the same fields.  The board
    and the record it returns are made of locations allocated by the call,
    and they hold the chosen move, with its rook relocation and promotion,
    as the value model computes it. *)
Theorem makeComputerMove_frame (h h' : list object) (board newBoard : list nat)
    (gameState newGameState : nat) (u1 u2 : Q) :
  Store.makeComputerMove h board gameState u1 u2
    = Ok (h', (newBoard, newGameState)) ->
  (forall l, (l < length h)%nat -> h' !! l = h !! l) /\
  (forall b, Store.snapshot h board = Ok b -> Store.snapshot h' board = Ok b) /\
  (forall gs, Store.rightsAt h gameState = Ok gs ->
              Store.rightsAt h' gameState = Ok gs) /\
  Forall (fun l => (length h <= l)%nat) newBoard /\
  (length h <= newGameState)%nat /\
  (forall b gs b' gs',
      Store.snapshot h board = Ok b -> Store.rightsAt h gameState = Ok gs ->
      makeComputerMove b gs u1 u2 = Ok (b', gs') ->
      Store.snapshot h' newBoard = Ok b' /\
      Store.rightsAt h' newGameState = Ok gs').
Proof.
  intros H. destruct (makeComputerMove_keeps _ _ _ _ _ _ _ _ H) as (K & F & L).
  split; [exact (proj2 K)|].
  split; [|split; [|split; [assumption|split; [assumption|]]]].
  - intros b Hb. eapply snapshot_keeps; eauto. eapply snapshot_bound; eauto.
  - intros gs Hgs. eapply rightsAt_keeps; eauto. eapply rightsAt_bound; eauto.
  - intros b gs b' gs' Hb Hgs Hval.
    destruct (makeComputerMove_sim _ _ _ _ _ _ _ _ _ Hb Hgs Hval)
      as (h'' & nb & ngs & Hrun & Hs' & Hg').
    rewrite H in Hrun. inversion Hrun; subst. auto.
Qed.

(** ** Where the move generators return *)

Lemma forPush_total {A B : Type} (f : A -> result (list B)) (xs : list A) :
  (forall x, In x xs -> exists ys, f x = Ok ys) ->
  exists l, forPush f xs = Ok l.
Proof.
  induction xs as [|x xs IH]; simpl; intros H; [eauto|].
  destruct (H x (or_introl eq_refl)) as [ys ->]. simpl.
  destruct IH as [zs ->]; [intros; apply H; now right|]. simpl. eauto.
Qed.

Lemma anyM_total {A : Type} (f : A -> result bool) (xs : list A) :
  (forall x, In x xs -> exists v, f x = Ok v) ->
  exists v, anyM f xs = Ok v.
Proof.
  induction xs as [|x xs IH]; simpl; intros H; [eauto|].
  destruct (H x (or_introl eq_refl)) as [v ->]. simpl.
  destruct v; [eauto|]. apply IH. intros; apply H; now right.
Qed.

Lemma direction_cases (d : Z * Z) :
  In d rookDirections \/ In d bishopDirections ->
  (fst d = 1 \/ fst d = -1 \/ (fst d = 0 /\ (snd d = 1 \/ snd d = -1))).
Proof.
  unfold rookDirections, bishopDirections. simpl.
  intuition (subst; simpl; auto).
Qed.

(** The eight iterations given to a slide are enough: on a grid the loop
    leaves the board before the bound is reached. *)
Lemma slide_total (board : Board) (piece : string) (dr dc : Z) (fuel : nat) :
  grid board ->
  (dr = 1 \/ dr = -1 \/ (dr = 0 /\ (dc = 1 \/ dc = -1))) ->
  forall r c, slideRoom r c dr dc <= Z.of_nat fuel ->
  exists l, slide fuel board piece r c dr dc = Ok l.
Proof.
  intros Hg Hd. induction fuel as [|fuel IH]; intros r c Hroom; simpl;
    destruct (onBoard r c) eqn:Hon; eauto.
  - exfalso. apply onBoard_spec in Hon. unfold slideRoom in Hroom.
    destruct (Z.eqb_spec dr 1); [lia|]. destruct (Z.eqb_spec dr (-1)); [lia|].
    destruct (Z.eqb_spec dc 1); lia.
  - destruct (grid_cellAt board r c Hg Hon) as [s ->]. simpl.
    destruct (String.eqb s "").
    + destruct (IH (r + dr) (c + dc)) as [l ->]; [|simpl; eauto].
      apply onBoard_spec in Hon. unfold slideRoom in *.
      destruct (Z.eqb_spec dr 1); [lia|]. destruct (Z.eqb_spec dr (-1)); [lia|].
      destruct (Z.eqb_spec dc 1); lia.
    + destruct (String.eqb _ _); eauto.
Qed.

Lemma slides_total (board : Board) (piece : string) (row col : Z)
    (directions : list (Z * Z)) :
  grid board ->
  (forall d, In d directions -> In d rookDirections \/ In d bishopDirections) ->
  exists l, slides board piece row col directions = Ok l.
Proof.
  intros Hg Hd. unfold slides. apply forPush_total. intros d Hin.
  destruct (onBoard (row + fst d) (col + snd d)) eqn:Hon.
  - apply slide_total; [assumption|apply direction_cases; auto|].
    apply onBoard_spec in Hon. unfold slideRoom.
    destruct (Z.eqb_spec (fst d) 1); [simpl; lia|].
    destruct (Z.eqb_spec (fst d) (-1)); [simpl; lia|].
    destruct (Z.eqb_spec (snd d) 1); simpl; lia.
  - rewrite slide_off_board by assumption. eauto.
Qed.

Lemma steps_total (board : Board) (piece : string) (row col : Z)
    (offsets : list (Z * Z)) :
  grid board -> exists l, steps board piece row col offsets = Ok l.
Proof.
  intros Hg. unfold steps. apply forPush_total. intros o _. cbv zeta.
  destruct (onBoard (row + fst o) (col + snd o)) eqn:Hon; [|eauto].
  destruct (grid_cellAt board _ _ Hg Hon) as [s ->]. simpl.
  destruct (String.eqb s ""); [eauto|]. destruct (String.eqb _ _); eauto.
Qed.

Lemma pawnCaptures_total (board : Board) (row col : Z) (piece : string)
    (isWhite : bool) :
  grid board -> inRange (row + (if isWhite then -1 else 1)) = true ->
  exists l, pawnCaptures board row col piece isWhite = Ok l.
Proof.
  intros Hg Hr. unfold pawnCaptures. apply forPush_total. intros offset _.
  destruct (inRange (col + offset)) eqn:Hc; [|eauto].
  destruct (grid_cellAt board (row + (if isWhite then -1 else 1)) (col + offset) Hg)
    as [s ->]; [unfold onBoard; now rewrite Hr, Hc|]. simpl.
  destruct (String.eqb s ""); [eauto|]. destruct (String.eqb _ _); eauto.
Qed.

(** On a grid [getRawPossibleMoves] returns for every on-board square that
    does not hold a pawn on its far rank. *)
Lemma getRawPossibleMoves_total (board : Board) (row col : Z) :
  grid board -> onBoard row col = true ->
  (forall w, ~ farRankPawnAt board w row col) ->
  exists l, getRawPossibleMoves row col board = Ok l.
Proof.
  intros Hg Hon Hfar. unfold getRawPossibleMoves.
  destruct (grid_cellAt board row col Hg Hon) as [s Hs]. rewrite Hs. simpl.
  destruct (String.eqb_spec s "") as [|Hne]; [eauto|].
  pose proof Hon as Hon'. apply andb_true_iff in Hon' as [Hrow Hcol].
  assert (Hpawn : exists l0,
    (if String.eqb (charAt s 1) "P" then
       fwd <- pawnForward board row col (String.eqb (charAt s 0) "w") ;;
       caps <- pawnCaptures board row col s (String.eqb (charAt s 0) "w") ;;
       Ok (fwd ++ caps)
     else Ok []) = Ok l0).
  { destruct (String.eqb_spec (charAt s 1) "P") as [HP|]; [|eauto].
    destruct (pawnForward_total board row col (String.eqb (charAt s 0) "w") Hg Hcol)
      as [fwd ->]. simpl.
    destruct (pawnCaptures_total board row col s (String.eqb (charAt s 0) "w") Hg)
      as [caps ->]; [|simpl; eauto].
    apply inRange_spec in Hrow. apply inRange_spec.
    destruct (String.eqb (charAt s 0) "w") eqn:Ew.
    - destruct (Z.eq_dec row 0) as [E0|]; [|lia].
      exfalso. apply (Hfar true). exists s. auto.
    - destruct (Z.eq_dec row 7) as [E7|]; [|lia].
      exfalso. apply (Hfar false). exists s. auto. }
  destruct Hpawn as [l0 ->]. simpl.
  destruct (slides_total board s row col rookDirections Hg) as [l1 H1]; [auto|].
  destruct (steps_total board s row col knightOffsets Hg) as [l2 H2].
  destruct (slides_total board s row col bishopDirections Hg) as [l3 H3]; [auto|].
  destruct (steps_total board s row col kingOffsets Hg) as [l4 H4].
  rewrite H1, H2, H3, H4.
  destruct (_ || _); destruct (String.eqb (charAt s 1) "N");
    destruct (_ || _); destruct (String.eqb (charAt s 1) "K"); simpl; eauto.
Qed.

Lemma isSquareUnderAttack_total (board : Board) (row col : Z) (byWhite : bool) :
  grid board -> noFarRankPawn board byWhite ->
  exists v, isSquareUnderAttack row col board byWhite = Ok v.
Proof.
  intros Hg Hfar. unfold isSquareUnderAttack. apply anyM_total.
  intros [r c] Hin. apply squares_spec in Hin.
  destruct (grid_cellAt board r c Hg Hin) as [s Hs]. rewrite Hs. simpl.
  destruct (String.eqb_spec s "") as [|Hne]; [eauto|].
  destruct (Bool.eqb_spec (String.eqb (charAt s 0) "w") byWhite) as [Ew|];
    [|eauto].
  destruct (getRawPossibleMoves_total board r c Hg Hin) as [l ->];
    [|simpl; eauto].
  intros w (s' & Hs' & Hne' & Ew' & HP & Hr).
  rewrite Hs in Hs'. inversion Hs'; subst s'.
  apply (Hfar r c). exists s. rewrite <- Ew, Ew'. auto.
Qed.

Lemma findKing_total (board : Board) (isWhite : bool) :
  grid board -> exists k, findKing board isWhite = Ok k.
Proof.
  intros Hg. unfold findKing.
  assert (Hall : forall sqs, (forall r c, In (r, c) sqs -> onBoard r c = true) ->
            exists k, firstAt board (if isWhite then "wK" else "bK") sqs = Ok k).
  { induction sqs as [|[r0 c0] sqs IH]; simpl; intros Hon; [eauto|].
    destruct (grid_cellAt board r0 c0 Hg) as [s ->]; [apply Hon; now left|].
    simpl. destruct (String.eqb s _); [eauto|].
    apply IH. intros; apply Hon; now right. }
  apply Hall. intros r c Hin. now apply squares_spec.
Qed.

Lemma isKingInCheck_total (board : Board) (isWhite : bool) :
  grid board -> noFarRankPawn board (negb isWhite) ->
  exists v, isKingInCheck board isWhite = Ok v.
Proof.
  intros Hg Hfar. unfold isKingInCheck.
  destruct (findKing_total board isWhite Hg) as [[[r c]|] ->]; simpl; [|eauto].
  now apply isSquareUnderAttack_total.
Qed.

Lemma andThen_total (a k : result bool) :
  (exists v, a = Ok v) -> (exists v, k = Ok v) -> exists v, (a &&> k) = Ok v.
Proof. intros [va ->] [vk ->]. unfold andThen. simpl. destruct va; eauto. Qed.

Lemma notM_total (e : result bool) :
  (exists v, e = Ok v) -> exists v, notM e = Ok v.
Proof. intros [v ->]. unfold notM. simpl. eauto. Qed.

Lemma isEmptyAt_total (board : Board) (r c : Z) :
  grid board -> onBoard r c = true -> exists v, isEmptyAt board r c = Ok v.
Proof.
  intros Hg Hon. unfold isEmptyAt.
  destruct (grid_cellAt board r c Hg Hon) as [s ->]. simpl. eauto.
Qed.

Lemma isAt_total (board : Board) (r c : Z) (s : string) :
  grid board -> onBoard r c = true -> exists v, isAt board r c s = Ok v.
Proof.
  intros Hg Hon. unfold isAt.
  destruct (grid_cellAt board r c Hg Hon) as [s' ->]. simpl. eauto.
Qed.

Lemma castlingMoves_total (board : Board) (gs : GameState) (isWhite : bool) :
  grid board -> noFarRankPawn board (negb isWhite) ->
  exists l, castlingMoves board gs isWhite = Ok l.
Proof.
  intros Hg Hfar. unfold castlingMoves.
  assert (Hchain : forall (right : bool) e1 e2 e3 e4 e5 e6,
            (exists v, e1 = Ok v) -> (exists v, e2 = Ok v) ->
            (exists v, e3 = Ok v) -> (exists v, e4 = Ok v) ->
            (exists v, e5 = Ok v) -> (exists v, e6 = Ok v) ->
            exists v, (Ok right &&> e1 &&> e2 &&> e3 &&> e4 &&> e5 &&> e6) = Ok v).
  { intros. repeat apply andThen_total; eauto. }
  destruct isWhite; simpl in Hfar.
  - destruct (Hchain (canWhiteCastleKingside gs)
                (isEmptyAt board 7 5) (isEmptyAt board 7 6) (isAt board 7 7 "wR")
                (notM (isKingInCheck board true))
                (notM (isSquareUnderAttack 7 5 board false))
                (notM (isSquareUnderAttack 7 6 board false))) as [ks ->];
      try (apply isEmptyAt_total; auto); try (apply isAt_total; auto);
      try (apply notM_total; apply isKingInCheck_total; auto);
      try (apply notM_total; apply isSquareUnderAttack_total; auto).
    cbn [bind].
    assert (Hq : exists v,
      (Ok (canWhiteCastleQueenside gs) &&>
       isEmptyAt board 7 1 &&> isEmptyAt board 7 2 &&> isEmptyAt board 7 3 &&>
       isAt board 7 0 "wR" &&> notM (isKingInCheck board true) &&>
       notM (isSquareUnderAttack 7 2 board false) &&>
       notM (isSquareUnderAttack 7 3 board false)) = Ok v).
    { repeat apply andThen_total; eauto;
        try (apply isEmptyAt_total; auto); try (apply isAt_total; auto);
        try (apply notM_total; apply isKingInCheck_total; auto);
        try (apply notM_total; apply isSquareUnderAttack_total; auto). }
    destruct Hq as [qs ->]. cbn [bind]. eauto.
  - destruct (Hchain (canBlackCastleKingside gs)
                (isEmptyAt board 0 5) (isEmptyAt board 0 6) (isAt board 0 7 "bR")
                (notM (isKingInCheck board false))
                (notM (isSquareUnderAttack 0 5 board true))
                (notM (isSquareUnderAttack 0 6 board true))) as [ks ->];
      try (apply isEmptyAt_total; auto); try (apply isAt_total; auto);
      try (apply notM_total; apply isKingInCheck_total; auto);
      try (apply notM_total; apply isSquareUnderAttack_total; auto).
    cbn [bind].
    assert (Hq : exists v,
      (Ok (canBlackCastleQueenside gs) &&>
       isEmptyAt board 0 1 &&> isEmptyAt board 0 2 &&> isEmptyAt board 0 3 &&>
       isAt board 0 0 "bR" &&> notM (isKingInCheck board false) &&>
       notM (isSquareUnderAttack 0 2 board true) &&>
       notM (isSquareUnderAttack 0 3 board true)) = Ok v).
    { repeat apply andThen_total; eauto;
        try (apply isEmptyAt_total; auto); try (apply isAt_total; auto);
        try (apply notM_total; apply isKingInCheck_total; auto);
        try (apply notM_total; apply isSquareUnderAttack_total; auto). }
    destruct Hq as [qs ->]. cbn [bind]. eauto.
Qed.

Lemma testMove_cells (board T : Board) (row col : Z) (piece : string)
    (m : Square) (r c : Z) :
  testMove board row col piece m = Ok T ->
  cellAt T r c =
  if (r =? row) && (c =? col) then Ok (Some "")
  else if (r =? fst m) && (c =? snd m) then Ok (Some piece)
  else cellAt board r c.
Proof.
  unfold testMove. intros H. splitBind H as T1 HT1.
  rewrite (cellAt_setCell _ _ _ _ _ r c H).
  now rewrite (cellAt_setCell _ _ _ _ _ r c HT1).
Qed.

(** The simulated move puts no pawn of the other color on its far rank. *)
Lemma testMove_noFarRankPawn (board T : Board) (row col : Z) (piece : string)
    (m : Square) :
  testMove board row col piece m = Ok T ->
  noFarRankPawn board (negb (String.eqb (charAt piece 0) "w")) ->
  noFarRankPawn T (negb (String.eqb (charAt piece 0) "w")).
Proof.
  intros HT Hfar r c (s & Hs & Hne & Ew & HP & Hr).
  rewrite (testMove_cells _ _ _ _ _ _ r c HT) in Hs.
  destruct ((r =? row) && (c =? col)); [inversion Hs; subst; contradiction|].
  destruct ((r =? fst m) && (c =? snd m)).
  - inversion Hs; subst s. now destruct (String.eqb (charAt piece 0) "w").
  - apply (Hfar r c). exists s. auto.
Qed.

Lemma keepSafe_total (board : Board) (row col : Z) (piece : string)
    (moves : list Square) :
  grid board -> onBoard row col = true -> allOnBoard moves ->
  noFarRankPawn board (negb (String.eqb (charAt piece 0) "w")) ->
  exists l, keepSafe board row col piece (String.eqb (charAt piece 0) "w") moves
            = Ok l.
Proof.
  intros Hg Hon Hmoves Hfar. unfold keepSafe. apply forPush_total.
  intros m Hm.
  destruct (setCell_grid board (fst m) (snd m) piece Hg (Hmoves m Hm))
    as (T1 & HT1 & Hg1).
  destruct (setCell_grid T1 row col "" Hg1 Hon) as (T & HT2 & HgT).
  assert (HT : testMove board row col piece m = Ok T)
    by (unfold testMove; rewrite HT1; exact HT2).
  rewrite HT. simpl.
  destruct (isKingInCheck_total T (String.eqb (charAt piece 0) "w") HgT)
    as [chk ->]; [|simpl; eauto].
  eapply testMove_noFarRankPawn; eauto.
Qed.

(** On a grid on which no pawn stands on its far rank, both move generators
    return for every on-board square: the eight iterations given to each
    slide suffice and no array access goes wrong. *)
Lemma move_generators_total (board : Board) (gs : GameState) (row col : Z) :
  grid board -> noFarRankPawn board true -> noFarRankPawn board false ->
  onBoard row col = true ->
  (exists l, getRawPossibleMoves row col board = Ok l) /\
  (exists l, getPossibleMoves row col board gs = Ok l).
Proof.
  intros Hg Hw Hb Hon.
  assert (Hfar : forall w, noFarRankPawn board w) by (intros []; assumption).
  destruct (getRawPossibleMoves_total board row col Hg Hon) as [raw Hraw];
    [intros w; apply Hfar|].
  split; [eauto|]. unfold getPossibleMoves.
  destruct (grid_cellAt board row col Hg Hon) as [s Hs]. rewrite Hs. simpl.
  destruct (String.eqb_spec s "") as [|Hne]; [eauto|].
  rewrite Hraw. simpl.
  assert (Hcas : exists castling,
    (if String.eqb (charAt s 1) "K"
     then castlingMoves board gs (String.eqb (charAt s 0) "w")
     else Ok []) = Ok castling /\ allOnBoard castling).
  { destruct (String.eqb (charAt s 1) "K"); [|exists []; split; auto using allOnBoard_nil].
    destruct (castlingMoves_total board gs (String.eqb (charAt s 0) "w") Hg)
      as [castling Hc]; [apply Hfar|].
    exists castling. split; [assumption|]. intros m Hm.
    destruct (castlingMoves_In _ _ _ _ _ Hc Hm) as [Hr Hcol].
    apply onBoard_spec. destruct (String.eqb (charAt s 0) "w"); lia. }
  destruct Hcas as (castling & -> & Hcon). simpl.
  apply keepSafe_total; try assumption; [|apply Hfar].
  apply allOnBoard_app; [|assumption].
  eapply getRawPossibleMoves_onBoard; eauto.
Qed.

(** * The theorems at concrete positions *)

Lemma initialBoard_grid : grid initialBoard.
Proof. split; [reflexivity|repeat constructor]. Qed.

Lemma castleReady_grid : grid castleReady.
Proof. split; [reflexivity|repeat constructor]. Qed.

Lemma loneMove_grid : grid loneMove.
Proof. split; [reflexivity|repeat constructor]. Qed.

Lemma farRankBoard_grid : grid farRankBoard.
Proof. split; [reflexivity|repeat constructor]. Qed.

(** White castles kingside on [castleReady]; the king is safe afterwards. *)
Lemma legal_move_keeps_king_safe_castling :
  exists board' gs',
    applyMove (7, 4) (7, 6) "wK" castleReady initialGameState = Ok (board', gs') /\
    isKingInCheck board' true = Ok false.
Proof.
  apply (legal_move_keeps_king_safe castleReady initialGameState 7 4 "wK"
           [(7, 5); (7, 3); (6, 3); (6, 4); (6, 5); (7, 6); (7, 2)] (7, 6)).
  - exact castleReady_grid.
  - reflexivity.
  - discriminate.
  - vm_compute. reflexivity.
  - simpl. tauto.
Defined.

Lemma castling_destinations_castleReady :
  (In (7, 6) [(7, 5); (7, 3); (6, 3); (6, 4); (6, 5); (7, 6); (7, 2)] <->
   castlingClear castleReady true 7 [5; 6] 7 "wR" true 5 6 /\
   safeAfter castleReady 7 4 "wK" (7, 6) true) /\
  (In (7, 2) [(7, 5); (7, 3); (6, 3); (6, 4); (6, 5); (7, 6); (7, 2)] <->
   castlingClear castleReady true 7 [1; 2; 3] 0 "wR" true 2 3 /\
   safeAfter castleReady 7 4 "wK" (7, 2) true).
Proof.
  apply (castling_destinations castleReady initialGameState true
           [(7, 5); (7, 3); (6, 3); (6, 4); (6, 5); (7, 6); (7, 2)]).
  - exact castleReady_grid.
  - reflexivity.
  - vm_compute. reflexivity.
Defined.

Lemma castling_rights_only_cleared_king_move :
  (exists board' gs',
     updateGameState 7 4 6 4 initialBoard initialGameState = Ok (board', gs')) /\
  rightsLe (mkGameState false false true true) initialGameState /\
  rightsLe (mkGameState false false true true) initialGameState.
Proof.
  split; [|split].
  - apply (proj1 castling_rights_only_cleared 7 4 6 4 initialBoard initialGameState).
    + exact initialBoard_grid.
    + reflexivity.
    + reflexivity.
  - apply (proj1 (proj2 castling_rights_only_cleared) 7 4 6 4 initialBoard
             initialBoard initialGameState (mkGameState false false true true)).
    vm_compute. reflexivity.
  - apply (proj2 (proj2 castling_rights_only_cleared)).
    apply (updates_step initialGameState (mkGameState false false true true)
             (mkGameState false false true true) 7 4 6 4 initialBoard initialBoard).
    + vm_compute. reflexivity.
    + apply updates_refl.
Defined.

Lemma isKingInCheck_cases_start :
  (kingAbsent initialBoard true -> isKingInCheck initialBoard true = Ok false) /\
  (~ kingAbsent initialBoard true ->
   exists r c,
     findKing initialBoard true = Ok (Some (r, c)) /\
     onBoard r c = true /\
     cellAt initialBoard r c = Ok (Some "wK") /\
     isKingInCheck initialBoard true = isSquareUnderAttack r c initialBoard false).
Proof.
  apply (isKingInCheck_cases initialBoard true). exact initialBoard_grid.
Defined.

Lemma generated_moves_on_board_start :
  (forall l, getRawPossibleMoves 6 4 initialBoard = Ok l ->
             forall m, In m l -> 0 <= fst m <= 7 /\ 0 <= snd m <= 7) /\
  (forall l, getPossibleMoves 6 4 initialBoard initialGameState = Ok l ->
             forall m, In m l -> 0 <= fst m <= 7 /\ 0 <= snd m <= 7).
Proof.
  apply (generated_moves_on_board initialBoard 6 4 initialGameState).
  - exact initialBoard_grid.
  - reflexivity.
Defined.

Lemma promotePawn_effect_far_rank :
  exists board',
    promotePawn 0 2 farRankBoard "Q" = Ok board' /\
    ("wP" = "" \/ charAt "wP" 1 <> "P" -> board' = farRankBoard) /\
    ("wP" <> "" /\ charAt "wP" 1 = "P" ->
     cellAt board' 0 2 = Ok (Some "wQ") /\
     forall r c, (r, c) <> (0, 2) -> cellAt board' r c = cellAt farRankBoard r c).
Proof.
  apply (promotePawn_effect farRankBoard 0 2 "Q" "wP").
  - exact farRankBoard_grid.
  - reflexivity.
  - reflexivity.
Defined.

Lemma getPossibleMoves_rights_irrelevant_pawn :
  getPossibleMoves 6 4 initialBoard initialGameState =
  getPossibleMoves 6 4 initialBoard (mkGameState false false false false).
Proof.
  apply (getPossibleMoves_rights_irrelevant initialBoard 6 4).
  intros p H. vm_compute in H. inversion H. discriminate.
Defined.

Lemma half_isDraw : isDraw (1 # 2).
Proof. split; [discriminate|reflexivity]. Defined.

Lemma makeComputerMove_only_choice_promotion :
  exists board1 gs1 board',
    applyMove (6, 0) (7, 0) "bP" loneMove initialGameState = Ok (board1, gs1) /\
    makeComputerMove loneMove initialGameState (1 # 2) (1 # 2) = Ok (board', gs1) /\
    cellAt board' 7 0 = Ok (Some "bQ") /\
    forall r' c', (r', c') <> (7, 0) -> cellAt board' r' c' = cellAt board1 r' c'.
Proof.
  apply (makeComputerMove_only_choice loneMove initialGameState (1 # 2) (1 # 2)
           6 0 "bP" (7, 0)).
  - exact loneMove_grid.
  - exact half_isDraw.
  - exact half_isDraw.
  - reflexivity.
  - reflexivity.
  - vm_compute. reflexivity.
  - intros r' c' p' Hne Hc Hb.
    pose proof (cellAt_Some_col _ _ _ _ loneMove_grid Hc) as Hon.
    apply squares_spec in Hon. unfold squares in Hon. simpl in Hon.
    repeat (destruct Hon as [Hon|Hon];
            [inversion Hon; subst; vm_compute in Hc; inversion Hc; subst;
             first [discriminate Hb | contradiction | vm_compute; reflexivity]|]).
    destruct Hon.
Defined.

Lemma makeComputerMove_frame_start :
  exists h' newBoard newGameState,
    Store.makeComputerMove Store.startStore Store.startBoard 8 (1 # 2) (1 # 3)
      = Ok (h', (newBoard, newGameState)) /\
    (forall l, (l < length Store.startStore)%nat -> h' !! l = Store.startStore !! l) /\
    (forall b, Store.snapshot Store.startStore Store.startBoard = Ok b ->
               Store.snapshot h' Store.startBoard = Ok b) /\
    (forall gs, Store.rightsAt Store.startStore 8 = Ok gs ->
                Store.rightsAt h' 8 = Ok gs) /\
    Forall (fun l => (length Store.startStore <= l)%nat) newBoard /\
    (length Store.startStore <= newGameState)%nat /\
    (forall b gs b' gs',
        Store.snapshot Store.startStore Store.startBoard = Ok b ->
        Store.rightsAt Store.startStore 8 = Ok gs ->
        makeComputerMove b gs (1 # 2) (1 # 3) = Ok (b', gs') ->
        Store.snapshot h' newBoard = Ok b' /\
        Store.rightsAt h' newGameState = Ok gs').
Proof.
  destruct (Store.makeComputerMove Store.startStore Store.startBoard 8 (1 # 2) (1 # 3))
    as [[h' [newBoard newGameState]]|e] eqn:E.
  - exists h', newBoard, newGameState. split; [reflexivity|].
    exact (makeComputerMove_frame _ _ _ _ _ _ _ _ E).
  - vm_compute in E. discriminate E.
Defined.

(** * Further properties of the engine *)

(** ** Where legal moves land *)

(** X1: on a grid, a move returned by [getPossibleMoves] never stays on the
    origin square and never lands on a piece with the mover's color letter:
    its destination is empty or holds a piece of the other color. *)
Theorem legal_moves_land (board : Board) (gs : GameState) (row col : Z)
    (piece : string) (l : list Square) (m : Square) :
  grid board ->
  cellAt board row col = Ok (Some piece) -> piece <> "" ->
  getPossibleMoves row col board gs = Ok l -> In m l ->
  m <> (row, col) /\
  exists dest, cellAt board (fst m) (snd m) = Ok (Some dest) /\
    (dest = "" \/ charAt dest 0 <> charAt piece 0).
Proof.
  intros Hg Hc Hne Hl Hm.
  pose proof (getPossibleMoves_landable _ _ _ _ _ _ Hg Hc Hne Hl m Hm) as Hland.
  split; [eapply landable_not_origin; eauto|].
  pose proof (cellAt_Some_col _ _ _ _ Hg Hc) as Hon.
  pose proof (getPossibleMoves_onBoard _ _ _ _ _ Hg Hon Hl m Hm) as Hmon.
  destruct (grid_cellAt board _ _ Hg Hmon) as [dest Hdest].
  exists dest. split; [assumption|].
  destruct Hland as (v & Hv & Hcol). rewrite Hdest in Hv. inversion Hv; subst v.
  simpl in Hcol. destruct (String.eqb_spec dest ""); [now left|right].
  intros E. rewrite E, String.eqb_refl in Hcol. discriminate.
Qed.

Lemma legal_moves_land_start :
  (5, 4) <> (6, 4) /\
  exists dest, cellAt initialBoard 5 4 = Ok (Some dest) /\
    (dest = "" \/ charAt dest 0 <> charAt "wP" 0).
Proof.
  apply (legal_moves_land initialBoard initialGameState 6 4 "wP"
           [(5, 4); (4, 4)] (5, 4)).
  - exact initialBoard_grid.
  - reflexivity.
  - discriminate.
  - vm_compute. reflexivity.
  - simpl. tauto.
Defined.

(** ** The attack test and the move test as searches *)

Lemma anyM_true {A : Type} (f : A -> result bool) (xs : list A) :
  anyM f xs = Ok true -> exists x, In x xs /\ f x = Ok true.
Proof.
  induction xs as [|x xs IH]; simpl; intros H; [discriminate|].
  splitBind H as v Hv. destruct v.
  - exists x. auto.
  - destruct (IH H) as (y & Hy & Hfy). exists y. auto.
Qed.

Lemma anyM_hit {A : Type} (f : A -> result bool) (xs : list A) (v : bool) (x : A) :
  anyM f xs = Ok v -> In x xs -> f x = Ok true -> v = true.
Proof.
  induction xs as [|y xs IH]; simpl; intros H Hin Hx; [destruct Hin|].
  splitBind H as t Ht. destruct t; [now inversion H|].
  destruct Hin as [->|Hin]; [congruence|]. now apply IH.
Qed.

(** X2: when [isSquareUnderAttack] returns, it returns [true] exactly when
    some on-board square holds a piece of the asked color whose raw moves
    contain the target square. *)
Theorem isSquareUnderAttack_spec (board : Board) (row col : Z) (byWhite v : bool) :
  isSquareUnderAttack row col board byWhite = Ok v ->
  (v = true <->
   exists r c, onBoard r c = true /\ attacks board byWhite r c row col).
Proof.
  intros H. split.
  - intros ->. unfold isSquareUnderAttack in H.
    apply anyM_true in H as ([r c] & Hin & Hf).
    exists r, c. split; [now apply squares_spec|].
    splitBind Hf as here Hhere. destruct (asPiece here) as [piece|] eqn:Ep;
      [|discriminate].
    apply asPiece_Some in Ep as [-> Hne].
    destruct (Bool.eqb_spec (String.eqb (charAt piece 0) "w") byWhite) as [Ew|];
      [|discriminate].
    splitBind Hf as moves Hmoves. inversion Hf as [Hex].
    exists piece, moves. repeat split; try assumption.
    destruct (in_dec (fun a b : Square =>
                match Z.eq_dec (fst a) (fst b), Z.eq_dec (snd a) (snd b) with
                | left e1, left e2 => left (injective_projections a b e1 e2)
                | right n, _ => right (fun e => n (f_equal fst e))
                | _, right n => right (fun e => n (f_equal snd e))
                end) (row, col) moves) as [Hin'|Hnot]; [assumption|].
    apply existsb_sqEqb_false in Hnot. congruence.
  - intros (r & c & Hon & piece & l & Hc & Hne & Ew & Hraw & Hin).
    unfold isSquareUnderAttack in H.
    refine (anyM_hit _ squares v (r, c) H _ _); [now apply squares_spec|].
    simpl. rewrite Hc. simpl.
    destruct (String.eqb_spec piece ""); [contradiction|].
    rewrite Ew, Bool.eqb_reflx, Hraw. simpl. f_equal.
    destruct (existsb _ l) eqn:E; [reflexivity|].
    apply existsb_sqEqb_false in E. contradiction.
Qed.

Lemma isSquareUnderAttack_spec_start :
  false = true <->
  exists r c, onBoard r c = true /\ attacks initialBoard false r c 7 4.
Proof.
  apply (isSquareUnderAttack_spec initialBoard 7 4 false false).
  vm_compute. reflexivity.
Defined.

(** X3: when [hasAnyValidMoves] returns, it returns [true] exactly when some
    on-board square holds a piece with the color letter of the side asked
    for and a non-empty list of legal moves. *)
Theorem hasAnyValidMoves_spec (board : Board) (isWhite : bool) (gs : GameState)
    (v : bool) :
  hasAnyValidMoves board isWhite gs = Ok v ->
  (v = true <->
   exists r c, onBoard r c = true /\ canMove board isWhite gs r c).
Proof.
  intros H. split.
  - intros ->. unfold hasAnyValidMoves in H.
    apply anyM_true in H as ([r c] & Hin & Hf).
    exists r, c. split; [now apply squares_spec|].
    splitBind Hf as here Hhere. destruct (asPiece here) as [piece|] eqn:Ep;
      [|discriminate].
    apply asPiece_Some in Ep as [-> Hne].
    destruct (String.eqb_spec (charAt piece 0) (if isWhite then "w" else "b"))
      as [Ecol|]; [|discriminate].
    splitBind Hf as moves Hmoves. destruct moves as [|m l]; [discriminate|].
    exists piece, m, l. auto.
  - intros (r & c & Hon & piece & m & l & Hc & Hne & Ecol & Hmoves).
    unfold hasAnyValidMoves in H.
    refine (anyM_hit _ squares v (r, c) H _ _); [now apply squares_spec|].
    simpl. rewrite Hc. simpl.
    destruct (String.eqb_spec piece ""); [contradiction|].
    rewrite Ecol, String.eqb_refl, Hmoves. reflexivity.
Qed.

Lemma hasAnyValidMoves_spec_start :
  true = true <->
  exists r c, onBoard r c = true /\ canMove initialBoard true initialGameState r c.
Proof.
  apply (hasAnyValidMoves_spec initialBoard true initialGameState true).
  vm_compute. reflexivity.
Defined.

(** ** Terminal positions *)

(** X4: when the two check tests and the two move tests return,
    [isGameOver] returns [true] exactly when one of the two sides has no
    legal move; whether a king is in check makes no difference. *)
Theorem isGameOver_no_move (board : Board) (gs : GameState)
    (checkW checkB movesW movesB : bool) :
  isKingInCheck board true = Ok checkW ->
  isKingInCheck board false = Ok checkB ->
  hasAnyValidMoves board true gs = Ok movesW ->
  hasAnyValidMoves board false gs = Ok movesB ->
  isGameOver board gs = Ok (negb movesW || negb movesB).
Proof.
  intros Hcw Hcb Hmw Hmb. unfold isGameOver, returnIf, andThen, notM.
  rewrite Hcw, Hcb, Hmw, Hmb.
  destruct checkW, checkB, movesW, movesB; reflexivity.
Qed.

Lemma isGameOver_no_move_start :
  isGameOver initialBoard initialGameState = Ok (negb true || negb true).
Proof.
  apply (isGameOver_no_move initialBoard initialGameState false false true true);
    vm_compute; reflexivity.
Defined.

(** X5: under the same condition [getGameStatus] returns one of its three
    final texts exactly when [isGameOver] returns [true]; a side without a
    legal move is reported as checkmated when its king is in check, white
    being looked at first, and otherwise the text is the stalemate one. *)
Theorem getGameStatus_cases (board : Board) (gs : GameState)
    (checkW checkB movesW movesB : bool) :
  isKingInCheck board true = Ok checkW ->
  isKingInCheck board false = Ok checkB ->
  hasAnyValidMoves board true gs = Ok movesW ->
  hasAnyValidMoves board false gs = Ok movesB ->
  exists s,
    getGameStatus board gs = Ok s /\
    (isGameOver board gs = Ok true <-> terminalStatus s) /\
    (s = "Checkmate! Computer wins." <-> checkW = true /\ movesW = false) /\
    (s = "Checkmate! You win!" <->
     ~ (checkW = true /\ movesW = false) /\ checkB = true /\ movesB = false) /\
    (s = "Game in progress" <->
     movesW = true /\ movesB = true /\ checkW = false /\ checkB = false).
Proof.
  intros Hcw Hcb Hmw Hmb.
  unfold getGameStatus, isGameOver, returnIf, andThen, notM, terminalStatus.
  rewrite Hcw, Hcb, Hmw, Hmb.
  destruct checkW, checkB, movesW, movesB; cbn [bind negb];
    eexists; (split; [reflexivity|]);
    intuition (first [discriminate | reflexivity | congruence]).
Qed.

Lemma getGameStatus_cases_start :
  exists s,
    getGameStatus initialBoard initialGameState = Ok s /\
    (isGameOver initialBoard initialGameState = Ok true <-> terminalStatus s) /\
    (s = "Checkmate! Computer wins." <-> false = true /\ true = false) /\
    (s = "Checkmate! You win!" <->
     ~ (false = true /\ true = false) /\ false = true /\ true = false) /\
    (s = "Game in progress" <->
     true = true /\ true = true /\ false = false /\ false = false).
Proof.
  apply (getGameStatus_cases initialBoard initialGameState false false true true);
    vm_compute; reflexivity.
Defined.

(** ** The computer without a move *)

(** X6: when [hasAnyValidMoves] reports that black has no legal move,
    [makeComputerMove] returns the board and the rights it was given,
    whatever the draws. *)
Theorem makeComputerMove_no_move (board : Board) (gs : GameState) (u1 u2 : Q) :
  hasAnyValidMoves board false gs = Ok false ->
  makeComputerMove board gs u1 u2 = Ok (board, gs).
Proof.
  intros H. unfold hasAnyValidMoves in H.
  assert (Hnone : collectBlack board gs = Ok []).
  { unfold collectBlack. apply forPush_none. intros [r c] Hin.
    pose proof (proj1 (anyM_false _ _) H (r, c) Hin) as Hf. simpl in Hf.
    unfold candidateAt. splitBind Hf as here Hhere. rewrite Hhere. simpl.
    destruct (asPiece here) as [piece|]; [|reflexivity].
    destruct (String.eqb (charAt piece 0) "b"); [|reflexivity].
    splitBind Hf as moves Hmoves. rewrite Hmoves. simpl.
    destruct moves; [reflexivity|discriminate]. }
  unfold makeComputerMove. rewrite Hnone. reflexivity.
Qed.

(** ** Queries off the board and on empty squares *)

Lemma grid_row_out (board : Board) (r : Z) :
  grid board -> ~ (0 <= r < 8) -> idx board r = None.
Proof.
  intros [Hlen _] Hr. unfold idx. destruct (Z.leb_spec 0 r); [|reflexivity].
  apply lookup_ge_None_2. lia.
Qed.

Lemma grid_col_out (board : Board) (r c : Z) :
  grid board -> 0 <= r < 8 -> ~ (0 <= c < 8) -> cellAt board r c = Ok None.
Proof.
  intros Hg Hr Hc. destruct (grid_row board r Hg Hr) as (row & Hrow & Hlen).
  unfold cellAt. rewrite Hrow. f_equal. unfold idx.
  destruct (Z.leb_spec 0 c); [|reflexivity]. apply lookup_ge_None_2. lia.
Qed.

(** X7: on a grid, a query whose row is outside 0..7 makes both move
    generators throw a TypeError; a query whose row is inside and whose
    column is outside, and a query on an empty square, return the empty
    list. *)
Theorem off_board_queries (board : Board) (gs : GameState) (row col : Z) :
  grid board ->
  (~ (0 <= row < 8) ->
   getRawPossibleMoves row col board = Err TypeError /\
   getPossibleMoves row col board gs = Err TypeError) /\
  (0 <= row < 8 -> ~ (0 <= col < 8) ->
   getRawPossibleMoves row col board = Ok [] /\
   getPossibleMoves row col board gs = Ok []) /\
  (cellAt board row col = Ok (Some "") ->
   getRawPossibleMoves row col board = Ok [] /\
   getPossibleMoves row col board gs = Ok []).
Proof.
  intros Hg. unfold getRawPossibleMoves, getPossibleMoves. repeat split.
  - unfold cellAt. now rewrite (grid_row_out board row Hg H).
  - unfold cellAt. now rewrite (grid_row_out board row Hg H).
  - now rewrite (grid_col_out board row col Hg H H0).
  - now rewrite (grid_col_out board row col Hg H H0).
  - now rewrite H.
  - now rewrite H.
Qed.

Lemma off_board_queries_start :
  (~ (0 <= 8 < 8) ->
   getRawPossibleMoves 8 0 initialBoard = Err TypeError /\
   getPossibleMoves 8 0 initialBoard initialGameState = Err TypeError) /\
  (0 <= 8 < 8 -> ~ (0 <= 0 < 8) ->
   getRawPossibleMoves 8 0 initialBoard = Ok [] /\
   getPossibleMoves 8 0 initialBoard initialGameState = Ok []) /\
  (cellAt initialBoard 8 0 = Ok (Some "") ->
   getRawPossibleMoves 8 0 initialBoard = Ok [] /\
   getPossibleMoves 8 0 initialBoard initialGameState = Ok []).
Proof.
  apply (off_board_queries initialBoard initialGameState 8 0).
  exact initialBoard_grid.
Defined.

(** ** Legal moves as filtered candidates *)

Lemma keepSafe_sublist (board : Board) (row col : Z) (piece : string)
    (isWhite : bool) (moves l : list Square) :
  keepSafe board row col piece isWhite moves = Ok l -> sublist l moves.
Proof.
  unfold keepSafe. revert l. induction moves as [|m rest IH]; simpl; intros l H.
  - inversion H. constructor.
  - splitBind H as ys Hys. splitBind H as zs Hzs. inversion H; subst l.
    splitBind Hys as T HT. splitBind Hys as chk Hchk. inversion Hys; subst ys.
    destruct chk; simpl.
    + apply sublist_cons. auto.
    + apply sublist_skip. auto.
Qed.

(** X8: for a square holding a piece, the list returned by
    [getPossibleMoves] is a subsequence, in the same order, of the raw moves
    of [getRawPossibleMoves] followed by what [castlingMoves] returns for a
    king (nothing for any other piece), and it keeps exactly the candidates
    after which the mover's king is not in check on the simulated board. *)
Theorem legal_moves_filter (board : Board) (gs : GameState) (row col : Z)
    (piece : string) (l : list Square) :
  cellAt board row col = Ok (Some piece) -> piece <> "" ->
  getPossibleMoves row col board gs = Ok l ->
  exists raw castling,
    getRawPossibleMoves row col board = Ok raw /\
    (if String.eqb (charAt piece 1) "K"
     then castlingMoves board gs (String.eqb (charAt piece 0) "w")
     else Ok []) = Ok castling /\
    sublist l (raw ++ castling) /\
    forall m, In m l <->
      In m (raw ++ castling) /\
      safeAfter board row col piece m (String.eqb (charAt piece 0) "w").
Proof.
  intros Hc Hne Hl.
  destruct (getPossibleMoves_Ok _ _ _ _ _ _ Hc Hne Hl)
    as (raw & castling & Hraw & Hcas & Hkeep).
  exists raw, castling. split; [assumption|]. split; [assumption|]. split.
  - eapply keepSafe_sublist; eauto.
  - intros m. exact (keepSafe_In _ _ _ _ _ _ _ m Hkeep).
Qed.

Lemma legal_moves_filter_start :
  exists raw castling,
    getRawPossibleMoves 7 4 castleReady = Ok raw /\
    (if String.eqb (charAt "wK" 1) "K"
     then castlingMoves castleReady initialGameState
            (String.eqb (charAt "wK" 0) "w")
     else Ok []) = Ok castling /\
    sublist [(7, 5); (7, 3); (6, 3); (6, 4); (6, 5); (7, 6); (7, 2)]
      (raw ++ castling) /\
    forall m, In m [(7, 5); (7, 3); (6, 3); (6, 4); (6, 5); (7, 6); (7, 2)] <->
      In m (raw ++ castling) /\ safeAfter castleReady 7 4 "wK" m true.
Proof.
  apply (legal_moves_filter castleReady initialGameState 7 4 "wK").
  - reflexivity.
  - discriminate.
  - vm_compute. reflexivity.
Defined.

Lemma makeComputerMove_no_move_mated :
  makeComputerMove
    [ [""; ""; ""; ""; ""; ""; ""; "bK"];
      emptyRow; emptyRow; emptyRow; emptyRow; emptyRow;
      [""; ""; ""; ""; ""; ""; "wR"; ""];
      ["wK"; ""; ""; ""; ""; ""; ""; "wR"] ]
    initialGameState (1 # 2) (1 # 2)
  = Ok ([ [""; ""; ""; ""; ""; ""; ""; "bK"];
          emptyRow; emptyRow; emptyRow; emptyRow; emptyRow;
          [""; ""; ""; ""; ""; ""; "wR"; ""];
          ["wK"; ""; ""; ""; ""; ""; ""; "wR"] ], initialGameState).
Proof.
  apply makeComputerMove_no_move. vm_compute. reflexivity.
Defined.

(** ** The store: what the other functions write to *)

(** X9: [getPossibleMoves] leaves every object of the store it is called in
    unchanged (its simulated moves are made on copies), and the list it
    returns is the one computed on the board value and the rights its
    arguments denote. *)
Theorem store_getPossibleMoves_reads_only (h h' : list object) (board : list nat)
    (gameState : nat) (row col : Z) (l : list Square) :
  Store.getPossibleMoves row col h board gameState = Ok (h', l) ->
  (forall l0, (l0 < length h)%nat -> h' !! l0 = h !! l0) /\
  (forall b, Store.snapshot h board = Ok b -> Store.snapshot h' board = Ok b) /\
  (forall b gs l',
      Store.snapshot h board = Ok b -> Store.rightsAt h gameState = Ok gs ->
      getPossibleMoves row col b gs = Ok l' -> l' = l).
Proof.
  intros H. pose proof (getPossibleMoves_keeps _ _ _ _ _ _ _ H) as K.
  split; [exact (proj2 K)|]. split.
  - intros b Hb. eapply snapshot_keeps; eauto. eapply snapshot_bound; eauto.
  - intros b gs l' Hb Hgs Hval.
    destruct (getPossibleMoves_sim _ _ _ _ _ _ _ _ Hb Hgs Hval) as (h'' & Hrun).
    rewrite H in Hrun. now inversion Hrun.
Qed.

Lemma store_getPossibleMoves_reads_only_start :
  exists h' l,
    Store.getPossibleMoves 6 4 Store.startStore Store.startBoard 8 = Ok (h', l) /\
    (forall l0, (l0 < length Store.startStore)%nat ->
                h' !! l0 = Store.startStore !! l0) /\
    (forall b, Store.snapshot Store.startStore Store.startBoard = Ok b ->
               Store.snapshot h' Store.startBoard = Ok b) /\
    (forall b gs l',
        Store.snapshot Store.startStore Store.startBoard = Ok b ->
        Store.rightsAt Store.startStore 8 = Ok gs ->
        getPossibleMoves 6 4 b gs = Ok l' -> l' = l).
Proof.
  destruct (Store.getPossibleMoves 6 4 Store.startStore Store.startBoard 8)
    as [[h' l]|e] eqn:E.
  - exists h', l. split; [reflexivity|].
    exact (store_getPossibleMoves_reads_only _ _ _ _ _ _ _ E).
  - vm_compute in E. discriminate E.
Defined.

Lemma changesOnly_refl (n : nat) (board : list nat) (h : list object) :
  changesOnly n board h h.
Proof. split; [lia|auto]. Qed.

Lemma changesOnly_trans (n : nat) (board : list nat) (h1 h2 h3 : list object) :
  changesOnly n board h1 h2 -> changesOnly n board h2 h3 ->
  changesOnly n board h1 h3.
Proof.
  intros [L1 K1] [L2 K2]. split; [lia|].
  intros l Hl Hnot. now rewrite K2, K1.
Qed.

Lemma writeCell_changesOnly (n : nat) (h h' : list object) (board : list nat)
    (r c : Z) (v : string) :
  Store.writeCell h board r c v = Ok h' -> changesOnly n board h h'.
Proof.
  intros H. split.
  - unfold Store.writeCell in H. destruct (idx board r); [|discriminate].
    splitBind H as row Hrow. destruct (idx row c); [|discriminate].
    inversion H. rewrite length_insert. lia.
  - intros l _ Hnot. eapply writeCell_other; eauto.
Qed.

Lemma modifyRights_changesOnly (n l : nat) (h h' : list object)
    (board : list nat) (f : GameState -> GameState) :
  (n <= l)%nat -> Store.modifyRights h l f = Ok h' -> changesOnly n board h h'.
Proof.
  intros Hnl H. destruct (modifyRights_keeps n l h h' f Hnl H) as [L K].
  split; [assumption|]. intros l0 Hl0 _. now apply K.
Qed.

Lemma relocateRook_changesOnly (n : nat) (h h' : list object) (board : list nat)
    (r c1 c2 : Z) :
  Store.relocateRook h board r c1 c2 = Ok h' -> changesOnly n board h h'.
Proof.
  unfold Store.relocateRook. intros H. splitBind H as rook Hrook.
  destruct rook as [s|]; [|discriminate]. splitBind H as h1 Hw.
  eapply changesOnly_trans; eapply writeCell_changesOnly; eauto.
Qed.

Lemma updateGameState_changesOnly (h h' : list object) (board : list nat)
    (gameState l : nat) (fromRow fromCol toRow toCol : Z) :
  Store.updateGameState fromRow fromCol toRow toCol h board gameState = Ok (h', l) ->
  changesOnly (length h) board h h' /\ l = length h /\ (length h < length h')%nat.
Proof.
  unfold Store.updateGameState. intros H.
  splitBind H as [h0 l0] Hcopy. cbn [fst snd] in H.
  destruct (copyRights_keeps _ _ _ _ Hcopy) as [K0 ->].
  assert (L0 : length h0 = S (length h)).
  { unfold Store.copyRights in Hcopy. splitBind Hcopy as gs Hgs.
    inversion Hcopy. rewrite length_app. simpl. lia. }
  splitBind H as piece Hpiece. splitBind H as h1 Hking.
  splitBind H as h2 Hrook. splitBind H as target Htarget.
  splitBind H as h3 Hcap. inversion H; subst h' l. clear H.
  assert (C1 : changesOnly (length h) board h0 h1).
  { destruct (isStr piece "wK"); [|destruct (isStr piece "bK")].
    - splitBind Hking as hk Hmod.
      eapply changesOnly_trans;
        [eapply (modifyRights_changesOnly (length h)); eauto|].
      destruct ((fromRow =? 7) && (fromCol =? 4));
        [destruct (toCol =? 6); [|destruct (toCol =? 2)]|];
        try (eapply relocateRook_changesOnly; eauto; fail);
        inversion Hking; subst; apply changesOnly_refl.
    - splitBind Hking as hk Hmod.
      eapply changesOnly_trans;
        [eapply (modifyRights_changesOnly (length h)); eauto|].
      destruct ((fromRow =? 0) && (fromCol =? 4));
        [destruct (toCol =? 6); [|destruct (toCol =? 2)]|];
        try (eapply relocateRook_changesOnly; eauto; fail);
        inversion Hking; subst; apply changesOnly_refl.
    - inversion Hking; subst. apply changesOnly_refl. }
  assert (C : changesOnly (length h) board h h3).
  { apply (changesOnly_trans _ _ h h0 h3).
    - destruct K0 as [LK K0]. split; [exact LK|]. intros l Hl _. now apply K0.
    - eapply changesOnly_trans; [exact C1|].
      eapply changesOnly_trans;
        eapply (modifyRights_changesOnly (length h)); eauto. }
  split; [assumption|]. split; [reflexivity|].
  destruct C1 as [L1 _].
  pose proof (modifyRights_changesOnly (length h) _ _ _ board _
                (Nat.le_refl _) Hrook) as [L2 _].
  pose proof (modifyRights_changesOnly (length h) _ _ _ board _
                (Nat.le_refl _) Hcap) as [L3 _].
  lia.
Qed.

Lemma snapshot_rows_not_rights (h : list object) (board : list nat) (b : Board)
    (l : nat) (gs : GameState) :
  Store.snapshot h board = Ok b -> Store.rightsAt h l = Ok gs -> ~ In l board.
Proof.
  revert b. induction board as [|l0 ls IH]; simpl; intros b Hs Hgs; [tauto|].
  splitBind Hs as row Hrow. splitBind Hs as rows Hrows.
  intros [->|Hin]; [|exact (IH rows Hrows Hgs Hin)].
  unfold Store.rowAt in Hrow. unfold Store.rightsAt in Hgs.
  destruct (h !! l) as [[?|?]|]; discriminate.
Qed.

(** X10: [updateGameState] returns a rights record at a location it has
    allocated; of the objects that existed before the call only the rows of
    the board it was given can differ afterwards, so the rights record passed
    in keeps its fields; and when the rows of the board are distinct objects,
    the board and the returned record hold what the function computes on
    values. *)
Theorem store_updateGameState_writes (h h' : list object) (board : list nat)
    (gameState l : nat) (fromRow fromCol toRow toCol : Z) :
  Store.updateGameState fromRow fromCol toRow toCol h board gameState = Ok (h', l) ->
  l = length h /\
  (forall l0, (l0 < length h)%nat -> ~ In l0 board -> h' !! l0 = h !! l0) /\
  (forall b gs, Store.snapshot h board = Ok b ->
                Store.rightsAt h gameState = Ok gs ->
                Store.rightsAt h' gameState = Ok gs) /\
  (forall b gs b' gs',
      Store.snapshot h board = Ok b -> List.NoDup board ->
      Store.rightsAt h gameState = Ok gs ->
      updateGameState fromRow fromCol toRow toCol b gs = Ok (b', gs') ->
      Store.snapshot h' board = Ok b' /\ Store.rightsAt h' l = Ok gs').
Proof.
  intros H.
  destruct (updateGameState_changesOnly _ _ _ _ _ _ _ _ _ H) as ((L & C) & -> & Lt).
  split; [reflexivity|]. split; [exact C|]. split.
  - intros b gs Hb Hgs. unfold Store.rightsAt in *.
    rewrite C; [assumption| |eapply snapshot_rows_not_rights; eauto].
    destruct (h !! gameState) eqn:E; [|discriminate].
    eapply lookup_lt_Some; eauto.
  - intros b gs b' gs' Hb Hnd Hgs Hval.
    destruct (updateGameState_sim _ _ _ _ _ _ _ _ _ _ _ Hb Hnd Hgs Hval)
      as (h'' & l'' & Hrun & Hs & Hg & _).
    rewrite H in Hrun. inversion Hrun; subst. auto.
Qed.

Lemma store_updateGameState_writes_start :
  exists h' l,
    Store.updateGameState 6 4 4 4 Store.startStore Store.startBoard 8 = Ok (h', l) /\
    l = length Store.startStore /\
    (forall l0, (l0 < length Store.startStore)%nat -> ~ In l0 Store.startBoard ->
                h' !! l0 = Store.startStore !! l0) /\
    (forall b gs, Store.snapshot Store.startStore Store.startBoard = Ok b ->
                  Store.rightsAt Store.startStore 8 = Ok gs ->
                  Store.rightsAt h' 8 = Ok gs) /\
    (forall b gs b' gs',
        Store.snapshot Store.startStore Store.startBoard = Ok b ->
        List.NoDup Store.startBoard ->
        Store.rightsAt Store.startStore 8 = Ok gs ->
        updateGameState 6 4 4 4 b gs = Ok (b', gs') ->
        Store.snapshot h' Store.startBoard = Ok b' /\ Store.rightsAt h' l = Ok gs').
Proof.
  destruct (Store.updateGameState 6 4 4 4 Store.startStore Store.startBoard 8)
    as [[h' l]|e] eqn:E.
  - exists h', l. split; [reflexivity|].
    exact (store_updateGameState_writes _ _ _ _ _ _ _ _ _ E).
  - vm_compute in E. discriminate E.
Defined.

(** ** The queries return *)

Lemma noFarRankPawnb_spec (board : Board) (isWhite : bool) :
  grid board -> noFarRankPawnb board isWhite = true -> noFarRankPawn board isWhite.
Proof.
  intros Hg Hb r c (s & Hs & Hne & Hcol & Hp & ->).
  pose proof (cellAt_Some_col _ _ _ _ Hg Hs) as Hon.
  apply onBoard_spec in Hon as [_ Hc].
  unfold noFarRankPawnb in Hb. rewrite forallb_forall in Hb.
  specialize (Hb c (proj2 (range8_spec c) Hc)).
  unfold farRankPawnb in Hb. rewrite Hs in Hb.
  destruct (String.eqb_spec s ""); [contradiction|].
  rewrite Hcol, Hp, Bool.eqb_reflx in Hb. discriminate Hb.
Qed.

Lemma countPieces_total (board : Board) (sqs : list Square) :
  grid board -> (forall r c, In (r, c) sqs -> onBoard r c = true) ->
  forall w b, exists w' b', countPieces board sqs w b = Ok (w', b').
Proof.
  intros Hg. induction sqs as [|[r c] sqs IH]; simpl; intros Hon w b; [eauto|].
  destruct (grid_cellAt board r c Hg) as [s Hs]; [apply Hon; now left|].
  rewrite Hs. simpl. apply IH. intros; apply Hon; now right.
Qed.

Lemma hasAnyValidMoves_total (board : Board) (isWhite : bool) (gs : GameState) :
  grid board -> noFarRankPawn board true -> noFarRankPawn board false ->
  exists v, hasAnyValidMoves board isWhite gs = Ok v.
Proof.
  intros Hg Hw Hb. unfold hasAnyValidMoves. apply anyM_total.
  intros [r c] Hin. apply squares_spec in Hin.
  destruct (grid_cellAt board r c Hg Hin) as [s Hs]. rewrite Hs. cbn [bind].
  destruct (asPiece (Some s)) as [piece|]; [|eauto].
  destruct (String.eqb (charAt piece 0) (if isWhite then "w" else "b")); [|eauto].
  destruct (move_generators_total board gs r c Hg Hw Hb Hin) as [_ [l ->]].
  cbn [bind]. eauto.
Qed.

Lemma isGameOver_total (board : Board) (gs : GameState) :
  playable board ->
  exists over, isGameOver board gs = Ok over /\
    (over = false ->
     hasAnyValidMoves board true gs = Ok true /\
     hasAnyValidMoves board false gs = Ok true).
Proof.
  intros (Hg & Hw & Hb).
  destruct (isKingInCheck_total board true Hg Hb) as [cw Hcw].
  destruct (isKingInCheck_total board false Hg Hw) as [cb Hcb].
  destruct (hasAnyValidMoves_total board true gs Hg Hw Hb) as [mw Hmw].
  destruct (hasAnyValidMoves_total board false gs Hg Hw Hb) as [mb Hmb].
  unfold isGameOver, returnIf, andThen, notM. rewrite Hcw, Hcb, Hmw, Hmb.
  destruct cw, cb, mw, mb; cbn [bind negb]; eexists;
    (split; [reflexivity|]); intros E; try discriminate E; auto.
Qed.

Lemma getGameStatus_total (board : Board) (gs : GameState) :
  playable board -> exists s, getGameStatus board gs = Ok s.
Proof.
  intros (Hg & Hw & Hb).
  destruct (isKingInCheck_total board true Hg Hb) as [cw Hcw].
  destruct (isKingInCheck_total board false Hg Hw) as [cb Hcb].
  destruct (hasAnyValidMoves_total board true gs Hg Hw Hb) as [mw Hmw].
  destruct (hasAnyValidMoves_total board false gs Hg Hw Hb) as [mb Hmb].
  unfold getGameStatus, returnIf, andThen, notM. rewrite Hcw, Hcb, Hmw, Hmb.
  destruct cw, cb, mw, mb; cbn [bind negb]; eauto.
Qed.

(** X11: on a grid on which no pawn stands on its far rank every query of the
    engine returns a value: the turn heuristic, the check test and the
    any-move test for either color, the game-over test and the status text,
    and both move generators for every square of the board. *)
Theorem engine_queries_return (board : Board) (gs : GameState) :
  grid board -> noFarRankPawn board true -> noFarRankPawn board false ->
  (exists v, isWhiteTurn board = Ok v) /\
  (forall isWhite, exists v, isKingInCheck board isWhite = Ok v) /\
  (forall isWhite, exists v, hasAnyValidMoves board isWhite gs = Ok v) /\
  (exists v, isGameOver board gs = Ok v) /\
  (exists s, getGameStatus board gs = Ok s) /\
  (forall row col, onBoard row col = true ->
     (exists l, getRawPossibleMoves row col board = Ok l) /\
     (exists l, getPossibleMoves row col board gs = Ok l)).
Proof.
  intros Hg Hw Hb.
  assert (Hplay : playable board) by exact (conj Hg (conj Hw Hb)).
  split; [|split; [|split; [|split; [|split]]]].
  - unfold isWhiteTurn.
    destruct (countPieces_total board squares Hg) with (w := 0) (b := 0)
      as (w' & b' & ->); [intros r c; apply squares_spec|].
    cbn [bind]. eauto.
  - intros []; apply isKingInCheck_total; assumption.
  - intros w. now apply hasAnyValidMoves_total.
  - destruct (isGameOver_total board gs Hplay) as (over & Hover & _). eauto.
  - now apply getGameStatus_total.
  - intros row col Hon. now apply move_generators_total.
Qed.

Lemma engine_queries_return_start :
  (exists v, isWhiteTurn initialBoard = Ok v) /\
  (forall isWhite, exists v, isKingInCheck initialBoard isWhite = Ok v) /\
  (forall isWhite, exists v,
     hasAnyValidMoves initialBoard isWhite initialGameState = Ok v) /\
  (exists v, isGameOver initialBoard initialGameState = Ok v) /\
  (exists s, getGameStatus initialBoard initialGameState = Ok s) /\
  (forall row col, onBoard row col = true ->
     (exists l, getRawPossibleMoves row col initialBoard = Ok l) /\
     (exists l, getPossibleMoves row col initialBoard initialGameState = Ok l)).
Proof.
  apply (engine_queries_return initialBoard initialGameState initialBoard_grid);
    apply noFarRankPawnb_spec; (apply initialBoard_grid || reflexivity).
Defined.

(** ** What an applied move leaves on the board *)

Lemma relocateRook_cells (board b1 : Board) (r c1 c2 : Z) :
  relocateRook board r c1 c2 = Ok b1 ->
  exists s, cellAt board r c1 = Ok (Some s) /\
    forall r' c', cellAt b1 r' c' =
      if (r' =? r) && (c' =? c1) then Ok (Some "")
      else if (r' =? r) && (c' =? c2) then Ok (Some s)
      else cellAt board r' c'.
Proof.
  unfold relocateRook. intros H. splitBind H as rook Hrook.
  destruct rook as [s|]; [|discriminate]. splitBind H as b0 Hb0.
  exists s. split; [assumption|]. intros r' c'.
  rewrite (cellAt_setCell _ _ _ _ _ r' c' H).
  rewrite (cellAt_setCell _ _ _ _ _ r' c' Hb0). reflexivity.
Qed.

(** The board [updateGameState] leaves is the board it was given after the
    rook relocation of a castling move, if the move is one. *)
Lemma updateGameState_board (fromRow fromCol toRow toCol : Z)
    (board b1 : Board) (gs gs' : GameState) :
  updateGameState fromRow fromCol toRow toCol board gs = Ok (b1, gs') ->
  exists piece, cellAt board fromRow fromCol = Ok piece /\
    hopBoard board (castlingRook piece fromRow fromCol toCol) = Ok b1.
Proof.
  unfold updateGameState. intros H. splitBind H as piece Hp.
  exists piece. split; [assumption|].
  splitBind H as [b0 g0] Hk. cbn [fst snd] in H. splitBind H as target Ht.
  injection H as -> _.
  unfold castlingRook, hopBoard.
  destruct (isStr piece "wK"); [|destruct (isStr piece "bK")].
  - splitBind Hk as b' Hb'. injection Hk as -> _.
    destruct ((fromRow =? 7) && (fromCol =? 4));
      [destruct (toCol =? 6); [|destruct (toCol =? 2)]|]; assumption.
  - splitBind Hk as b' Hb'. injection Hk as -> _.
    destruct ((fromRow =? 0) && (fromCol =? 4));
      [destruct (toCol =? 6); [|destruct (toCol =? 2)]|]; assumption.
  - injection Hk as -> _. reflexivity.
Qed.

Lemma hopBoard_rows (board b1 : Board) (hop : option (Z * Z * Z)) :
  hopBoard board hop = Ok b1 ->
  forall r c s, cellAt b1 r c = Ok (Some s) -> s <> "" ->
  exists c0, cellAt board r c0 = Ok (Some s).
Proof.
  destruct hop as [[[r0 c1] c2]|]; simpl; intros H r c s Hs Hne.
  - destruct (relocateRook_cells _ _ _ _ _ H) as (rook & Hrook & Hcells).
    rewrite Hcells in Hs.
    destruct ((r =? r0) && (c =? c1)) eqn:E1.
    + injection Hs as <-. contradiction.
    + destruct ((r =? r0) && (c =? c2)) eqn:E2; [|eauto].
      injection Hs as <-. apply andb_true_iff in E2 as [Er _].
      apply Z.eqb_eq in Er. subst r0. eauto.
  - injection H as <-. eauto.
Qed.

(** A piece found on the board after a move is the moving piece on its
    destination, or stood in the same row before the move. *)
Lemma applyMove_rows (from to : Square) (piece : string) (board board' : Board)
    (gs gs' : GameState) :
  applyMove from to piece board gs = Ok (board', gs') ->
  forall r c s, cellAt board' r c = Ok (Some s) -> s <> "" ->
  ((r, c) = to /\ s = piece) \/ exists c0, cellAt board r c0 = Ok (Some s).
Proof.
  unfold applyMove. intros H. splitBind H as [b1 g1] Hu. cbn [fst snd] in H.
  splitBind H as b2 Hb2. splitBind H as b3 Hb3. injection H as <- _.
  destruct (updateGameState_board _ _ _ _ _ _ _ _ Hu) as (p & Hp & Hhop).
  intros r c s Hs Hne.
  rewrite (cellAt_setCell _ _ _ _ _ r c Hb3) in Hs.
  destruct ((r =? fst from) && (c =? snd from));
    [injection Hs as <-; contradiction|].
  rewrite (cellAt_setCell _ _ _ _ _ r c Hb2) in Hs.
  destruct ((r =? fst to) && (c =? snd to)) eqn:E.
  - left. injection Hs as <-. apply andb_true_iff in E as [E1 E2].
    apply Z.eqb_eq in E1, E2. destruct to; simpl in *; subst; auto.
  - right. eapply hopBoard_rows; eauto.
Qed.

Lemma applyMove_noFarRankPawn (from to : Square) (piece : string)
    (board board' : Board) (gs gs' : GameState) (isWhite : bool) :
  applyMove from to piece board gs = Ok (board', gs') ->
  noFarRankPawn board isWhite ->
  ~ (String.eqb (charAt piece 0) "w" = isWhite /\ charAt piece 1 = "P" /\
     fst to = (if isWhite then 0 else 7)) ->
  noFarRankPawn board' isWhite.
Proof.
  intros H Hfar Hp r c (s & Hs & Hne & Hcol & HP & Hr).
  destruct (applyMove_rows _ _ _ _ _ _ _ H r c s Hs Hne) as [[E ->]|[c0 Hc0]].
  - apply Hp. subst to. simpl. auto.
  - apply (Hfar r c0). exists s. auto.
Qed.

Lemma applyMove_le (from to : Square) (piece : string) (board board' : Board)
    (gs gs' : GameState) :
  applyMove from to piece board gs = Ok (board', gs') -> rightsLe gs' gs.
Proof.
  unfold applyMove. intros H. splitBind H as [b1 g1] Hu. cbn [fst snd] in H.
  splitBind H as b2 Hb2. splitBind H as b3 Hb3. injection H as _ <-.
  eapply updateGameState_le; eauto.
Qed.

(** ** The choice of the computer *)

Lemma randomIndex_range (u : Q) (n : nat) :
  isDraw u -> (0 < n)%nat -> 0 <= randomIndex u n < Z.of_nat n.
Proof.
  intros [H0 H1] Hn. unfold randomIndex.
  set (x := (u * inject_Z (Z.of_nat n))%Q).
  assert (Hpos : (0 < inject_Z (Z.of_nat n))%Q)
    by (change 0%Q with (inject_Z 0); rewrite <- Zlt_Qlt; lia).
  assert (Hx0 : (0 <= x)%Q).
  { unfold x. apply Qmult_le_0_compat; [assumption|]. now apply Qlt_le_weak. }
  assert (Hx1 : (x < inject_Z (Z.of_nat n))%Q).
  { unfold x. rewrite <- (Qmult_1_l (inject_Z (Z.of_nat n))) at 2.
    apply Qmult_lt_compat_r; assumption. }
  pose proof (Qfloor_le x) as Hle. pose proof (Qlt_floor x) as Hlt.
  assert (Hlo : (inject_Z (Qfloor x) < inject_Z (Z.of_nat n))%Q)
    by (eapply Qle_lt_trans; eauto).
  assert (Hhi : (inject_Z 0 < inject_Z (Qfloor x + 1))%Q)
    by (eapply Qle_lt_trans; eauto).
  rewrite <- Zlt_Qlt in Hlo, Hhi. lia.
Qed.

Lemma collectBlack_In (board : Board) (gs : GameState) (l : list Candidate)
    (cand : Candidate) :
  grid board -> collectBlack board gs = Ok l -> In cand l ->
  onBoard (cRow cand) (cCol cand) = true /\
  cellAt board (cRow cand) (cCol cand) = Ok (Some (cPiece cand)) /\
  cPiece cand <> "" /\ charAt (cPiece cand) 0 = "b" /\
  getPossibleMoves (cRow cand) (cCol cand) board gs = Ok (cMoves cand) /\
  cMoves cand <> [].
Proof.
  intros Hg H Hin. unfold collectBlack in H.
  destruct (forPush_In _ _ _ _ H Hin) as ([r c] & ys & Hsq & Hf & Hy).
  apply squares_spec in Hsq. unfold candidateAt in Hf.
  splitBind Hf as here Hhere.
  destruct (asPiece here) as [piece|] eqn:Ep; [|injection Hf as <-; destruct Hy].
  apply asPiece_Some in Ep as [-> Hne].
  destruct (String.eqb_spec (charAt piece 0) "b") as [Eb|];
    [|injection Hf as <-; destruct Hy].
  splitBind Hf as moves Hmoves.
  destruct moves as [|m0 moves]; injection Hf as <-; [destruct Hy|].
  destruct Hy as [<-|[]]. simpl. repeat split; try assumption. discriminate.
Qed.

Lemma collectBlack_total (board : Board) (gs : GameState) :
  playable board -> exists l, collectBlack board gs = Ok l.
Proof.
  intros (Hg & Hw & Hb). unfold collectBlack. apply forPush_total.
  intros [r c] Hin. apply squares_spec in Hin. unfold candidateAt.
  destruct (grid_cellAt board r c Hg Hin) as [s Hs]. rewrite Hs. cbn [bind].
  destruct (asPiece (Some s)) as [piece|]; [|eauto].
  destruct (String.eqb (charAt piece 0) "b"); [|eauto].
  destruct (move_generators_total board gs r c Hg Hw Hb Hin) as [_ [l ->]].
  cbn [bind]. eauto.
Qed.

(** [makeComputerMove] once the candidate and the destination are drawn. *)
Lemma makeComputerMove_drawn (board : Board) (gs : GameState) (u1 u2 : Q)
    (l : list Candidate) (cand : Candidate) (m : Square) (b2 : Board)
    (gs2 : GameState) :
  collectBlack board gs = Ok l -> l <> [] ->
  idx l (randomIndex u1 (length l)) = Some cand ->
  idx (cMoves cand) (randomIndex u2 (length (cMoves cand))) = Some m ->
  applyMove (cRow cand, cCol cand) m (cPiece cand) board gs = Ok (b2, gs2) ->
  makeComputerMove board gs u1 u2 =
    (promote <- canPromotePawn (fst m) (snd m) b2 ;;
     board3 <- (if promote then promotePawn (fst m) (snd m) b2 "Q" else Ok b2) ;;
     Ok (board3, gs2)).
Proof.
  intros Hl Hne Hcand Hm Happ. unfold makeComputerMove. rewrite Hl.
  cbv beta iota zeta delta [bind].
  destruct l as [|c0 l0]; [contradiction|]. rewrite Hcand.
  cbv beta iota zeta. rewrite Hm. cbv beta iota.
  unfold applyMove in Happ. cbn [fst snd] in Happ.
  splitBind Happ as st Hst. splitBind Happ as b1 Hb1. splitBind Happ as b2' Hb2.
  injection Happ as -> <-.
  rewrite Hst. cbv beta iota. rewrite Hb1. cbv beta iota. rewrite Hb2.
  reflexivity.
Qed.

(** What a black piece that has just arrived at [m] does to the promotion
    test. *)
Lemma canPromotePawn_black (board : Board) (m : Square) (p : string) :
  cellAt board (fst m) (snd m) = Ok (Some p) -> charAt p 0 = "b" ->
  canPromotePawn (fst m) (snd m) board
  = Ok (String.eqb (charAt p 1) "P" && (fst m =? 7)).
Proof.
  intros Hdest Hb. unfold canPromotePawn. rewrite Hdest. simpl.
  destruct (String.eqb_spec p "") as [->|_]; [discriminate Hb|].
  rewrite Hb. simpl. now destruct (String.eqb (charAt p 1) "P").
Qed.

Lemma initialBoard_playable : playable initialBoard.
Proof.
  split; [exact initialBoard_grid|].
  split; apply noFarRankPawnb_spec; (exact initialBoard_grid || reflexivity).
Qed.

(** ** What the check test reads of a cell *)

Lemma forPush_ext {A B : Type} (f g : A -> result (list B)) (xs : list A) :
  (forall x, In x xs -> f x = g x) -> forPush f xs = forPush g xs.
Proof.
  induction xs as [|x xs IH]; simpl; intros H; [reflexivity|].
  rewrite (H x) by now left. rewrite IH by (intros; apply H; now right).
  reflexivity.
Qed.

Lemma anyM_ext {A : Type} (f g : A -> result bool) (xs : list A) :
  (forall x, In x xs -> f x = g x) -> anyM f xs = anyM g xs.
Proof.
  induction xs as [|x xs IH]; simpl; intros H; [reflexivity|].
  rewrite (H x) by now left. rewrite IH by (intros; apply H; now right).
  reflexivity.
Qed.

Lemma bind_ext {A B : Type} (m : result A) (f g : A -> result B) :
  (forall a, f a = g a) -> bind m f = bind m g.
Proof. intros H. destruct m; simpl; [apply H|reflexivity]. Qed.

Lemma asPiece_piece (s : string) : s <> "" -> asPiece (Some s) = Some s.
Proof. intros H. apply asPiece_Some. auto. Qed.

(** Reading the cell [(r, c)] of two boards of equal shade. *)
Ltac byShade Hs b1 b2 r c :=
  let E := fresh "E" in
  let v1 := fresh "v" in
  let v2 := fresh "v" in
  pose proof (Hs r c) as E; unfold shadeAt, shade in E;
  destruct (cellAt b1 r c) as [v1|], (cellAt b2 r c) as [v2|];
  cbn [bind] in E |- *; try discriminate E;
  [ destruct (asPiece v1), (asPiece v2); try discriminate E;
    [ injection E as E; rewrite ?E | clear E ]
  | injection E as E; rewrite E; reflexivity ].

Section Shades.

Variables b1 b2 : Board.
Hypothesis same_shades : forall r c, shadeAt b1 r c = shadeAt b2 r c.

Lemma slide_shade (fuel : nat) (piece : string) (r c dr dc : Z) :
  slide fuel b1 piece r c dr dc = slide fuel b2 piece r c dr dc.
Proof.
  revert r c. induction fuel as [|fuel IH]; intros r c; simpl; [reflexivity|].
  destruct (onBoard r c); [|reflexivity].
  byShade same_shades b1 b2 r c; [reflexivity|now rewrite IH].
Qed.

Lemma slides_shade (piece : string) (row col : Z) (directions : list (Z * Z)) :
  slides b1 piece row col directions = slides b2 piece row col directions.
Proof. unfold slides. apply forPush_ext. intros d _. apply slide_shade. Qed.

Lemma steps_shade (piece : string) (row col : Z) (offsets : list (Z * Z)) :
  steps b1 piece row col offsets = steps b2 piece row col offsets.
Proof.
  unfold steps. apply forPush_ext. intros o _. cbv zeta.
  destruct (onBoard (row + fst o) (col + snd o)); [|reflexivity].
  byShade same_shades b1 b2 (row + fst o) (col + snd o); reflexivity.
Qed.

Lemma pawnForward_shade (row col : Z) (isWhite : bool) :
  pawnForward b1 row col isWhite = pawnForward b2 row col isWhite.
Proof.
  unfold pawnForward. cbv zeta.
  set (direction := if isWhite then -1 else 1).
  destruct (inRange (row + direction)); [|reflexivity].
  byShade same_shades b1 b2 (row + direction) col; [reflexivity|].
  destruct (row =? (if isWhite then 6 else 1)); [|reflexivity].
  byShade same_shades b1 b2 (row + 2 * direction) col; reflexivity.
Qed.

Lemma pawnCaptures_shade (row col : Z) (piece : string) (isWhite : bool) :
  pawnCaptures b1 row col piece isWhite = pawnCaptures b2 row col piece isWhite.
Proof.
  unfold pawnCaptures. cbv zeta. apply forPush_ext. intros offset _.
  destruct (inRange (col + offset)); [|reflexivity].
  byShade same_shades b1 b2 (row + (if isWhite then -1 else 1)) (col + offset);
    reflexivity.
Qed.

(** The raw moves of a piece depend on the other cells through their shade
    only. *)
Lemma getRawPossibleMoves_shade (row col : Z) :
  cellAt b1 row col = cellAt b2 row col ->
  getRawPossibleMoves row col b1 = getRawPossibleMoves row col b2.
Proof.
  intros Hc. unfold getRawPossibleMoves. rewrite Hc.
  apply bind_ext. intros here.
  destruct (asPiece here) as [piece|]; [|reflexivity]. cbv zeta.
  rewrite pawnForward_shade, pawnCaptures_shade, !slides_shade, !steps_shade.
  reflexivity.
Qed.

End Shades.

Lemma repainted_shade (isWhite : bool) (b1 b2 : Board) :
  repainted isWhite b1 b2 -> forall r c, shadeAt b1 r c = shadeAt b2 r c.
Proof.
  intros Hr r c. unfold shadeAt, shade.
  destruct (Hr r c) as [->|(s1 & s2 & -> & -> & N1 & N2 & Ecol & _)];
    [reflexivity|].
  cbn [bind]. rewrite !asPiece_piece by assumption. now rewrite Ecol.
Qed.

Lemma isSquareUnderAttack_repaint (isWhite : bool) (b1 b2 : Board) (row col : Z) :
  repainted isWhite b1 b2 ->
  isSquareUnderAttack row col b1 (negb isWhite)
  = isSquareUnderAttack row col b2 (negb isWhite).
Proof.
  intros Hr. pose proof (repainted_shade _ _ _ Hr) as Hs.
  unfold isSquareUnderAttack. apply anyM_ext. intros [r c] _.
  destruct (Hr r c) as [E|(s1 & s2 & E1 & E2 & N1 & N2 & Ecol & Ew & _)].
  - pose proof (getRawPossibleMoves_shade b1 b2 Hs r c E) as Hraw.
    rewrite E, Hraw. reflexivity.
  - rewrite E1, E2. cbn [bind]. rewrite !asPiece_piece by assumption. cbv zeta.
    rewrite <- Ecol, Ew. destruct isWhite; cbn [Bool.eqb negb]; reflexivity.
Qed.

Lemma firstAt_repaint (isWhite : bool) (b1 b2 : Board) (sqs : list Square) :
  repainted isWhite b1 b2 ->
  firstAt b1 (kingOf isWhite) sqs = firstAt b2 (kingOf isWhite) sqs.
Proof.
  intros Hr. induction sqs as [|[r c] sqs IH]; simpl; [reflexivity|].
  destruct (Hr r c) as [->|(s1 & s2 & -> & -> & _ & _ & _ & _ & K1 & K2)].
  - destruct (cellAt b2 r c) as [here|]; [|reflexivity]. cbn [bind].
    now rewrite IH.
  - cbn [bind isStr].
    destruct (String.eqb_spec s1 (kingOf isWhite)); [contradiction|].
    destruct (String.eqb_spec s2 (kingOf isWhite)); [contradiction|].
    exact IH.
Qed.

(** Replacing pieces of one side, the king apart, by other pieces of that
    side changes nothing to whether its king is in check. *)
Lemma isKingInCheck_repaint (isWhite : bool) (b1 b2 : Board) :
  repainted isWhite b1 b2 -> isKingInCheck b1 isWhite = isKingInCheck b2 isWhite.
Proof.
  intros Hr. unfold isKingInCheck, findKing.
  change (if isWhite then "wK" else "bK") with (kingOf isWhite).
  rewrite (firstAt_repaint isWhite b1 b2 squares Hr).
  destruct (firstAt b2 (kingOf isWhite) squares) as [[[r c]|]|]; cbn [bind];
    try reflexivity.
  now apply isSquareUnderAttack_repaint.
Qed.

Lemma setCell_repainted (isWhite : bool) (board board' : Board) (r c : Z)
    (p new : string) :
  cellAt board r c = Ok (Some p) -> setCell board r c new = Ok board' ->
  p <> "" -> new <> "" -> charAt p 0 = charAt new 0 ->
  String.eqb (charAt p 0) "w" = isWhite ->
  p <> kingOf isWhite -> new <> kingOf isWhite ->
  repainted isWhite board board'.
Proof.
  intros Hp Hset N1 N2 Ecol Ew K1 K2 r' c'.
  rewrite (cellAt_setCell _ _ _ _ _ r' c' Hset).
  destruct ((r' =? r) && (c' =? c)) eqn:E; [|now left].
  apply andb_true_iff in E as [Er Ec]. apply Z.eqb_eq in Er, Ec. subst r' c'.
  right. exists p, new. repeat split; assumption.
Qed.

(** What [promotePawn] does to a pawn, as a repainting. *)
Lemma promotePawn_repainted (board board' : Board) (row col : Z)
    (newPiece p : string) :
  promotePawn row col board newPiece = Ok board' ->
  cellAt board row col = Ok (Some p) -> newPiece <> "K" ->
  repainted (String.eqb (charAt p 0) "w") board board'.
Proof.
  intros H Hp HK. unfold promotePawn in H. rewrite Hp in H. cbn [bind] in H.
  destruct (String.eqb_spec p "") as [->|Hne].
  { injection H as <-. intros r c. now left. }
  rewrite (asPiece_piece p Hne) in H.
  destruct (String.eqb_spec (charAt p 1) "P") as [HP|HP];
    [|injection H as <-; intros r c; now left].
  cbv zeta in H.
  destruct p as [|a p']; [contradiction|].
  change (charAt (String a p') 0) with (String a "") in *.
  apply (setCell_repainted _ board board' row col (String a p')
           (String a "" ++ newPiece)%string Hp H).
  - discriminate.
  - discriminate.
  - reflexivity.
  - reflexivity.
  - intros E. rewrite E in HP.
    destruct (String.eqb (String a "") "w"); discriminate HP.
  - intros E. destruct (String.eqb (String a "") "w");
      cbn [append kingOf] in E; injection E as _ E; contradiction.
Qed.

(** ** Applying a move that [getPossibleMoves] returned *)

(** A destination returned by [getPossibleMoves] can be applied, and the
    mover's king is not in check on the board obtained. *)
Lemma applied_move_safe (board : Board) (gs : GameState)
    (row col : Z) (piece : string) (l : list Square) (m : Square) :
  grid board ->
  cellAt board row col = Ok (Some piece) -> piece <> "" ->
  getPossibleMoves row col board gs = Ok l -> In m l ->
  exists board' gs',
    applyMove (row, col) m piece board gs = Ok (board', gs') /\
    grid board' /\
    isKingInCheck board' (String.eqb (charAt piece 0) "w") = Ok false.
Proof.
  intros Hg Hc Hne Hl Hm.
  pose proof (cellAt_Some_col _ _ _ _ Hg Hc) as Hon.
  pose proof (getPossibleMoves_onBoard _ _ _ gs _ Hg Hon Hl m Hm) as Hmon.
  destruct (applyMove_grid (row, col) m piece board gs Hg Hon Hmon)
    as (B & G & HB & HgB).
  exists B, G. split; [assumption|]. split; [assumption|].
  destruct (getPossibleMoves_Ok _ _ _ _ _ _ Hc Hne Hl)
    as (raw & castling & Hraw & Hcas & Hkeep).
  destruct (proj1 (keepSafe_In _ _ _ _ _ _ _ m Hkeep) Hm)
    as (Hcand & T & HT & Hchk).
  pose proof HT as HT'. unfold testMove in HT'. splitBind HT' as T1 HT1.
  destruct (setCell_Ok_cellAt _ _ _ _ _ HT1) as [old Hold].
  unfold applyMove in HB. cbn [fst snd] in HB.
  destruct (castlingRook (Some piece) row col (snd m)) as [[[r c1] c2]|] eqn:Ehop.
  - destruct (castlingRook_Some _ _ _ _ _ _ _ Ehop)
      as (w & kingside & -> & -> & -> & -> & Hdest & -> & ->).
    assert (HK : String.eqb (charAt (kingOf w) 1) "K" = true)
      by (destruct w; reflexivity).
    assert (HW : String.eqb (charAt (kingOf w) 0) "w" = w)
      by (destruct w; reflexivity).
    rewrite HK in Hcas. rewrite HW in *.
    apply in_app_or in Hcand as [Hin|Hin].
    { pose proof (king_raw_near _ _ _ _ _ _ Hc Hraw Hin) as Hnear.
      rewrite Hdest in Hnear. destruct kingside; lia. }
    destruct (castlingMoves_In _ _ _ _ _ Hcas Hin) as [Hrow _].
    assert (Em : m = (homeRow w, if kingside then 6 else 2))
      by (destruct m as [mr mc]; simpl in Hrow, Hdest; unfold homeRow;
          now rewrite Hrow, Hdest).
    subst m. clear Hrow Hdest.
    destruct (castlingMoves_spec _ _ _ _ Hg Hcas) as [Hks Hqs].
    assert (Hcells : cellAt board (homeRow w) (if kingside then 7 else 0)
                       = Ok (Some (rookOf w)) /\
                     cellAt board (homeRow w) (if kingside then 5 else 3)
                       = Ok (Some "")).
    { destruct kingside.
      - apply Hks in Hin. destruct Hin as (_ & Hb & Hr & _).
        split; [assumption|]. apply Hb. simpl. auto.
      - apply Hqs in Hin. destruct Hin as (_ & Hb & Hr & _).
        split; [assumption|]. apply Hb. simpl. auto. }
    destruct Hcells as [Hrook Hfill].
    destruct (castle_applied_safe w kingside board T Hg Hrook Hfill HT Hchk)
      as (b1 & b2 & A & Hb1 & Hb2 & HA & Hsafe).
    destruct (setCell_Ok_cellAt _ _ _ _ _ Hb2) as [old1 Hold1].
    destruct (updateGameState_run (homeRow w) 4 (homeRow w)
                (if kingside then 6 else 2) board b1 gs _ (Some old1) Hc)
      as [gs' Hgs'];
      [simpl snd in Ehop; rewrite Ehop; exact Hb1|exact Hold1|].
    cbn [fst snd] in *. rewrite Hgs' in HB. cbn [bind fst snd] in HB.
    rewrite Hb2 in HB. cbn [bind] in HB. rewrite HA in HB. cbn [bind] in HB.
    injection HB as <- _. exact Hsafe.
  - destruct (updateGameState_run row col (fst m) (snd m) board board gs _
                (Some old) Hc)
      as [gs' Hgs']; [now rewrite Ehop|exact Hold|].
    rewrite Hgs' in HB. cbn [bind fst snd] in HB.
    rewrite HT1 in HB. cbn [bind] in HB. rewrite HT' in HB. cbn [bind] in HB.
    injection HB as <- _. exact Hchk.
Qed.

Lemma applyMove_origin (from to : Square) (piece : string) (board board' : Board)
    (gs gs' : GameState) :
  applyMove from to piece board gs = Ok (board', gs') ->
  cellAt board' (fst from) (snd from) = Ok (Some "").
Proof.
  unfold applyMove. intros H. splitBind H as st Hst. splitBind H as b1 Hb1.
  splitBind H as b2 Hb2. injection H as <- _.
  rewrite (cellAt_setCell _ _ _ _ _ (fst from) (snd from) Hb2).
  now rewrite !Z.eqb_refl.
Qed.

Lemma promotePawn_total (board : Board) (row col : Z) (newPiece : string) :
  grid board -> onBoard row col = true ->
  exists board', promotePawn row col board newPiece = Ok board' /\ grid board'.
Proof.
  intros Hg Hon. unfold promotePawn.
  destruct (grid_cellAt board row col Hg Hon) as [s ->]. cbn [bind].
  destruct (asPiece (Some s)) as [piece|]; [|eauto].
  destruct (String.eqb (charAt piece 1) "P"); [|eauto].
  cbv zeta. now apply setCell_grid.
Qed.

Lemma promotePawn_other (board board' : Board) (row col r c : Z)
    (newPiece : string) :
  promotePawn row col board newPiece = Ok board' -> (r, c) <> (row, col) ->
  cellAt board' r c = cellAt board r c.
Proof.
  unfold promotePawn. intros H Hne. splitBind H as here Hhere.
  destruct (asPiece here) as [piece|]; [|now injection H as <-].
  destruct (String.eqb (charAt piece 1) "P"); [|now injection H as <-].
  rewrite (cellAt_setCell _ _ _ _ _ r c H).
  destruct (Z.eqb_spec r row) as [->|]; [|reflexivity].
  destruct (Z.eqb_spec c col) as [->|]; [|reflexivity]. contradiction.
Qed.

Lemma promotePawn_pawn (board board' : Board) (row col : Z) (newPiece p : string) :
  cellAt board row col = Ok (Some p) -> p <> "" -> charAt p 1 = "P" ->
  promotePawn row col board newPiece = Ok board' ->
  cellAt board' row col = Ok (Some (charAt p 0 ++ newPiece)%string).
Proof.
  intros Hp Hne HP H. unfold promotePawn in H. rewrite Hp in H. cbn [bind] in H.
  rewrite (asPiece_piece p Hne), HP in H. cbn [String.eqb Ascii.eqb Bool.eqb] in H.
  cbv zeta in H. rewrite (cellAt_setCell _ _ _ _ _ row col H).
  now rewrite !Z.eqb_refl.
Qed.

Lemma collectBlack_nonempty (board : Board) (gs : GameState) (l : list Candidate) :
  hasAnyValidMoves board false gs = Ok true ->
  collectBlack board gs = Ok l -> l <> [].
Proof.
  intros Hany Hl. unfold hasAnyValidMoves in Hany.
  destruct (anyM_true _ _ Hany) as ([r c] & Hin & Hbody).
  destruct (forPush_Ok_each _ _ _ _ Hl Hin) as (ys & Hys & Hsub).
  unfold candidateAt in Hys. splitBind Hbody as here Hhere.
  rewrite Hhere in Hys. cbn [bind] in Hys.
  destruct (asPiece here) as [piece|]; [|discriminate Hbody].
  destruct (String.eqb (charAt piece 0) "b"); [|discriminate Hbody].
  splitBind Hbody as moves Hmoves. rewrite Hmoves in Hys. cbn [bind] in Hys.
  destruct moves as [|m0 moves]; [discriminate Hbody|].
  injection Hys as <-. intros ->.
  exact (Hsub _ (or_introl eq_refl)).
Qed.

(** The run of [makeComputerMove] when black has a candidate. *)
Lemma makeComputerMove_chosen (board : Board) (gs : GameState) (u1 u2 : Q)
    (l : list Candidate) :
  grid board -> isDraw u1 -> isDraw u2 ->
  collectBlack board gs = Ok l -> l <> [] ->
  exists cand m b2 gs2,
    In cand l /\ In m (cMoves cand) /\ m <> (cRow cand, cCol cand) /\
    onBoard (fst m) (snd m) = true /\
    applyMove (cRow cand, cCol cand) m (cPiece cand) board gs = Ok (b2, gs2) /\
    grid b2 /\
    isKingInCheck b2 false = Ok false /\
    cellAt b2 (fst m) (snd m) = Ok (Some (cPiece cand)) /\
    makeComputerMove board gs u1 u2 =
      (board3 <- (if String.eqb (charAt (cPiece cand) 1) "P" && (fst m =? 7)
                  then promotePawn (fst m) (snd m) b2 "Q" else Ok b2) ;;
       Ok (board3, gs2)).
Proof.
  intros Hg Hu1 Hu2 Hl Hlne.
  destruct (idx_in_range l (randomIndex u1 (length l))) as [cand Hcand].
  { apply randomIndex_range; [assumption|].
    destruct l; [contradiction|simpl; lia]. }
  destruct (collectBlack_In board gs l cand Hg Hl (idx_In _ _ _ Hcand))
    as (Hon & Hc & Hne & Hblack & Hmoves & Hnonempty).
  destruct (idx_in_range (cMoves cand)
              (randomIndex u2 (length (cMoves cand)))) as [m Hm].
  { apply randomIndex_range; [assumption|].
    destruct (cMoves cand); [contradiction|simpl; lia]. }
  pose proof (idx_In _ _ _ Hm) as Hin.
  pose proof (getPossibleMoves_onBoard _ _ _ gs _ Hg Hon Hmoves m Hin) as Hmon.
  destruct (applied_move_safe board gs _ _ _ _ m Hg Hc Hne Hmoves Hin)
    as (b2 & gs2 & Happ & Hg2 & Hsafe).
  rewrite Hblack in Hsafe. cbn [String.eqb Ascii.eqb Bool.eqb] in Hsafe.
  assert (Hmne : m <> (cRow cand, cCol cand)).
  { eapply landable_not_origin; eauto.
    eapply getPossibleMoves_landable; eauto. }
  pose proof (applyMove_dest _ _ _ _ _ _ _ Happ Hmne) as Hdest.
  pose proof (idx_In _ _ _ Hcand) as Hcin.
  exists cand, m, b2, gs2. do 8 (split; [assumption|]).
  rewrite (makeComputerMove_drawn board gs u1 u2 l cand m b2 gs2
             Hl Hlne Hcand Hm Happ).
  rewrite (canPromotePawn_black b2 m (cPiece cand) Hdest Hblack).
  reflexivity.
Qed.

(** The computer's move on a playable board. *)
Lemma makeComputerMove_result (board : Board) (gs : GameState) (u1 u2 : Q) :
  playable board -> isDraw u1 -> isDraw u2 ->
  exists board' gs',
    makeComputerMove board gs u1 u2 = Ok (board', gs') /\
    playable board' /\ rightsLe gs' gs /\
    (hasAnyValidMoves board false gs = Ok true ->
     board' <> board /\ isKingInCheck board' false = Ok false).
Proof.
  intros Hplay Hu1 Hu2. pose proof Hplay as (Hg & Hw & Hb).
  destruct (collectBlack_total board gs Hplay) as [l Hl].
  destruct l as [|c0 l0] eqn:El.
  { exists board, gs. unfold makeComputerMove. rewrite Hl. cbn [bind].
    split; [reflexivity|]. split; [assumption|]. split; [apply rightsLe_refl|].
    intros Hany. exfalso.
    exact (collectBlack_nonempty board gs [] Hany Hl eq_refl). }
  rewrite <- El in Hl.
  assert (Hlne : l <> []) by (rewrite El; discriminate).
  destruct (makeComputerMove_chosen board gs u1 u2 l Hg Hu1 Hu2 Hl Hlne)
    as (cand & m & b2 & gs2 & Hcand & Hm & Hmne & Hmon & Happ & Hg2 & Hsafe
        & Hdest & Hrun).
  destruct (collectBlack_In board gs l cand Hg Hl Hcand)
    as (Hon & Hc & Hne & Hblack & _).
  pose proof (applyMove_origin _ _ _ _ _ _ _ Happ) as Horigin.
  cbn [fst snd] in Horigin.
  pose proof (applyMove_le _ _ _ _ _ _ _ Happ) as Hle.
  rewrite Hrun.
  destruct (String.eqb_spec (charAt (cPiece cand) 1) "P") as [HP|HP];
    [destruct (Z.eqb_spec (fst m) 7) as [H7|H7]|]; cbn [andb].
  - destruct (promotePawn_total b2 (fst m) (snd m) "Q" Hg2 Hmon)
      as (b3 & Hb3 & Hg3).
    rewrite Hb3. cbn [bind]. exists b3, gs2. split; [reflexivity|].
    pose proof (promotePawn_pawn _ _ _ _ "Q" _ Hdest Hne HP Hb3) as Hnew.
    split; [|split; [assumption|]].
    + split; [assumption|].
      assert (Hfar : forall w, noFarRankPawn board w -> noFarRankPawn b3 w).
      { intros w Hfar r c (s & Hs & Hsne & Hcol & HsP & Hr).
        destruct (Z.eq_dec r (fst m)) as [Er|Er];
          [destruct (Z.eq_dec c (snd m)) as [Ec|Ec]|].
        - rewrite Er, Ec, Hnew, Hblack in Hs. injection Hs as <-.
          discriminate HsP.
        - rewrite (promotePawn_other _ _ _ _ r c _ Hb3) in Hs
            by (destruct m; simpl in *; congruence).
          destruct (applyMove_rows _ _ _ _ _ _ _ Happ r c s Hs Hsne)
            as [[Erc _]|[c1 Hc1]].
          + subst m. simpl in Ec. contradiction.
          + apply (Hfar r c1). exists s. auto.
        - rewrite (promotePawn_other _ _ _ _ r c _ Hb3) in Hs
            by (destruct m; simpl in *; congruence).
          destruct (applyMove_rows _ _ _ _ _ _ _ Happ r c s Hs Hsne)
            as [[Erc _]|[c1 Hc1]].
          + subst m. simpl in Er. contradiction.
          + apply (Hfar r c1). exists s. auto. }
      split; apply Hfar; assumption.
    + intros _. split.
      * intros ->.
        rewrite (promotePawn_other _ _ _ _ _ _ _ Hb3) in Hc; [congruence|].
        destruct m; simpl. congruence.
      * pose proof (promotePawn_repainted _ _ _ _ _ _ Hb3 Hdest) as Hrep.
        rewrite Hblack in Hrep. cbn [String.eqb Ascii.eqb Bool.eqb] in Hrep.
        rewrite <- (isKingInCheck_repaint false b2 b3); [assumption|].
        apply Hrep. discriminate.
  - cbn [bind]. exists b2, gs2. split; [reflexivity|].
    split; [|split; [assumption|]].
    + split; [assumption|].
      split; eapply applyMove_noFarRankPawn; eauto.
      * intros (Hcw & _). rewrite Hblack in Hcw. discriminate Hcw.
      * intros (_ & _ & H7'). contradiction.
    + intros _. split; [|assumption]. intros ->. congruence.
  - cbn [bind]. exists b2, gs2. split; [reflexivity|].
    split; [|split; [assumption|]].
    + split; [assumption|].
      split; eapply applyMove_noFarRankPawn; eauto.
      * intros (Hcw & _). rewrite Hblack in Hcw. discriminate Hcw.
      * intros (_ & HP' & _). contradiction.
    + intros _. split; [|assumption]. intros ->. congruence.
Qed.

(** X12: on a playable board (a grid with no pawn on its far rank), whatever
    the two draws, [makeComputerMove] returns, the board it returns is
    playable again (a black pawn that reaches row 7 has become a queen), and
    the rights it returns are among those it was given. *)
Theorem makeComputerMove_playable (board : Board) (gs : GameState) (u1 u2 : Q) :
  playable board -> isDraw u1 -> isDraw u2 ->
  exists board' gs',
    makeComputerMove board gs u1 u2 = Ok (board', gs') /\
    playable board' /\ rightsLe gs' gs.
Proof.
  intros Hplay Hu1 Hu2.
  destruct (makeComputerMove_result board gs u1 u2 Hplay Hu1 Hu2)
    as (board' & gs' & Hrun & Hplay' & Hle & _).
  exists board', gs'. auto.
Qed.

Lemma makeComputerMove_playable_start :
  exists board' gs',
    makeComputerMove initialBoard initialGameState (1 # 2) (1 # 2)
      = Ok (board', gs') /\
    playable board' /\ rightsLe gs' initialGameState.
Proof.
  apply (makeComputerMove_playable initialBoard initialGameState (1 # 2) (1 # 2)).
  - exact initialBoard_playable.
  - exact half_isDraw.
  - exact half_isDraw.
Defined.

(** X13: when black has a legal move, [makeComputerMove] makes one: on a
    playable board, whatever the draws, it returns a board that differs from
    the one it was given and on which the black king is not in check (also
    after the promotion of a pawn that reached row 7). *)
Theorem makeComputerMove_king_safe (board : Board) (gs : GameState) (u1 u2 : Q) :
  playable board -> isDraw u1 -> isDraw u2 ->
  hasAnyValidMoves board false gs = Ok true ->
  exists board' gs',
    makeComputerMove board gs u1 u2 = Ok (board', gs') /\
    board' <> board /\
    isKingInCheck board' false = Ok false.
Proof.
  intros Hplay Hu1 Hu2 Hany.
  destruct (makeComputerMove_result board gs u1 u2 Hplay Hu1 Hu2)
    as (board' & gs' & Hrun & _ & _ & Hmoved).
  destruct (Hmoved Hany) as [Hdiff Hsafe].
  exists board', gs'. auto.
Qed.

Lemma makeComputerMove_king_safe_start :
  exists board' gs',
    makeComputerMove initialBoard initialGameState (1 # 2) (1 # 2)
      = Ok (board', gs') /\
    board' <> initialBoard /\
    isKingInCheck board' false = Ok false.
Proof.
  apply (makeComputerMove_king_safe initialBoard initialGameState (1 # 2) (1 # 2)).
  - exact initialBoard_playable.
  - exact half_isDraw.
  - exact half_isDraw.
  - vm_compute. reflexivity.
Defined.

(** ** Promotion *)

(** X14: after [promotePawn] with a piece letter other than P the square no
    longer qualifies for promotion, and a second [promotePawn] on it, with
    any letter, changes nothing. *)
Theorem promotePawn_once (board board' : Board) (row col : Z) (newPiece : string) :
  promotePawn row col board newPiece = Ok board' ->
  charAt newPiece 0 <> "P" ->
  canPromotePawn row col board' = Ok false /\
  forall again, promotePawn row col board' again = Ok board'.
Proof.
  intros H HnotP.
  assert (Hcell : exists v, cellAt board' row col = Ok v /\
                            forall t, asPiece v = Some t -> charAt t 1 <> "P").
  { unfold promotePawn in H. destruct (cellAt board row col) as [here|] eqn:E;
      [|discriminate H]. cbn [bind] in H.
    destruct (asPiece here) as [p|] eqn:Ep.
    - destruct (String.eqb_spec (charAt p 1) "P") as [HP|HP].
      + cbv zeta in H. exists (Some (charAt p 0 ++ newPiece)%string). split.
        * rewrite (cellAt_setCell _ _ _ _ _ row col H). now rewrite !Z.eqb_refl.
        * apply asPiece_Some in Ep as [_ Hne].
          destruct p as [|a p']; [contradiction|].
          intros t Ht. apply asPiece_Some in Ht as [Ht _]. injection Ht as <-.
          exact HnotP.
      + injection H as <-. exists here. split; [assumption|].
        intros t Ht. rewrite Ep in Ht. now injection Ht as <-.
    - injection H as <-. exists here. split; [assumption|].
      intros t Ht. rewrite Ep in Ht. discriminate Ht. }
  destruct Hcell as (v & Hv & Hkind).
  unfold canPromotePawn, promotePawn. rewrite Hv. cbn [bind].
  destruct (asPiece v) as [t|]; [|split; reflexivity].
  destruct (String.eqb_spec (charAt t 1) "P") as [HP|_]; [|split; reflexivity].
  exfalso. exact (Hkind t eq_refl HP).
Qed.

Lemma promotePawn_once_far_rank :
  exists board',
    promotePawn 0 2 farRankBoard "Q" = Ok board' /\
    canPromotePawn 0 2 board' = Ok false /\
    forall again, promotePawn 0 2 board' again = Ok board'.
Proof.
  eexists. split; [vm_compute; reflexivity|].
  apply (promotePawn_once farRankBoard _ 0 2 "Q");
    [vm_compute; reflexivity|discriminate].
Defined.

(** X15: [promotePawn] with a letter other than K leaves the check status of
    the king of the pawn's own side as it was: the check test reads of the
    promoted square only that it holds a piece of that side. *)
Theorem promotePawn_own_king (board board' : Board) (row col : Z)
    (newPiece p : string) :
  promotePawn row col board newPiece = Ok board' ->
  cellAt board row col = Ok (Some p) -> newPiece <> "K" ->
  isKingInCheck board' (String.eqb (charAt p 0) "w")
  = isKingInCheck board (String.eqb (charAt p 0) "w").
Proof.
  intros H Hp HK. symmetry. apply isKingInCheck_repaint.
  eapply promotePawn_repainted; eauto.
Qed.

(** The player's move as the game component makes it.  On a playable
    board, a destination that [getPossibleMoves] returned for a white piece
    can be applied; the white king is then not in check.  Unless the piece is
    the pawn ['wP'] arriving on row 0 (the case in which the component opens
    the promotion dialog) the board is playable again; in that case it is
    playable after [promotePawn] with any of the four letters the dialog
    offers, and the white king is still not in check. *)
Lemma player_move_result (board : Board) (gs : GameState) (row col : Z)
    (piece : string) (l : list Square) (m : Square) :
  playable board ->
  cellAt board row col = Ok (Some piece) -> charAt piece 0 = "w" ->
  (charAt piece 1 = "P" -> piece = "wP") ->
  getPossibleMoves row col board gs = Ok l -> In m l ->
  exists board' gs',
    applyMove (row, col) m piece board gs = Ok (board', gs') /\
    rightsLe gs' gs /\
    isKingInCheck board' true = Ok false /\
    if String.eqb piece "wP" && (fst m =? 0)
    then forall pieceType, In pieceType ["Q"; "R"; "B"; "N"] ->
         exists board'',
           promotePawn (fst m) (snd m) board' pieceType = Ok board'' /\
           playable board'' /\ isKingInCheck board'' true = Ok false
    else playable board'.
Proof.
  intros (Hg & Hw & Hb) Hc Hcol Hpawn Hl Hm.
  assert (Hne : piece <> "") by (intros ->; discriminate Hcol).
  pose proof (cellAt_Some_col _ _ _ _ Hg Hc) as Hon.
  pose proof (getPossibleMoves_onBoard _ _ _ gs _ Hg Hon Hl m Hm) as Hmon.
  destruct (applied_move_safe board gs row col piece l m Hg Hc Hne Hl Hm)
    as (board' & gs' & Happ & Hg' & Hsafe).
  rewrite Hcol in Hsafe. cbn [String.eqb Ascii.eqb Bool.eqb] in Hsafe.
  exists board', gs'. split; [assumption|].
  split; [eapply applyMove_le; eauto|]. split; [assumption|].
  assert (Hb' : noFarRankPawn board' false).
  { eapply applyMove_noFarRankPawn; eauto. intros (Hcw & _).
    rewrite Hcol in Hcw. discriminate Hcw. }
  assert (Hmne : m <> (row, col)).
  { eapply landable_not_origin; eauto.
    eapply getPossibleMoves_landable; eauto. }
  pose proof (applyMove_dest _ _ _ _ _ _ _ Happ Hmne) as Hdest.
  destruct (String.eqb_spec piece "wP") as [->|Hnot];
    [destruct (Z.eqb_spec (fst m) 0) as [H0|H0]|]; cbn [andb].
  - intros pieceType Hkind.
    destruct (promotePawn_total board' (fst m) (snd m) pieceType Hg' Hmon)
      as (board'' & Hpro & Hg'').
    exists board''. split; [assumption|].
    assert (HK : pieceType <> "K")
      by (intros ->; simpl in Hkind; intuition discriminate).
    assert (HP : charAt ("w" ++ pieceType) 1 <> "P")
      by (simpl in Hkind; intuition (subst; discriminate)).
    pose proof (promotePawn_pawn _ _ _ _ pieceType "wP" Hdest Hne eq_refl Hpro)
      as Hnew.
    split.
    + split; [assumption|].
      assert (Hfar : forall w, noFarRankPawn board w -> noFarRankPawn board'' w).
      { intros w Hfar r c (s & Hs & Hsne & Hscol & HsP & Hr).
        destruct (Z.eq_dec r (fst m)) as [Er|Er];
          [destruct (Z.eq_dec c (snd m)) as [Ec|Ec]|].
        - rewrite Er, Ec, Hnew in Hs. injection Hs as <-. contradiction.
        - rewrite (promotePawn_other _ _ _ _ r c _ Hpro) in Hs
            by (destruct m; simpl in *; congruence).
          destruct (applyMove_rows _ _ _ _ _ _ _ Happ r c s Hs Hsne)
            as [[Erc _]|[c1 Hc1]].
          + subst m. simpl in Ec. contradiction.
          + apply (Hfar r c1). exists s. auto.
        - rewrite (promotePawn_other _ _ _ _ r c _ Hpro) in Hs
            by (destruct m; simpl in *; congruence).
          destruct (applyMove_rows _ _ _ _ _ _ _ Happ r c s Hs Hsne)
            as [[Erc _]|[c1 Hc1]].
          + subst m. simpl in Er. contradiction.
          + apply (Hfar r c1). exists s. auto. }
      split; apply Hfar; assumption.
    + rewrite <- Hsafe. symmetry.
      apply (isKingInCheck_repaint true board' board'').
      exact (promotePawn_repainted _ _ _ _ _ _ Hpro Hdest HK).
  - split; [assumption|]. split; [|assumption].
    eapply applyMove_noFarRankPawn; eauto. intros (_ & _ & H0'). contradiction.
  - split; [assumption|]. split; [|assumption].
    eapply applyMove_noFarRankPawn; eauto. intros (_ & HP & _).
    apply Hnot. now apply Hpawn.
Qed.

Lemma promotePawn_own_king_far_rank :
  exists board',
    promotePawn 0 2 farRankBoard "Q" = Ok board' /\
    isKingInCheck board' (String.eqb (charAt "wP" 0) "w")
    = isKingInCheck farRankBoard (String.eqb (charAt "wP" 0) "w").
Proof.
  eexists. split; [vm_compute; reflexivity|].
  apply (promotePawn_own_king farRankBoard _ 0 2 "Q" "wP");
    [vm_compute; reflexivity|reflexivity|discriminate].
Defined.

Lemma lastStep_playable : playable lastStep.
Proof.
  assert (Hg : grid lastStep) by (split; [reflexivity|repeat constructor]).
  split; [exact Hg|].
  split; apply noFarRankPawnb_spec; (exact Hg || reflexivity).
Qed.

(** ** Castling, once and never again *)

Lemma updates_le (gs gs' : GameState) : updates gs gs' -> rightsLe gs' gs.
Proof.
  intros H. induction H as [gs|gs gs1 gs2 fr fc tr tc b b' Hstep _ IH].
  - apply rightsLe_refl.
  - eapply rightsLe_trans; [exact IH|]. eapply updateGameState_le; eauto.
Qed.

(** A king's move clears both rights of its color. *)
Lemma updateGameState_king (isWhite : bool) (fromRow fromCol toRow toCol : Z)
    (board board1 : Board) (gs gs1 : GameState) :
  cellAt board fromRow fromCol = Ok (Some (kingOf isWhite)) ->
  updateGameState fromRow fromCol toRow toCol board gs = Ok (board1, gs1) ->
  kingsideRight gs1 isWhite = false /\ queensideRight gs1 isWhite = false.
Proof.
  intros Hc H. unfold updateGameState in H. rewrite Hc in H. cbn [bind] in H.
  splitBind H as [b0 g0] Hk. cbn [fst snd] in H. splitBind H as target Ht.
  injection H as _ <-.
  assert (Hg0 : kingsideRight g0 isWhite = false /\
                queensideRight g0 isWhite = false).
  { destruct isWhite.
    - change (isStr (Some (kingOf true)) "wK") with true in Hk.
      cbv iota in Hk. splitBind Hk as b' Hb'. injection Hk as _ <-.
      split; reflexivity.
    - change (isStr (Some (kingOf false)) "wK") with false in Hk.
      change (isStr (Some (kingOf false)) "bK") with true in Hk.
      cbv iota in Hk. splitBind Hk as b' Hb'. injection Hk as _ <-.
      split; reflexivity. }
  pose proof (rightsLe_trans _ _ _
                (rookRights_le target toRow toCol
                   (rookRights (Some (kingOf isWhite)) fromRow fromCol g0))
                (rookRights_le (Some (kingOf isWhite)) fromRow fromCol g0))
    as (Hwk & Hwq & Hbk & Hbq).
  destruct Hg0 as [Hks Hqs].
  destruct isWhite; cbn [kingsideRight queensideRight] in *; auto.
Qed.

Lemma castlingMoves_no_rights (board : Board) (gs : GameState) (isWhite : bool) :
  kingsideRight gs isWhite = false -> queensideRight gs isWhite = false ->
  castlingMoves board gs isWhite = Ok [].
Proof.
  unfold castlingMoves. destruct isWhite; cbn [kingsideRight queensideRight];
    intros -> ->; reflexivity.
Qed.

(** X16: once a king has been moved (by any [updateGameState] call whose
    origin holds it), and whatever calls follow, castling is not offered to
    that color again: on every board [castlingMoves] returns the empty list
    and each destination [getPossibleMoves] returns for a king of that color
    is at most one column away. *)
Theorem king_move_ends_castling (isWhite : bool) (board board1 : Board)
    (gs gs1 gs2 : GameState) (fromRow fromCol toRow toCol : Z) :
  cellAt board fromRow fromCol = Ok (Some (kingOf isWhite)) ->
  updateGameState fromRow fromCol toRow toCol board gs = Ok (board1, gs1) ->
  updates gs1 gs2 ->
  forall b,
    castlingMoves b gs2 isWhite = Ok [] /\
    forall row col l m,
      cellAt b row col = Ok (Some (kingOf isWhite)) ->
      getPossibleMoves row col b gs2 = Ok l -> In m l ->
      col - 1 <= snd m <= col + 1.
Proof.
  intros Hc Hu Hups b.
  destruct (updateGameState_king _ _ _ _ _ _ _ _ _ Hc Hu) as [Hks Hqs].
  pose proof (updates_le _ _ Hups) as (Hwk & Hwq & Hbk & Hbq).
  assert (Hnone : forall b', castlingMoves b' gs2 isWhite = Ok []).
  { intros b'. apply castlingMoves_no_rights;
      destruct isWhite; cbn [kingsideRight queensideRight] in *; auto. }
  split; [apply Hnone|].
  intros row col l m Hk Hl Hm.
  assert (Hne : kingOf isWhite <> "") by (destruct isWhite; discriminate).
  destruct (getPossibleMoves_Ok _ _ _ _ _ _ Hk Hne Hl)
    as (raw & castling & Hraw & Hcas & Hkeep).
  replace (String.eqb (charAt (kingOf isWhite) 1) "K") with true in Hcas
    by (destruct isWhite; reflexivity).
  replace (String.eqb (charAt (kingOf isWhite) 0) "w") with isWhite in Hcas
    by (destruct isWhite; reflexivity).
  rewrite Hnone in Hcas. injection Hcas as <-. rewrite app_nil_r in Hkeep.
  destruct (proj1 (keepSafe_In _ _ _ _ _ _ _ m Hkeep) Hm) as [Hin _].
  exact (king_raw_near _ _ _ _ _ _ Hk Hraw Hin).
Qed.

Lemma king_move_ends_castling_castleReady :
  updateGameState 7 4 6 4 castleReady initialGameState
  = Ok (castleReady, clearWhite initialGameState) /\
  forall b,
    castlingMoves b (clearWhite initialGameState) true = Ok [] /\
    forall row col l m,
      cellAt b row col = Ok (Some (kingOf true)) ->
      getPossibleMoves row col b (clearWhite initialGameState) = Ok l -> In m l ->
      col - 1 <= snd m <= col + 1.
Proof.
  split; [reflexivity|].
  apply (king_move_ends_castling true castleReady castleReady initialGameState
           (clearWhite initialGameState) (clearWhite initialGameState) 7 4 6 4).
  - reflexivity.
  - reflexivity.
  - apply updates_refl.
Defined.

(** X17: the position after a castling move.  When [getPossibleMoves]
    returns, for a king on its home square, the square two columns away, the
    move can be applied; afterwards the king stands there, the rook of the
    corner stands on the square the king crossed, the king's square and the
    corner are empty, every other cell is as before, and both rights of that
    color are cleared. *)
Theorem castling_layout (isWhite kingside : bool) (board : Board)
    (gs : GameState) (l : list Square) :
  grid board ->
  cellAt board (homeRow isWhite) 4 = Ok (Some (kingOf isWhite)) ->
  getPossibleMoves (homeRow isWhite) 4 board gs = Ok l ->
  In (homeRow isWhite, if kingside then 6 else 2) l ->
  exists board' gs',
    applyMove (homeRow isWhite, 4) (homeRow isWhite, if kingside then 6 else 2)
      (kingOf isWhite) board gs = Ok (board', gs') /\
    cellAt board' (homeRow isWhite) (if kingside then 6 else 2)
      = Ok (Some (kingOf isWhite)) /\
    cellAt board' (homeRow isWhite) (if kingside then 5 else 3)
      = Ok (Some (rookOf isWhite)) /\
    cellAt board' (homeRow isWhite) 4 = Ok (Some "") /\
    cellAt board' (homeRow isWhite) (if kingside then 7 else 0) = Ok (Some "") /\
    (forall r c,
       r <> homeRow isWhite \/
       (c <> 4 /\ c <> (if kingside then 6 else 2) /\
        c <> (if kingside then 5 else 3) /\ c <> (if kingside then 7 else 0)) ->
       cellAt board' r c = cellAt board r c) /\
    kingsideRight gs' isWhite = false /\ queensideRight gs' isWhite = false.
Proof.
  intros Hg Hc Hl Hm.
  assert (Hne : kingOf isWhite <> "") by (destruct isWhite; discriminate).
  destruct (applied_move_safe board gs _ _ _ l _ Hg Hc Hne Hl Hm)
    as (board' & gs' & Happ & _).
  exists board', gs'. split; [assumption|].
  destruct (getPossibleMoves_Ok _ _ _ _ _ _ Hc Hne Hl)
    as (raw & castling & Hraw & Hcas & Hkeep).
  replace (String.eqb (charAt (kingOf isWhite) 1) "K") with true in Hcas
    by (destruct isWhite; reflexivity).
  replace (String.eqb (charAt (kingOf isWhite) 0) "w") with isWhite in Hcas
    by (destruct isWhite; reflexivity).
  destruct (proj1 (keepSafe_In _ _ _ _ _ _ _ _ Hkeep) Hm) as [Hcand _].
  apply in_app_or in Hcand as [Hin|Hin].
  { pose proof (king_raw_near _ _ _ _ _ _ Hc Hraw Hin) as Hnear.
    simpl in Hnear. destruct kingside; lia. }
  destruct (castlingMoves_spec _ _ _ _ Hg Hcas) as [Hks Hqs].
  assert (Hrook : cellAt board (homeRow isWhite) (if kingside then 7 else 0)
                  = Ok (Some (rookOf isWhite))).
  { destruct kingside.
    - apply Hks in Hin. now destruct Hin as (_ & _ & Hr & _).
    - apply Hqs in Hin. now destruct Hin as (_ & _ & Hr & _). }
  unfold applyMove in Happ. cbn [fst snd] in Happ.
  splitBind Happ as [b1 g1] Hu. cbn [fst snd] in Happ.
  splitBind Happ as b2 Hb2. splitBind Happ as b3 Hb3. injection Happ as <- <-.
  destruct (updateGameState_king _ _ _ _ _ _ _ _ _ Hc Hu) as [Hrk Hrq].
  destruct (updateGameState_board _ _ _ _ _ _ _ _ Hu) as (p & Hp & Hhop).
  rewrite Hc in Hp. injection Hp as <-.
  assert (Ehop : castlingRook (Some (kingOf isWhite)) (homeRow isWhite) 4
                   (if kingside then 6 else 2)
                 = Some (homeRow isWhite, (if kingside then 7 else 0),
                         (if kingside then 5 else 3)))
    by (destruct isWhite, kingside; reflexivity).
  rewrite Ehop in Hhop. cbn [hopBoard] in Hhop.
  destruct (relocateRook_cells _ _ _ _ _ Hhop) as (s & Hs & Hcells).
  rewrite Hrook in Hs. injection Hs as <-.
  assert (Hall : forall r c,
    cellAt b3 r c =
    if (r =? homeRow isWhite) && (c =? 4) then Ok (Some "")
    else if (r =? homeRow isWhite) && (c =? (if kingside then 6 else 2))
         then Ok (Some (kingOf isWhite))
    else if (r =? homeRow isWhite) && (c =? (if kingside then 7 else 0))
         then Ok (Some "")
    else if (r =? homeRow isWhite) && (c =? (if kingside then 5 else 3))
         then Ok (Some (rookOf isWhite))
    else cellAt board r c).
  { intros r c. rewrite (cellAt_setCell _ _ _ _ _ r c Hb3).
    rewrite (cellAt_setCell _ _ _ _ _ r c Hb2). now rewrite Hcells. }
  repeat split; try assumption.
  - rewrite Hall, Z.eqb_refl. now destruct kingside.
  - rewrite Hall, Z.eqb_refl. now destruct kingside.
  - rewrite Hall, !Z.eqb_refl. reflexivity.
  - rewrite Hall, Z.eqb_refl. now destruct kingside.
  - intros r c Hrc. rewrite Hall.
    destruct (Z.eqb_spec r (homeRow isWhite)) as [Er|Er]; [|reflexivity].
    destruct Hrc as [Hr|(H4 & Hd & H2 & H1)]; [contradiction|].
    cbn [andb].
    destruct (Z.eqb_spec c 4); [contradiction|].
    destruct (Z.eqb_spec c (if kingside then 6 else 2)); [contradiction|].
    destruct (Z.eqb_spec c (if kingside then 7 else 0)); [contradiction|].
    destruct (Z.eqb_spec c (if kingside then 5 else 3)); [contradiction|].
    reflexivity.
Qed.

Lemma castling_layout_castleReady :
  exists board' gs',
    applyMove (7, 4) (7, 2) "wK" castleReady initialGameState = Ok (board', gs') /\
    cellAt board' 7 2 = Ok (Some "wK") /\
    cellAt board' 7 3 = Ok (Some "wR") /\
    cellAt board' 7 4 = Ok (Some "") /\
    cellAt board' 7 0 = Ok (Some "") /\
    (forall r c, r <> 7 \/ (c <> 4 /\ c <> 2 /\ c <> 3 /\ c <> 0) ->
       cellAt board' r c = cellAt castleReady r c) /\
    kingsideRight gs' true = false /\ queensideRight gs' true = false.
Proof.
  apply (castling_layout true false castleReady initialGameState
           [(7, 5); (7, 3); (6, 3); (6, 4); (6, 5); (7, 6); (7, 2)]).
  - exact castleReady_grid.
  - reflexivity.
  - vm_compute. reflexivity.
  - simpl. tauto.
Defined.

(** ** The geometry of the raw moves *)

Lemma emptyAt_onBoard (board : Board) (r c : Z) :
  grid board -> emptyAt board r c -> onBoard r c = true.
Proof. intros Hg H. eapply cellAt_Some_col; eauto. Qed.

Lemma freeFor_onBoard (board : Board) (piece : string) (m : Square) :
  grid board -> freeFor board piece m -> onBoard (fst m) (snd m) = true.
Proof.
  intros Hg [H|(t & H & _)]; eapply cellAt_Some_col; eauto.
Qed.

Lemma forPush_In_iff {A B : Type} (f : A -> result (list B)) (xs : list A)
    (l : list B) (y : B) :
  forPush f xs = Ok l ->
  In y l <-> exists x ys, In x xs /\ f x = Ok ys /\ In y ys.
Proof.
  intros H. split; [apply forPush_In; assumption|].
  intros (x & ys & Hx & Hf & Hy).
  destruct (forPush_Ok_each f xs l x H Hx) as (ys' & Hf' & Hsub).
  rewrite Hf in Hf'. injection Hf' as <-. auto.
Qed.

(** One iteration body shared by the sliding and the stepping pieces: what
    the cell under the piece's path lets through. *)
Lemma slide_In_iff (fuel : nat) (board : Board) (piece : string)
    (dr dc : Z) :
  grid board ->
  forall r c l, slide fuel board piece r c dr dc = Ok l ->
  forall m, In m l <->
    exists k, 0 <= k /\ m = (r + k * dr, c + k * dc) /\
      (forall j, 0 <= j < k -> emptyAt board (r + j * dr) (c + j * dc)) /\
      freeFor board piece m.
Proof.
  intros Hg.
  assert (Hstart : forall r c m,
    (exists k, 0 <= k /\ m = (r + k * dr, c + k * dc) /\
       (forall j, 0 <= j < k -> emptyAt board (r + j * dr) (c + j * dc)) /\
       freeFor board piece m) -> onBoard r c = true).
  { intros r c m (k & Hk & -> & Hpath & Hfree).
    destruct (Z.eq_dec k 0) as [->|Hk0].
    - apply freeFor_onBoard in Hfree; [|assumption]. simpl in Hfree.
      now rewrite !Z.add_0_r in Hfree.
    - specialize (Hpath 0 ltac:(lia)). apply emptyAt_onBoard in Hpath; [|assumption].
      now rewrite !Z.add_0_r in Hpath. }
  induction fuel as [|fuel IH]; intros r c l H m.
  - simpl in H. destruct (onBoard r c) eqn:Hon; [discriminate H|].
    injection H as <-. split; [intros []|].
    intros Hex. apply Hstart in Hex. congruence.
  - simpl in H. destruct (onBoard r c) eqn:Hon.
    2:{ injection H as <-. split; [intros []|].
        intros Hex. apply Hstart in Hex. congruence. }
    destruct (grid_cellAt board r c Hg Hon) as [s Hs]. rewrite Hs in H.
    cbn [bind] in H.
    destruct (String.eqb_spec s "") as [->|Hne].
    + change (asPiece (Some "")) with (@None string) in H.
      splitBind H as rest Hrest. injection H as <-.
      specialize (IH _ _ _ Hrest m). split.
      * intros [<-|Hin].
        -- exists 0. split; [lia|]. split; [f_equal; lia|].
           split; [intros j Hj; lia|]. left. exact Hs.
        -- apply IH in Hin as (k & Hk & -> & Hpath & Hfree).
           exists (k + 1). split; [lia|]. split; [f_equal; lia|].
           split; [|replace (r + (k + 1) * dr, c + (k + 1) * dc)
                      with (r + dr + k * dr, c + dc + k * dc)
                      by (f_equal; lia); exact Hfree].
           intros j Hj. destruct (Z.eq_dec j 0) as [->|Hj0].
           ++ unfold emptyAt. now rewrite !Z.add_0_r.
           ++ specialize (Hpath (j - 1) ltac:(lia)).
              replace (r + dr + (j - 1) * dr) with (r + j * dr) in Hpath by lia.
              replace (c + dc + (j - 1) * dc) with (c + j * dc) in Hpath by lia.
              exact Hpath.
      * intros (k & Hk & -> & Hpath & Hfree).
        destruct (Z.eq_dec k 0) as [->|Hk0].
        -- left. f_equal; lia.
        -- right. apply IH. exists (k - 1). split; [lia|].
           split; [f_equal; lia|]. split.
           ++ intros j Hj. specialize (Hpath (j + 1) ltac:(lia)).
              replace (r + (j + 1) * dr) with (r + dr + j * dr) in Hpath by lia.
              replace (c + (j + 1) * dc) with (c + dc + j * dc) in Hpath by lia.
              exact Hpath.
           ++ replace (r + dr + (k - 1) * dr, c + dc + (k - 1) * dc)
                with (r + k * dr, c + k * dc) by (f_equal; lia).
              exact Hfree.
    + rewrite (asPiece_piece s Hne) in H.
      assert (Hs0 : cellAt board (r + 0 * dr) (c + 0 * dc) = Ok (Some s))
        by (now rewrite !Z.mul_0_l, !Z.add_0_r).
      assert (Hblocked : forall k, 0 <= k ->
                (forall j, 0 <= j < k -> emptyAt board (r + j * dr) (c + j * dc)) ->
                k = 0).
      { intros k Hk Hpath. destruct (Z.eq_dec k 0) as [|Hk0]; [assumption|].
        specialize (Hpath 0 ltac:(lia)). unfold emptyAt in Hpath.
        rewrite Hs0 in Hpath. congruence. }
      destruct (String.eqb_spec (charAt s 0) (charAt piece 0)) as [Ecol|Ecol];
        injection H as <-; split.
      * intros [].
      * intros (k & Hk & -> & Hpath & Hfree).
        rewrite (Hblocked k Hk Hpath) in Hfree.
        destruct Hfree as [He|(t & Ht & _ & Hcol)].
        -- unfold emptyAt in He. cbn [fst snd] in He. rewrite Hs0 in He.
           congruence.
        -- cbn [fst snd] in Ht. rewrite Hs0 in Ht. congruence.
      * intros [<-|[]]. exists 0. split; [lia|]. split; [f_equal; lia|].
        split; [intros j Hj; lia|]. right. exists s. auto.
      * intros (k & Hk & -> & Hpath & _).
        rewrite (Hblocked k Hk Hpath). left. f_equal; lia.
Qed.

Lemma slides_In_iff (board : Board) (piece : string) (row col : Z)
    (directions : list (Z * Z)) (l : list Square) (m : Square) :
  grid board -> slides board piece row col directions = Ok l ->
  In m l <-> slidesTo board row col piece directions m.
Proof.
  intros Hg H. unfold slides in H. rewrite (forPush_In_iff _ _ _ m H).
  unfold slidesTo. split.
  - intros ([dr dc] & ys & Hd & Hys & Hin). cbn [fst snd] in Hys.
    apply (slide_In_iff 8 board piece dr dc Hg _ _ _ Hys) in Hin
      as (k & Hk & -> & Hpath & Hfree).
    exists (dr, dc), (k + 1). cbn [fst snd]. split; [assumption|].
    split; [lia|]. split; [f_equal; lia|]. split.
    + intros j Hj. specialize (Hpath (j - 1) ltac:(lia)).
      replace (row + dr + (j - 1) * dr) with (row + j * dr) in Hpath by lia.
      replace (col + dc + (j - 1) * dc) with (col + j * dc) in Hpath by lia.
      exact Hpath.
    + replace (row + (k + 1) * dr, col + (k + 1) * dc)
        with (row + dr + k * dr, col + dc + k * dc) by (f_equal; lia).
      exact Hfree.
  - intros ([dr dc] & k & Hd & Hk & -> & Hpath & Hfree). cbn [fst snd] in *.
    assert (Hex : exists k', 0 <= k' /\
              (row + k * dr, col + k * dc)
              = (row + dr + k' * dr, col + dc + k' * dc) /\
              (forall j, 0 <= j < k' ->
                 emptyAt board (row + dr + j * dr) (col + dc + j * dc)) /\
              freeFor board piece (row + k * dr, col + k * dc)).
    { exists (k - 1). split; [lia|]. split; [f_equal; lia|].
      split; [|assumption]. intros j Hj. specialize (Hpath (j + 1) ltac:(lia)).
      replace (row + (j + 1) * dr) with (row + dr + j * dr) in Hpath by lia.
      replace (col + (j + 1) * dc) with (col + dc + j * dc) in Hpath by lia.
      exact Hpath. }
    destruct (forPush_Ok_each _ _ _ (dr, dc) H Hd) as (ys & Hys & Hsub).
    exists (dr, dc), ys. split; [assumption|]. split; [assumption|].
    cbn [fst snd] in Hys.
    apply (slide_In_iff 8 board piece dr dc Hg _ _ _ Hys). exact Hex.
Qed.

Lemma steps_In_iff (board : Board) (piece : string) (row col : Z)
    (offsets : list (Z * Z)) (l : list Square) (m : Square) :
  grid board -> steps board piece row col offsets = Ok l ->
  In m l <-> stepsTo board row col piece offsets m.
Proof.
  intros Hg H. unfold steps in H. rewrite (forPush_In_iff _ _ _ m H).
  unfold stepsTo.
  assert (Hbody : forall o ys,
    (if onBoard (row + fst o) (col + snd o)
     then there <- cellAt board (row + fst o) (col + snd o) ;;
          match asPiece there with
          | None => Ok [(row + fst o, col + snd o)]
          | Some t => if String.eqb (charAt t 0) (charAt piece 0)
                      then Ok [] else Ok [(row + fst o, col + snd o)]
          end
     else Ok []) = Ok ys ->
    In m ys <-> m = (row + fst o, col + snd o) /\ freeFor board piece m).
  { intros o ys Hys.
    destruct (onBoard (row + fst o) (col + snd o)) eqn:Hon.
    - destruct (grid_cellAt board _ _ Hg Hon) as [s Hs]. rewrite Hs in Hys.
      cbn [bind] in Hys. destruct (String.eqb_spec s "") as [->|Hne].
      + change (asPiece (Some "")) with (@None string) in Hys.
        injection Hys as <-. split.
        * intros [<-|[]]. split; [reflexivity|]. left. exact Hs.
        * intros [-> _]. now left.
      + rewrite (asPiece_piece s Hne) in Hys.
        destruct (String.eqb_spec (charAt s 0) (charAt piece 0)) as [Ecol|Ecol];
          injection Hys as <-; split.
        * intros [].
        * intros [-> [He|(t & Ht & _ & Hcol)]]; unfold emptyAt in *;
            simpl in *; rewrite Hs in *; congruence.
        * intros [<-|[]]. split; [reflexivity|]. right. exists s. auto.
        * intros [-> _]. now left.
    - injection Hys as <-. split; [intros []|].
      intros [-> Hfree]. apply freeFor_onBoard in Hfree; [|assumption].
      simpl in Hfree. congruence. }
  split.
  - intros (o & ys & Ho & Hys & Hin). exists o. split; [assumption|].
    now apply (Hbody o ys Hys).
  - intros (o & Ho & Hm & Hfree).
    destruct (forPush_Ok_each _ _ _ o H Ho) as (ys & Hys & _).
    exists o, ys. split; [assumption|]. split; [assumption|].
    apply (Hbody o ys Hys). auto.
Qed.

Lemma pawnForward_In_iff (board : Board) (row col : Z) (isWhite : bool)
    (l : list Square) (m : Square) :
  grid board -> inRange col = true ->
  pawnForward board row col isWhite = Ok l ->
  In m l <->
  (m = (row + (if isWhite then -1 else 1), col) /\
   emptyAt board (row + (if isWhite then -1 else 1)) col) \/
  (row = (if isWhite then 6 else 1) /\
   m = (row + 2 * (if isWhite then -1 else 1), col) /\
   emptyAt board (row + (if isWhite then -1 else 1)) col /\
   emptyAt board (row + 2 * (if isWhite then -1 else 1)) col).
Proof.
  intros Hg Hcol H. unfold pawnForward in H. cbv zeta in H.
  set (d := if isWhite then -1 else 1) in *.
  assert (Hahead : emptyAt board (row + d) col -> inRange (row + d) = true).
  { intros He. apply emptyAt_onBoard in He; [|assumption].
    unfold onBoard in He. now apply andb_true_iff in He as [? _]. }
  destruct (inRange (row + d)) eqn:Hin.
  2:{ injection H as <-. split; [intros []|].
      intros [[_ He]|(_ & _ & He & _)]; apply Hahead in He; discriminate. }
  assert (Hon : onBoard (row + d) col = true)
    by (unfold onBoard; now rewrite Hin, Hcol).
  destruct (grid_cellAt board _ _ Hg Hon) as [s Hs]. rewrite Hs in H.
  cbn [bind] in H. destruct (String.eqb_spec s "") as [->|Hne].
  2:{ rewrite (asPiece_piece s Hne) in H. injection H as <-.
      split; [intros []|]. unfold emptyAt.
      intros [[_ He]|(_ & _ & He & _)]; rewrite Hs in He; congruence. }
  change (asPiece (Some "")) with (@None string) in H. cbv iota in H.
  destruct (Z.eqb_spec row (if isWhite then 6 else 1)) as [Erow|Erow].
  - assert (Hon2 : onBoard (row + 2 * d) col = true).
    { unfold onBoard. rewrite Hcol, andb_true_r. apply inRange_spec.
      subst d. destruct isWhite; lia. }
    destruct (grid_cellAt board _ _ Hg Hon2) as [s2 Hs2]. rewrite Hs2 in H.
    cbn [bind] in H. destruct (String.eqb_spec s2 "") as [->|Hne2].
    + change (asPiece (Some "")) with (@None string) in H. injection H as <-.
      split.
      * intros [<-|[<-|[]]]; [left|right]; auto.
      * intros [[-> _]|(_ & -> & _)]; simpl; auto.
    + rewrite (asPiece_piece s2 Hne2) in H. injection H as <-. split.
      * intros [<-|[]]. left. auto.
      * unfold emptyAt. intros [[-> _]|(_ & _ & _ & He)]; [now left|].
        rewrite Hs2 in He. congruence.
  - injection H as <-. split.
    + intros [<-|[]]. left. auto.
    + intros [[-> _]|(E & _)]; [now left|contradiction].
Qed.

Lemma pawnCaptures_In_iff (board : Board) (row col : Z) (piece : string)
    (isWhite : bool) (l : list Square) (m : Square) :
  grid board -> pawnCaptures board row col piece isWhite = Ok l ->
  In m l <->
  exists offset, In offset [-1; 1] /\
    m = (row + (if isWhite then -1 else 1), col + offset) /\
    foeAt board piece (row + (if isWhite then -1 else 1)) (col + offset).
Proof.
  intros Hg H. unfold pawnCaptures in H. cbv zeta in H.
  set (d := if isWhite then -1 else 1) in *.
  rewrite (forPush_In_iff _ _ _ m H).
  assert (Hbody : forall offset ys,
    (if inRange (col + offset)
     then target <- cellAt board (row + d) (col + offset) ;;
          match asPiece target with
          | Some t => if String.eqb (charAt t 0) (charAt piece 0) then Ok []
                      else Ok [(row + d, col + offset)]
          | None => Ok []
          end
     else Ok []) = Ok ys ->
    In m ys <-> m = (row + d, col + offset) /\
                foeAt board piece (row + d) (col + offset)).
  { intros offset ys Hys. unfold foeAt.
    destruct (inRange (col + offset)) eqn:Hin.
    - destruct (cellAt board (row + d) (col + offset)) as [target|] eqn:Ht;
        [|discriminate Hys]. cbn [bind] in Hys.
      destruct (asPiece target) as [t|] eqn:Et.
      + apply asPiece_Some in Et as [-> Hne].
        destruct (String.eqb_spec (charAt t 0) (charAt piece 0)) as [Ecol|Ecol];
          injection Hys as <-; split.
        * intros [].
        * intros [_ (t' & Ht' & _ & Hcol)]. congruence.
        * intros [<-|[]]. split; [reflexivity|]. exists t. auto.
        * intros [-> _]. now left.
      + injection Hys as <-. split; [intros []|].
        intros [_ (t' & Ht' & Hne' & _)]. injection Ht' as ->.
        rewrite (asPiece_piece t' Hne') in Et. discriminate Et.
    - injection Hys as <-. split; [intros []|].
      intros [_ (t & Ht & _)]. apply cellAt_Some_col in Ht; [|assumption].
      unfold onBoard in Ht. apply andb_true_iff in Ht as [_ Ht]. congruence. }
  split.
  - intros (offset & ys & Ho & Hys & Hin). exists offset. split; [assumption|].
    now apply (Hbody offset ys Hys).
  - intros (offset & Ho & Hm & Hfoe).
    destruct (forPush_Ok_each _ _ _ offset H Ho) as (ys & Hys & _).
    exists offset, ys. split; [assumption|]. split; [assumption|].
    apply (Hbody offset ys Hys). auto.
Qed.

(** X18: on a grid, the squares [getRawPossibleMoves] returns for a piece are
    exactly those its kind reaches: a pawn one row ahead onto an empty cell,
    two rows ahead from its start row over two empty cells, or one row ahead
    and one column aside onto a foe; a rook, bishop or queen along its
    directions over empty cells up to an empty cell or a foe; a knight and a
    king by their fixed offsets onto an empty cell or a foe. *)
Theorem raw_moves_geometry (board : Board) (row col : Z) (piece : string)
    (l : list Square) (m : Square) :
  grid board ->
  cellAt board row col = Ok (Some piece) -> piece <> "" ->
  getRawPossibleMoves row col board = Ok l ->
  In m l <-> reaches board row col piece m.
Proof.
  intros Hg Hc Hne H.
  pose proof (cellAt_Some_col _ _ _ _ Hg Hc) as Hon.
  assert (Hcol : inRange col = true)
    by (unfold onBoard in Hon; now apply andb_true_iff in Hon as [_ ?]).
  unfold getRawPossibleMoves in H. rewrite Hc in H. cbn [bind] in H.
  rewrite (asPiece_piece piece Hne) in H. cbv zeta in H.
  splitBind H as pawn Hpawn. splitBind H as rook Hrook.
  splitBind H as knight Hknight. splitBind H as bishop Hbishop.
  splitBind H as king Hking. injection H as <-.
  rewrite !in_app_iff. unfold reaches.
  assert (HP : In m pawn <->
               charAt piece 1 = "P" /\
               pawnTo board row col piece (String.eqb (charAt piece 0) "w") m).
  { destruct (String.eqb_spec (charAt piece 1) "P") as [E|E].
    - splitBind Hpawn as fwd Hfwd. splitBind Hpawn as caps Hcaps.
      injection Hpawn as <-. rewrite in_app_iff.
      rewrite (pawnForward_In_iff _ _ _ _ _ m Hg Hcol Hfwd).
      rewrite (pawnCaptures_In_iff _ _ _ _ _ _ m Hg Hcaps).
      unfold pawnTo. cbv zeta. tauto.
    - injection Hpawn as <-. simpl. tauto. }
  assert (HR : In m rook <->
               (charAt piece 1 = "R" \/ charAt piece 1 = "Q") /\
               slidesTo board row col piece rookDirections m).
  { destruct (String.eqb_spec (charAt piece 1) "R") as [E|E];
      [|destruct (String.eqb_spec (charAt piece 1) "Q") as [E'|E']];
      cbn [orb] in Hrook.
    - rewrite (slides_In_iff _ _ _ _ _ _ m Hg Hrook). tauto.
    - rewrite (slides_In_iff _ _ _ _ _ _ m Hg Hrook). tauto.
    - injection Hrook as <-. simpl. tauto. }
  assert (HN : In m knight <->
               charAt piece 1 = "N" /\
               stepsTo board row col piece knightOffsets m).
  { destruct (String.eqb_spec (charAt piece 1) "N") as [E|E].
    - rewrite (steps_In_iff _ _ _ _ _ _ m Hg Hknight). tauto.
    - injection Hknight as <-. simpl. tauto. }
  assert (HB : In m bishop <->
               (charAt piece 1 = "B" \/ charAt piece 1 = "Q") /\
               slidesTo board row col piece bishopDirections m).
  { destruct (String.eqb_spec (charAt piece 1) "B") as [E|E];
      [|destruct (String.eqb_spec (charAt piece 1) "Q") as [E'|E']];
      cbn [orb] in Hbishop.
    - rewrite (slides_In_iff _ _ _ _ _ _ m Hg Hbishop). tauto.
    - rewrite (slides_In_iff _ _ _ _ _ _ m Hg Hbishop). tauto.
    - injection Hbishop as <-. simpl. tauto. }
  assert (HK : In m king <->
               charAt piece 1 = "K" /\
               stepsTo board row col piece kingOffsets m).
  { destruct (String.eqb_spec (charAt piece 1) "K") as [E|E].
    - rewrite (steps_In_iff _ _ _ _ _ _ m Hg Hking). tauto.
    - injection Hking as <-. simpl. tauto. }
  tauto.
Qed.

Lemma raw_moves_geometry_start :
  In (5, 2) [(5, 0); (5, 2)] <-> reaches initialBoard 7 1 "wN" (5, 2).
Proof.
  apply (raw_moves_geometry initialBoard 7 1 "wN" [(5, 0); (5, 2)] (5, 2)).
  - exact initialBoard_grid.
  - reflexivity.
  - discriminate.
  - vm_compute. reflexivity.
Defined.

(** ** The turn heuristic counts pieces *)

Lemma countPieces_cons (board : Board) (r c : Z) (rest : list Square) (w b : Z) :
  countPieces board ((r, c) :: rest) w b =
  (here <- cellAt board r c ;;
   match here with
   | None => Err TypeError
   | Some p => countPieces board rest (w + fst (tally p)) (b + snd (tally p))
   end).
Proof.
  simpl. destruct (cellAt board r c) as [[p|]|]; try reflexivity.
  cbn [bind]. unfold tally. cbn [fst snd].
  destruct (startsWith p "w"), (startsWith p "b"); now rewrite ?Z.add_0_r.
Qed.

Lemma countPieces_shift (board : Board) (sqs : list Square) (dw db : Z) :
  forall w b w' b',
    countPieces board sqs w b = Ok (w', b') ->
    countPieces board sqs (w + dw) (b + db) = Ok (w' + dw, b' + db).
Proof.
  induction sqs as [|[r c] sqs IH]; intros w b w' b' H.
  - simpl in *. injection H as <- <-. reflexivity.
  - rewrite countPieces_cons in *.
    destruct (cellAt board r c) as [[p|]|]; cbn [bind] in *; try discriminate H.
    specialize (IH _ _ _ _ H).
    replace (w + dw + fst (tally p)) with (w + fst (tally p) + dw) by lia.
    replace (b + db + snd (tally p)) with (b + snd (tally p) + db) by lia.
    exact IH.
Qed.

Lemma countPieces_other (board board' : Board) (r c : Z) (v : string)
    (sqs : list Square) :
  setCell board r c v = Ok board' -> ~ In (r, c) sqs ->
  forall w b, countPieces board' sqs w b = countPieces board sqs w b.
Proof.
  intros Hset. induction sqs as [|[r0 c0] sqs IH]; intros Hnot w b;
    [reflexivity|].
  rewrite !countPieces_cons, (cellAt_setCell _ _ _ _ _ r0 c0 Hset).
  destruct ((r0 =? r) && (c0 =? c)) eqn:E.
  - apply andb_true_iff in E as [E1 E2]. apply Z.eqb_eq in E1, E2. subst.
    exfalso. apply Hnot. now left.
  - apply bind_ext. intros [p|]; [|reflexivity].
    apply IH. intros Hin. apply Hnot. now right.
Qed.

Lemma countPieces_write (board board' : Board) (r c : Z) (old v : string)
    (sqs : list Square) :
  cellAt board r c = Ok (Some old) -> setCell board r c v = Ok board' ->
  NoDup sqs -> In (r, c) sqs ->
  forall w b w' b',
    countPieces board sqs w b = Ok (w', b') ->
    countPieces board' sqs w b
    = Ok (w' - fst (tally old) + fst (tally v),
          b' - snd (tally old) + snd (tally v)).
Proof.
  intros Hold Hset. induction sqs as [|[r0 c0] sqs IH];
    intros Hnd Hin w b w' b' H; [destruct Hin|].
  apply NoDup_cons in Hnd as [Hnot Hnd]. rewrite list_elem_of_In in Hnot.
  rewrite countPieces_cons in *.
  rewrite (cellAt_setCell _ _ _ _ _ r0 c0 Hset).
  destruct ((r0 =? r) && (c0 =? c)) eqn:E.
  - apply andb_true_iff in E as [E1 E2]. apply Z.eqb_eq in E1, E2. subst r0 c0.
    rewrite Hold in H. cbn [bind] in *.
    rewrite (countPieces_other _ _ _ _ _ _ Hset Hnot).
    pose proof (countPieces_shift board sqs
                  (fst (tally v) - fst (tally old))
                  (snd (tally v) - snd (tally old)) _ _ _ _ H) as Hs.
    replace (w + fst (tally old) + (fst (tally v) - fst (tally old)))
      with (w + fst (tally v)) in Hs by lia.
    replace (b + snd (tally old) + (snd (tally v) - snd (tally old)))
      with (b + snd (tally v)) in Hs by lia.
    rewrite Hs. f_equal. f_equal; lia.
  - destruct Hin as [Heq|Hin].
    { injection Heq as -> ->. rewrite !Z.eqb_refl in E. discriminate E. }
    destruct (cellAt board r0 c0) as [[p|]|]; cbn [bind] in *;
      try discriminate H.
    now apply IH.
Qed.

Lemma countPieces_write_grid (board board' : Board) (r c : Z) (old v : string)
    (w b : Z) :
  grid board ->
  cellAt board r c = Ok (Some old) -> setCell board r c v = Ok board' ->
  countPieces board squares 0 0 = Ok (w, b) ->
  countPieces board' squares 0 0
  = Ok (w - fst (tally old) + fst (tally v), b - snd (tally old) + snd (tally v)).
Proof.
  intros Hg Hold Hset H.
  apply (countPieces_write board board' r c old v squares Hold Hset);
    [exact squares_NoDup| |exact H].
  apply squares_spec. eapply cellAt_Some_col; eauto.
Qed.

(** The cells a castling move relies on, read off the conditions under which
    [getPossibleMoves] offers it. *)
Lemma castling_hop_cells (board : Board) (gs : GameState) (row col : Z)
    (piece : string) (l : list Square) (m : Square) (r c1 c2 : Z) :
  grid board ->
  cellAt board row col = Ok (Some piece) -> piece <> "" ->
  getPossibleMoves row col board gs = Ok l -> In m l ->
  castlingRook (Some piece) row col (snd m) = Some (r, c1, c2) ->
  r = row /\ fst m = row /\ col = 4 /\
  (snd m = 6 \/ snd m = 2) /\ (c1 = 7 \/ c1 = 0) /\ (c2 = 5 \/ c2 = 3) /\
  (exists rook, rook <> "" /\ cellAt board row c1 = Ok (Some rook)) /\
  cellAt board row c2 = Ok (Some "") /\
  cellAt board row (snd m) = Ok (Some "").
Proof.
  intros Hg Hc Hne Hl Hm Ehop.
  destruct (castlingRook_Some _ _ _ _ _ _ _ Ehop)
    as (w & kingside & -> & -> & -> & -> & Hdest & -> & ->).
  destruct (getPossibleMoves_Ok _ _ _ _ _ _ Hc Hne Hl)
    as (raw & castling & Hraw & Hcas & Hkeep).
  replace (String.eqb (charAt (kingOf w) 1) "K") with true in Hcas
    by (destruct w; reflexivity).
  replace (String.eqb (charAt (kingOf w) 0) "w") with w in Hcas
    by (destruct w; reflexivity).
  destruct (proj1 (keepSafe_In _ _ _ _ _ _ _ _ Hkeep) Hm) as [Hcand _].
  apply in_app_or in Hcand as [Hin|Hin].
  { pose proof (king_raw_near _ _ _ _ _ _ Hc Hraw Hin) as Hnear.
    rewrite Hdest in Hnear. destruct kingside; lia. }
  destruct (castlingMoves_In _ _ _ _ _ Hcas Hin) as [Hrow _].
  assert (Em : m = (homeRow w, if kingside then 6 else 2))
    by (destruct m as [mr mc]; simpl in Hrow, Hdest; unfold homeRow;
        now rewrite Hrow, Hdest).
  subst m. cbn [fst snd]. clear Hrow Hdest.
  destruct (castlingMoves_spec _ _ _ _ Hg Hcas) as [Hks Hqs].
  assert (Hcells : cellAt board (homeRow w) (if kingside then 7 else 0)
                     = Ok (Some (rookOf w)) /\
                   cellAt board (homeRow w) (if kingside then 5 else 3)
                     = Ok (Some "") /\
                   cellAt board (homeRow w) (if kingside then 6 else 2)
                     = Ok (Some "")).
  { destruct kingside.
    - apply Hks in Hin. destruct Hin as (_ & Hb & Hr & _).
      split; [assumption|]. split; apply Hb; simpl; auto.
    - apply Hqs in Hin. destruct Hin as (_ & Hb & Hr & _).
      split; [assumption|]. split; apply Hb; simpl; auto. }
  destruct Hcells as (Hrook & Hfill & Hland).
  repeat split; try assumption; try reflexivity.
  - destruct kingside; auto.
  - destruct kingside; auto.
  - destruct kingside; auto.
  - exists (rookOf w). split; [destruct w; discriminate|assumption].
Qed.

(** The two counts after a move that [getPossibleMoves] returned: they
    change by the piece that stood on the destination. *)
Lemma applyMove_counts (board board' : Board) (gs gs' : GameState)
    (row col : Z) (piece dest : string) (l : list Square) (m : Square)
    (w b : Z) :
  grid board ->
  cellAt board row col = Ok (Some piece) -> piece <> "" ->
  getPossibleMoves row col board gs = Ok l -> In m l ->
  applyMove (row, col) m piece board gs = Ok (board', gs') ->
  cellAt board (fst m) (snd m) = Ok (Some dest) ->
  countPieces board squares 0 0 = Ok (w, b) ->
  countPieces board' squares 0 0
  = Ok (w - fst (tally dest), b - snd (tally dest)).
Proof.
  intros Hg Hc Hne Hl Hm Happ Hdest Hcount.
  assert (Hmne : m <> (row, col)).
  { eapply landable_not_origin; eauto.
    eapply getPossibleMoves_landable; eauto. }
  unfold applyMove in Happ. cbn [fst snd] in Happ.
  splitBind Happ as [b1 g1] Hu. cbn [fst snd] in Happ.
  splitBind Happ as b2 Hb2. splitBind Happ as b3 Hb3. injection Happ as <- _.
  destruct (updateGameState_board _ _ _ _ _ _ _ _ Hu) as (p & Hp & Hhop).
  rewrite Hc in Hp. injection Hp as <-.
  assert (Hb1 : grid b1 /\
                countPieces b1 squares 0 0 = Ok (w, b) /\
                cellAt b1 (fst m) (snd m) = Ok (Some dest) /\
                cellAt b1 row col = Ok (Some piece)).
  { destruct (castlingRook (Some piece) row col (snd m)) as [[[r c1] c2]|] eqn:Ehop.
    - destruct (castling_hop_cells _ _ _ _ _ _ _ _ _ _ Hg Hc Hne Hl Hm Ehop)
        as (-> & Hrow & -> & Hmc & Hc1 & Hc2 & (rook & Hrne & Hrook) & Hfill
            & Hland).
      cbn [hopBoard] in Hhop. pose proof Hhop as Hhop'.
      unfold relocateRook in Hhop'. rewrite Hrook in Hhop'. cbn [bind] in Hhop'.
      splitBind Hhop' as bA HbA.
      pose proof (setCell_Ok_grid _ _ _ _ _ Hg HbA) as HgA.
      pose proof (countPieces_write_grid _ _ _ _ _ _ _ _ Hg Hfill HbA Hcount)
        as HcA.
      assert (HrookA : cellAt bA row c1 = Ok (Some rook)).
      { rewrite (cellAt_setCell _ _ _ _ _ row c1 HbA).
        destruct (Z.eqb_spec c1 c2); [lia|]. now rewrite andb_false_r. }
      pose proof (countPieces_write_grid _ _ _ _ _ _ _ _ HgA HrookA Hhop' HcA)
        as Hc1'.
      split; [eapply setCell_Ok_grid; eauto|]. split.
      + rewrite Hc1'. f_equal. f_equal; lia.
      + destruct (relocateRook_cells _ _ _ _ _ Hhop) as (s & _ & Hcells).
        rewrite !Hcells.
        rewrite Hrow in *.
        destruct (Z.eqb_spec (snd m) c1); [lia|].
        destruct (Z.eqb_spec (snd m) c2); [lia|].
        destruct (Z.eqb_spec 4 c1); [lia|]. destruct (Z.eqb_spec 4 c2); [lia|].
        rewrite !andb_false_r. split; assumption.
    - cbn [hopBoard] in Hhop. injection Hhop as <-. auto. }
  destruct Hb1 as (Hg1 & Hcount1 & Hdest1 & Hc1).
  pose proof (countPieces_write_grid _ _ _ _ _ _ _ _ Hg1 Hdest1 Hb2 Hcount1)
    as Hcount2.
  assert (Hc2 : cellAt b2 row col = Ok (Some piece)).
  { rewrite (cellAt_setCell _ _ _ _ _ row col Hb2).
    destruct ((row =? fst m) && (col =? snd m)) eqn:E; [|assumption].
    apply andb_true_iff in E as [E1 E2]. apply Z.eqb_eq in E1, E2.
    exfalso. apply Hmne. destruct m; cbn [fst snd] in *; congruence. }
  pose proof (countPieces_write_grid _ _ _ _ _ _ _ _
                (setCell_Ok_grid _ _ _ _ _ Hg1 Hb2) Hc2 Hb3 Hcount2) as Hcount3.
  assert (Hfinal : countPieces b3 squares 0 0
                   = Ok (w - fst (tally dest), b - snd (tally dest))).
  { rewrite Hcount3. change (tally "") with (0, 0). cbn [fst snd].
    f_equal. f_equal; lia. }
  exact Hfinal.
Qed.

(** X19: [isWhiteTurn] looks at the two piece counts only, and a move that
    [getPossibleMoves] returned changes them by the piece standing on the
    destination and by nothing else (the rook of a castling move is moved,
    not counted twice).  After a move onto an empty square [isWhiteTurn]
    therefore returns what it returned before the move. *)
Theorem isWhiteTurn_counts_captures (board board' : Board) (gs gs' : GameState)
    (row col : Z) (piece dest : string) (l : list Square) (m : Square)
    (w b : Z) :
  grid board ->
  cellAt board row col = Ok (Some piece) -> piece <> "" ->
  getPossibleMoves row col board gs = Ok l -> In m l ->
  applyMove (row, col) m piece board gs = Ok (board', gs') ->
  cellAt board (fst m) (snd m) = Ok (Some dest) ->
  countPieces board squares 0 0 = Ok (w, b) ->
  countPieces board' squares 0 0
  = Ok (w - fst (tally dest), b - snd (tally dest)) /\
  (dest = "" -> isWhiteTurn board' = isWhiteTurn board).
Proof.
  intros Hg Hc Hne Hl Hm Happ Hdest Hcount.
  pose proof (applyMove_counts _ _ _ _ _ _ _ _ _ _ _ _ Hg Hc Hne Hl Hm Happ
                Hdest Hcount) as Hfinal.
  split; [exact Hfinal|].
  intros ->. unfold isWhiteTurn. rewrite Hfinal, Hcount.
  change (tally "") with (0, 0). cbn [fst snd]. now rewrite !Z.sub_0_r.
Qed.

Lemma isWhiteTurn_counts_captures_start :
  exists board' gs',
    applyMove (6, 4) (4, 4) "wP" initialBoard initialGameState = Ok (board', gs') /\
    countPieces board' squares 0 0
    = Ok (16 - fst (tally ""), 16 - snd (tally "")) /\
    ("" = "" -> isWhiteTurn board' = isWhiteTurn initialBoard).
Proof.
  eexists. eexists. split; [vm_compute; reflexivity|].
  eapply (isWhiteTurn_counts_captures initialBoard _ initialGameState _ 6 4 "wP" ""
            [(5, 4); (4, 4)] (4, 4) 16 16).
  - exact initialBoard_grid.
  - reflexivity.
  - discriminate.
  - vm_compute. reflexivity.
  - simpl. tauto.
  - vm_compute. reflexivity.
  - reflexivity.
  - vm_compute. reflexivity.
Defined.

(** ** The captured-pieces display *)

Lemma countCells_total (board : Board) (piece : string) (sqs : list Square) :
  grid board -> (forall r c, In (r, c) sqs -> onBoard r c = true) ->
  forall count, exists n, countCells board piece sqs count = Ok n.
Proof.
  intros Hg. induction sqs as [|[r c] sqs IH]; simpl; intros Hon count; [eauto|].
  destruct (grid_cellAt board r c Hg) as [s Hs]; [apply Hon; now left|].
  rewrite Hs. cbn [bind]. apply IH. intros; apply Hon; now right.
Qed.

(** The pieces [getAllPieces] collects and the count of one name. *)
Lemma getAllPieces_count (board : Board) (p : string) (sqs : list Square) :
  p <> "" ->
  forall l count n,
    forPush (fun sq : Square =>
      let (row, col) := sq in
      here <- cellAt board row col ;;
      match asPiece here with
      | None => Ok []
      | Some piece => Ok [piece]
      end) sqs = Ok l ->
    countCells board p sqs count = Ok n ->
    n = count + Z.of_nat (occurrences p l).
Proof.
  intros Hp. induction sqs as [|[r c] sqs IH]; simpl; intros l count n Hl Hn.
  - injection Hl as <-. injection Hn as <-. simpl. lia.
  - destruct (cellAt board r c) as [here|]; [|discriminate Hl].
    cbn [bind] in Hl, Hn. splitBind Hl as ys Hys. splitBind Hl as rest Hrest.
    injection Hl as <-. specialize (IH _ _ _ Hrest Hn).
    unfold occurrences in *. rewrite count_occ_app.
    destruct here as [s|]; cbn [asPiece isStr] in *.
    + destruct (String.eqb_spec s "") as [->|Hne].
      * injection Hys as <-.
        destruct (String.eqb_spec "" p) as [E|_]; [congruence|].
        simpl. lia.
      * injection Hys as <-. simpl.
        destruct (String.eqb_spec s p) as [->|Hsp].
        -- destruct (string_dec p p); [lia|contradiction].
        -- destruct (string_dec s p); [contradiction|lia].
    + injection Hys as <-. simpl. lia.
Qed.

Lemma capturedLoop_occ (newBoard : Board) (p : string) (present : bool) :
  isOnBoard p newBoard = Ok present ->
  forall pieces lists res,
    capturedLoop newBoard lists pieces = Ok res ->
    occurrences p (fst res)
    = (occurrences p (fst lists) +
       (if negb present && String.eqb (charAt p 0) "w"
        then occurrences p pieces else 0))%nat /\
    occurrences p (snd res)
    = (occurrences p (snd lists) +
       (if negb present && negb (String.eqb (charAt p 0) "w")
        then occurrences p pieces else 0))%nat.
Proof.
  intros Hp. induction pieces as [|q pieces IH]; simpl; intros lists res H.
  - injection H as <-.
    destruct (negb present && _), (negb present && _); simpl; lia.
  - splitBind H as lists' Hstep. specialize (IH _ _ H).
    unfold capturedStep in Hstep. splitBind Hstep as presentq Hq.
    unfold occurrences in *.
    destruct (string_dec q p) as [->|Hqp].
    + rewrite Hp in Hq. injection Hq as <-.
      destruct present; cbn [negb andb] in *.
      * injection Hstep as <-. exact IH.
      * destruct (String.eqb (charAt p 0) "w"); injection Hstep as <-;
          cbn [fst snd negb andb] in *; rewrite count_occ_app in IH;
          simpl in *; destruct (string_dec p p); try contradiction; lia.
    + assert (Hsame : count_occ string_dec (fst lists') p
                      = count_occ string_dec (fst lists) p /\
                      count_occ string_dec (snd lists') p
                      = count_occ string_dec (snd lists) p).
      { destruct presentq; [injection Hstep as <-; auto|].
        destruct (String.eqb (charAt q 0) "w"); injection Hstep as <-;
          cbn [fst snd]; rewrite count_occ_app; simpl;
          destruct (string_dec q p); try contradiction; split; lia. }
      destruct Hsame as [Hf Hs]. rewrite Hf, Hs in IH. exact IH.
Qed.

Lemma getAllPieces_occ (board : Board) (p : string) (pieces : list string)
    (n : Z) :
  p <> "" -> getAllPieces board = Ok pieces ->
  getAllPiecesCount board p = Ok n ->
  n = Z.of_nat (occurrences p pieces).
Proof.
  intros Hp Hpieces Hn.
  exact (getAllPieces_count board p squares Hp pieces 0 n Hpieces Hn).
Qed.

Lemma isOnBoard_value (newBoard : Board) (p : string) (n n0 : Z) :
  getAllPiecesCount newBoard p = Ok n ->
  getAllPiecesCount initialBoard p = Ok n0 ->
  isOnBoard p newBoard = Ok (n >=? n0).
Proof.
  intros Hn Hn0. unfold isOnBoard. unfold getAllPiecesCount in Hn.
  rewrite Hn. cbn [bind]. rewrite Hn0. reflexivity.
Qed.

Lemma getAllPiecesCount_total (board : Board) (p : string) :
  grid board -> exists n, getAllPiecesCount board p = Ok n.
Proof.
  intros Hg. unfold getAllPiecesCount.
  apply (countCells_total board p squares Hg).
  intros r c. apply squares_spec.
Qed.

Lemma updateCapturedPieces_eq (newBoard : Board) :
  updateCapturedPieces newBoard =
  (pieces <- getAllPieces initialBoard ;; capturedLoop newBoard ([], []) pieces).
Proof. reflexivity. Qed.

(** X20: what [updateCapturedPieces] lists.  A piece name of which the board
    holds at least as many cells as the initial position is listed in neither
    list; a name of which it holds fewer is listed as many times as it occurs
    in the initial position (not as many times as it is missing), in the
    white list when its first letter is w and in the black list otherwise. *)
Theorem captured_all_or_nothing (newBoard : Board) (white black : list string)
    (p : string) (n : Z) :
  updateCapturedPieces newBoard = Ok (white, black) -> p <> "" ->
  getAllPiecesCount newBoard p = Ok n ->
  exists n0,
    getAllPiecesCount initialBoard p = Ok n0 /\
    Z.of_nat (occurrences p white)
    = (if (n >=? n0) || negb (String.eqb (charAt p 0) "w") then 0 else n0) /\
    Z.of_nat (occurrences p black)
    = (if (n >=? n0) || String.eqb (charAt p 0) "w" then 0 else n0).
Proof.
  intros H Hp Hn.
  destruct (getAllPiecesCount_total initialBoard p initialBoard_grid)
    as [n0 Hn0].
  exists n0. split; [exact Hn0|].
  rewrite updateCapturedPieces_eq in H. splitBind H as pieces Hpieces.
  pose proof (isOnBoard_value newBoard p n n0 Hn Hn0) as Hpresent.
  destruct (capturedLoop_occ newBoard p _ Hpresent _ _ _ H) as [Hw Hb].
  cbn [fst snd] in Hw, Hb.
  pose proof (getAllPieces_occ initialBoard p pieces n0 Hp Hpieces Hn0)
    as Hcount.
  rewrite Hw, Hb. change (occurrences p []) with 0%nat.
  destruct (n >=? n0), (String.eqb (charAt p 0) "w"); cbn [negb andb orb];
    lia.
Qed.

Lemma captured_all_or_nothing_lastStep :
  exists white black n0,
    updateCapturedPieces lastStep = Ok (white, black) /\
    getAllPiecesCount initialBoard "wP" = Ok n0 /\
    Z.of_nat (occurrences "wP" white)
    = (if (1 >=? n0) || negb (String.eqb (charAt "wP" 0) "w") then 0 else n0) /\
    Z.of_nat (occurrences "wP" black)
    = (if (1 >=? n0) || String.eqb (charAt "wP" 0) "w" then 0 else n0).
Proof.
  destruct (updateCapturedPieces lastStep) as [[white black]|e] eqn:E.
  - exists white, black.
    destruct (captured_all_or_nothing lastStep white black "wP" 1 E)
      as (n0 & H); [discriminate|vm_compute; reflexivity|].
    exists n0. split; [reflexivity|exact H].
  - vm_compute in E. discriminate E.
Defined.

(** ** The turn heuristic after the player's move *)

Lemma applyMove_Ok_grid (from to : Square) (piece : string)
    (board board' : Board) (gs gs' : GameState) :
  grid board ->
  onBoard (fst from) (snd from) = true -> onBoard (fst to) (snd to) = true ->
  applyMove from to piece board gs = Ok (board', gs') -> grid board'.
Proof.
  intros Hg Hfrom Hto H.
  destruct (applyMove_grid from to piece board gs Hg Hfrom Hto)
    as (b & g & Hb & Hgb).
  rewrite H in Hb. now injection Hb as -> _.
Qed.

Lemma startsWith_w (s : string) :
  startsWith s "w" = String.eqb (charAt s 0) "w".
Proof.
  destruct s as [|a s]; [reflexivity|].
  unfold startsWith, charAt. cbn [String.prefix String.get String.eqb].
  destruct (ascii_dec "w" a) as [<-|Hne].
  - destruct s; reflexivity.
  - destruct (Ascii.eqb_spec a "w") as [->|_]; [contradiction|reflexivity].
Qed.

Lemma tally_bounds (s : string) : 0 <= snd (tally s) <= 1.
Proof. unfold tally. cbn [snd]. destruct (startsWith s "b"); lia. Qed.

Lemma isWhiteTurn_true (board : Board) :
  isWhiteTurn board = Ok true <->
  exists w b, countPieces board squares 0 0 = Ok (w, b) /\ w <= 16 /\ b <= w.
Proof.
  unfold isWhiteTurn. split.
  - intros H. splitBind H as [w b] Hcount. cbn [fst snd] in H.
    injection H as H. apply andb_true_iff in H as [H1 H2].
    exists w, b. split; [assumption|]. rewrite Z.geb_leb in H2. lia.
  - intros (w & b & -> & H1 & H2). cbn [bind fst snd]. f_equal.
    rewrite Z.geb_leb. apply andb_true_iff. split; lia.
Qed.

(** A white move keeps [isWhiteTurn] true: the white count stays, the black
    count does not grow. *)
Lemma isWhiteTurn_after_white (board board' : Board) (gs gs' : GameState)
    (row col : Z) (piece : string) (l : list Square) (m : Square) :
  grid board ->
  cellAt board row col = Ok (Some piece) -> charAt piece 0 = "w" ->
  getPossibleMoves row col board gs = Ok l -> In m l ->
  applyMove (row, col) m piece board gs = Ok (board', gs') ->
  isWhiteTurn board = Ok true -> isWhiteTurn board' = Ok true.
Proof.
  intros Hg Hc Hcol Hl Hm Happ Hturn.
  assert (Hne : piece <> "") by (intros ->; discriminate Hcol).
  apply isWhiteTurn_true in Hturn as (w & b & Hcount & Hw & Hb).
  pose proof (cellAt_Some_col _ _ _ _ Hg Hc) as Hon.
  pose proof (getPossibleMoves_onBoard _ _ _ _ _ Hg Hon Hl _ Hm) as Hmon.
  destruct (grid_cellAt board _ _ Hg Hmon) as [dest Hdest].
  pose proof (applyMove_counts _ _ _ _ _ _ _ _ _ _ _ _ Hg Hc Hne Hl Hm Happ
                Hdest Hcount) as Hcount'.
  assert (Hfoe : fst (tally dest) = 0).
  { destruct (getPossibleMoves_landable _ _ _ _ _ _ Hg Hc Hne Hl m Hm)
      as (v & Hv & Hland).
    rewrite Hdest in Hv. injection Hv as <-.
    unfold tally. cbn [fst]. rewrite startsWith_w.
    destruct (String.eqb_spec dest "") as [->|Hd]; [reflexivity|].
    rewrite (asPiece_piece dest Hd), Hcol in Hland. now rewrite Hland. }
  pose proof (tally_bounds dest).
  apply isWhiteTurn_true. eexists. eexists. split; [exact Hcount'|]. lia.
Qed.

Lemma promotePawn_setCell (board board' : Board) (row col : Z)
    (newPiece p : string) :
  cellAt board row col = Ok (Some p) -> p <> "" -> charAt p 1 = "P" ->
  promotePawn row col board newPiece = Ok board' ->
  setCell board row col (charAt p 0 ++ newPiece)%string = Ok board'.
Proof.
  intros Hp Hne HP H. unfold promotePawn in H. rewrite Hp in H. cbn [bind] in H.
  rewrite (asPiece_piece p Hne), HP in H. exact H.
Qed.

Lemma isWhiteTurn_after_promotion (board board' : Board) (row col : Z)
    (newPiece : string) :
  grid board -> cellAt board row col = Ok (Some "wP") ->
  promotePawn row col board newPiece = Ok board' ->
  isWhiteTurn board = Ok true -> isWhiteTurn board' = Ok true.
Proof.
  intros Hg Hc Hpro Hturn.
  apply isWhiteTurn_true in Hturn as (w & b & Hcount & Hw & Hb).
  assert (Hne : "wP" <> "") by discriminate.
  pose proof (promotePawn_setCell _ _ _ _ newPiece "wP" Hc Hne eq_refl Hpro)
    as Hset.
  pose proof (countPieces_write_grid _ _ _ _ _ _ _ _ Hg Hc Hset Hcount) as H.
  apply isWhiteTurn_true. eexists. eexists. split; [exact H|].
  change (charAt "wP" 0 ++ newPiece)%string with (String "w" newPiece).
  change (tally "wP") with (1, 0).
  assert (Et : tally (String "w" newPiece) = (1, 0)).
  { unfold tally, startsWith. cbn [String.prefix].
    destruct (ascii_dec "w" "w") as [_|N]; [|contradiction].
    destruct (ascii_dec "b" "w") as [E|_]; [discriminate E|].
    now destruct newPiece. }
  rewrite Et. cbn [fst snd]. lia.
Qed.

(** ** The game component *)

Import Component.

Ltac fields :=
  cbn [board gameState selectedPiece availableMoves gameStatus capturedWhite
       capturedBlack gameOver showPromotion promotionPosition
       setBoard setGameState setSelectedPiece setAvailableMoves setGameStatus
       setCapturedWhite setCapturedBlack setGameOver setShowPromotion
       setPromotionPosition fst snd] in *.

Lemma existsb_sqEqb_true (l : list Square) (r c : Z) :
  In (r, c) l -> existsb (fun move => sqEqb move r c) l = true.
Proof.
  intros H. destruct (existsb (fun move => sqEqb move r c) l) eqn:E;
    [reflexivity|].
  apply existsb_sqEqb_false in E. contradiction.
Qed.

Lemma getAllPieces_total (b : Board) :
  grid b -> exists l, getAllPieces b = Ok l.
Proof.
  intros Hg. unfold getAllPieces. apply forPush_total.
  intros [r c] Hin. apply squares_spec in Hin.
  destruct (grid_cellAt b r c Hg Hin) as [s ->]. cbn [bind].
  destruct (asPiece (Some s)); eauto.
Qed.

Lemma isOnBoard_total (p : string) (b : Board) :
  grid b -> exists v, isOnBoard p b = Ok v.
Proof.
  intros Hg.
  destruct (getAllPiecesCount_total b p Hg) as [n Hn].
  destruct (getAllPiecesCount_total initialBoard p initialBoard_grid) as [n0 Hn0].
  rewrite (isOnBoard_value b p n n0 Hn Hn0). eauto.
Qed.

Lemma capturedLoop_total (b : Board) (pieces : list string) :
  grid b -> forall lists, exists res, capturedLoop b lists pieces = Ok res.
Proof.
  intros Hg. induction pieces as [|q pieces IH]; simpl; intros lists; [eauto|].
  unfold capturedStep. destruct (isOnBoard_total q b Hg) as [v ->].
  cbn [bind]. destruct v; [apply IH|].
  destruct (String.eqb (charAt q 0) "w"); cbn [bind]; apply IH.
Qed.

Lemma updateCapturedPieces_total (b : Board) :
  grid b -> exists res, updateCapturedPieces b = Ok res.
Proof.
  intros Hg. rewrite updateCapturedPieces_eq.
  destruct (getAllPieces_total initialBoard initialBoard_grid) as [l ->].
  cbn [bind]. now apply capturedLoop_total.
Qed.

(** What [afterPlayer] leaves: the game is over and nothing is scheduled, or
    the computer's move is scheduled on the position just produced, on which
    black has a move. *)
Lemma afterPlayer_playable (newBoard : Board) (gs : GameState) (g : state) :
  playable newBoard ->
  exists g' pend,
    afterPlayer newBoard gs g = Ok (g', pend) /\
    board g' = board g /\ gameState g' = gameState g /\
    selectedPiece g' = selectedPiece g /\
    availableMoves g' = availableMoves g /\
    showPromotion g' = showPromotion g /\
    ((gameOver g' = true /\ pend = None) \/
     (gameOver g' = gameOver g /\ pend = Some (newBoard, gs) /\
      hasAnyValidMoves newBoard false gs = Ok true)).
Proof.
  intros Hplay. pose proof Hplay as (Hg & Hw & Hb). unfold afterPlayer.
  destruct (isGameOver_total newBoard gs Hplay) as (over & -> & Hover).
  cbn [bind]. destruct over.
  - unfold handleGameOver.
    destruct (getGameStatus_total newBoard gs Hplay) as [s ->]. cbn [bind].
    eexists. eexists. split; [reflexivity|]. fields. auto 10.
  - destruct (isKingInCheck_total newBoard false Hg Hw) as [chk ->].
    cbn [bind]. eexists. eexists. split; [reflexivity|]. fields.
    destruct (Hover eq_refl) as [_ Hany]. auto 10.
Qed.

(** The move branch of the click handler, once the move it makes is known. *)
Lemma moveSelected_run (sel : Square) (row col : Z) (g : state) (p : string)
    (b' : Board) (gs' : GameState) :
  cellAt (board g) (fst sel) (snd sel) = Ok (Some p) ->
  applyMove sel (row, col) p (board g) (gameState g) = Ok (b', gs') ->
  exists g2,
    gameState g2 = gs' /\
    selectedPiece g2 = selectedPiece g /\
    availableMoves g2 = availableMoves g /\
    gameOver g2 = gameOver g /\
    moveSelected sel row col g =
      if String.eqb p "wP" && (row =? 0)
      then Ok (setBoard b'
                 (setShowPromotion true
                    (setPromotionPosition (Some (row, col)) g2)), None)
      else afterPlayer b' gs'
             (setAvailableMoves [] (setSelectedPiece None (setBoard b' g2))).
Proof.
  intros Hp Happ. unfold applyMove in Happ. cbn [fst snd] in Happ.
  splitBind Happ as st Hst. splitBind Happ as b1 Hb1. splitBind Happ as b2 Hb2.
  injection Happ as <- <-.
  destruct (setCell_Ok_cellAt _ _ _ _ _ Hb1) as [old Hold].
  unfold moveSelected. cbv zeta. rewrite Hp. cbn [bind]. rewrite Hst.
  cbn [bind]. rewrite Hold. cbn [bind]. rewrite Hb1. cbn [bind]. rewrite Hb2.
  cbn [bind].
  exists (match asPiece (Some old) with
          | Some t =>
              if String.eqb (charAt t 0) "b"
              then setCapturedBlack (capturedBlack g ++ [t])
                     (setGameState (snd st) g)
              else setCapturedWhite (capturedWhite g ++ [t])
                     (setGameState (snd st) g)
          | None => setGameState (snd st) g
          end).
  split; [|split; [|split; [|split; [|reflexivity]]]];
    destruct (asPiece (Some old)) as [t|];
    try destruct (String.eqb (charAt t 0) "b"); reflexivity.
Qed.

(** X21: the selection survives a promotion.  When the player moves the
    selected pawn to row 0 the handler opens the dialog and returns without
    clearing the selection or the stored moves; [handlePromotion] does not
    clear them either.  So after the promotion the promotion square is still
    a stored move of the now empty origin, and a further click on it (which
    [isWhiteTurn] still allows, unless the game is over) moves that empty
    cell there: the promoted piece is erased from the board. *)
Theorem promotion_keeps_selection (g : state) (r0 c0 c : Z) (l : list Square) :
  gameOver g = false -> showPromotion g = false ->
  isWhiteTurn (board g) = Ok true -> playable (board g) ->
  selectedPiece g = Some (r0, c0) ->
  cellAt (board g) r0 c0 = Ok (Some "wP") ->
  getPossibleMoves r0 c0 (board g) (gameState g) = Ok l ->
  availableMoves g = l -> In (0, c) l ->
  exists g1,
    handleCellClick 0 c g = Ok (g1, None) /\
    showPromotion g1 = true /\ promotionPosition g1 = Some (0, c) /\
    forall pieceType, In pieceType ["Q"; "R"; "B"; "N"] ->
      exists g2 pend,
        handlePromotion pieceType g1 = Ok (g2, pend) /\
        cellAt (board g2) 0 c = Ok (Some ("w" ++ pieceType)%string) /\
        selectedPiece g2 = Some (r0, c0) /\ availableMoves g2 = l /\
        (gameOver g2 = false ->
         exists g3 pend',
           handleCellClick 0 c g2 = Ok (g3, pend') /\
           cellAt (board g3) 0 c = Ok (Some "")).
Proof.
  intros Hover Hshow Hturn Hplay Hsel Hc Hl Havail Hin.
  pose proof Hplay as (Hg & Hw & Hb).
  assert (Hne : "wP" <> "") by discriminate.
  assert (Hmne : (0, c) <> (r0, c0)).
  { eapply landable_not_origin; eauto.
    eapply getPossibleMoves_landable; eauto. }
  pose proof (cellAt_Some_col _ _ _ _ Hg Hc) as Hon.
  pose proof (getPossibleMoves_onBoard _ _ _ _ _ Hg Hon Hl _ Hin) as Hmon.
  cbn [fst snd] in Hmon.
  destruct (player_move_result (board g) (gameState g) r0 c0 "wP" l (0, c)
              Hplay Hc eq_refl (fun _ => eq_refl) Hl Hin)
    as (b1 & gs1 & Happ & Hle & Hsafe & Hpromo).
  cbn [fst snd String.eqb Ascii.eqb Bool.eqb Z.eqb andb] in Hpromo.
  destruct (moveSelected_run (r0, c0) 0 c g "wP" b1 gs1 Hc Happ)
    as (gm & Hgs & Hsm & Ham & Hgo & Hrun).
  cbn [String.eqb Ascii.eqb Bool.eqb Z.eqb andb] in Hrun.
  eexists. split.
  { unfold handleCellClick. rewrite Hover, Hshow, Hturn. cbn [bind].
    destruct (grid_cellAt (board g) 0 c Hg Hmon) as [s ->]. cbn [bind].
    rewrite Hsel, Havail, (existsb_sqEqb_true l 0 c Hin). exact Hrun. }
  fields. split; [reflexivity|]. split; [reflexivity|].
  intros pieceType Hkind.
  destruct (Hpromo pieceType Hkind) as (b2 & Hb2 & Hplay2 & Hsafe2).
  pose proof (applyMove_dest _ _ _ _ _ _ _ Happ Hmne) as Hdest.
  pose proof (applyMove_origin _ _ _ _ _ _ _ Happ) as Horigin.
  cbn [fst snd] in Hdest, Horigin.
  pose proof (promotePawn_pawn _ _ _ _ pieceType "wP" Hdest Hne eq_refl Hb2)
    as Hnew.
  change (charAt "wP" 0) with "w" in Hnew.
  assert (Horigin2 : cellAt b2 r0 c0 = Ok (Some "")).
  { rewrite (promotePawn_other _ _ _ _ r0 c0 _ Hb2); [assumption|].
    intros E. apply Hmne. now symmetry. }
  destruct (afterPlayer_playable b2 gs1
              (setPromotionPosition None
                 (setShowPromotion false
                    (setBoard b2
                       (setBoard b1
                          (setShowPromotion true
                             (setPromotionPosition (Some (0, c)) gm))))))
              Hplay2)
    as (g2 & pend & Hafter & Hbd & Hgs2 & Hsel2 & Hav2 & Hshow2 & Hcases).
  fields.
  exists g2, pend. split.
  { unfold handlePromotion. fields. rewrite Hb2. cbn [bind].
    rewrite Hgs. exact Hafter. }
  rewrite Hbd. split; [exact Hnew|].
  split; [now rewrite Hsel2, Hsm|]. split; [now rewrite Hav2, Ham|].
  intros Hover2.
  assert (Hturn2 : isWhiteTurn b2 = Ok true).
  { apply (isWhiteTurn_after_promotion b1 b2 0 c pieceType).
    - exact (applyMove_Ok_grid (r0, c0) (0, c) _ _ _ _ _ Hg Hon Hmon Happ).
    - exact Hdest.
    - exact Hb2.
    - exact (isWhiteTurn_after_white (board g) b1 (gameState g) gs1 r0 c0 "wP"
               l (0, c) Hg Hc eq_refl Hl Hin Happ Hturn). }
  pose proof Hplay2 as (Hg2 & Hw2 & Hbl2).
  destruct (applyMove_grid (r0, c0) (0, c) "" b2 gs1 Hg2 Hon Hmon)
    as (b3 & gs3 & Happ3 & Hg3).
  assert (Hplay3 : playable b3).
  { split; [assumption|].
    split; eapply applyMove_noFarRankPawn; eauto; intros (_ & HP & _);
      discriminate HP. }
  assert (Hc2 : cellAt (board g2) r0 c0 = Ok (Some "")) by now rewrite Hbd.
  assert (Happ3' : applyMove (r0, c0) (0, c) "" (board g2) (gameState g2)
                   = Ok (b3, gs3)) by now rewrite Hbd, Hgs2, Hgs.
  destruct (moveSelected_run (r0, c0) 0 c g2 "" b3 gs3 Hc2 Happ3')
    as (gm3 & _ & _ & _ & _ & Hrun3).
  cbn [String.eqb andb] in Hrun3.
  destruct (afterPlayer_playable b3 gs3
              (setAvailableMoves [] (setSelectedPiece None (setBoard b3 gm3)))
              Hplay3)
    as (g3 & pend3 & Hafter3 & Hbd3 & _).
  fields. exists g3, pend3. split.
  - unfold handleCellClick. rewrite Hover2, Hshow2. fields.
    rewrite Hbd, Hturn2. cbn [bind]. rewrite Hnew. cbn [bind].
    rewrite Hsel2, Hsm, Hsel, Hav2, Ham, Havail.
    rewrite (existsb_sqEqb_true l 0 c Hin). rewrite Hrun3. exact Hafter3.
  - rewrite Hbd3.
    exact (applyMove_dest _ _ _ _ _ _ _ Happ3 Hmne).
Qed.

Lemma promotion_keeps_selection_lastStep :
  exists g1,
    handleCellClick 0 0
      (mkState lastStep initialGameState (Some (1, 0)) [(0, 0)] "Your turn"
         [] [] false false None) = Ok (g1, None) /\
    showPromotion g1 = true /\ promotionPosition g1 = Some (0, 0) /\
    forall pieceType, In pieceType ["Q"; "R"; "B"; "N"] ->
      exists g2 pend,
        handlePromotion pieceType g1 = Ok (g2, pend) /\
        cellAt (board g2) 0 0 = Ok (Some ("w" ++ pieceType)%string) /\
        selectedPiece g2 = Some (1, 0) /\ availableMoves g2 = [(0, 0)] /\
        (gameOver g2 = false ->
         exists g3 pend',
           handleCellClick 0 0 g2 = Ok (g3, pend') /\
           cellAt (board g3) 0 0 = Ok (Some "")).
Proof.
  apply (promotion_keeps_selection
           (mkState lastStep initialGameState (Some (1, 0)) [(0, 0)] "Your turn"
              [] [] false false None) 1 0 0 [(0, 0)]).
  - reflexivity.
  - reflexivity.
  - vm_compute. reflexivity.
  - exact lastStep_playable.
  - reflexivity.
  - reflexivity.
  - vm_compute. reflexivity.
  - reflexivity.
  - simpl. tauto.
Defined.

(** X22: a turn of the game.  On a playable board on which [isWhiteTurn]
    holds, with a white piece selected and its legal moves stored, a click on
    one of them (not a pawn's arrival on row 0) moves the piece: the board
    stored is playable, the white king is not in check on it, the selection
    is cleared, and [isWhiteTurn] still holds on it (the handler would take
    a second move of the player).  Then either the game is over and no
    computer move is scheduled, or one is scheduled on that very board and
    those rights; when it runs, whatever its draws, it stores a playable
    board that differs from the player's and on which the black king is not
    in check. *)
Theorem component_turn (g : state) (r0 c0 row col : Z) (piece : string)
    (l : list Square) :
  gameOver g = false -> showPromotion g = false ->
  isWhiteTurn (board g) = Ok true -> playable (board g) ->
  selectedPiece g = Some (r0, c0) ->
  cellAt (board g) r0 c0 = Ok (Some piece) -> charAt piece 0 = "w" ->
  (charAt piece 1 = "P" -> piece = "wP") ->
  getPossibleMoves r0 c0 (board g) (gameState g) = Ok l ->
  availableMoves g = l -> In (row, col) l ->
  String.eqb piece "wP" && (row =? 0) = false ->
  exists g1 pend,
    handleCellClick row col g = Ok (g1, pend) /\
    playable (board g1) /\ isKingInCheck (board g1) true = Ok false /\
    selectedPiece g1 = None /\ availableMoves g1 = [] /\
    isWhiteTurn (board g1) = Ok true /\
    ((gameOver g1 = true /\ pend = None) \/
     (gameOver g1 = false /\ pend = Some (board g1, gameState g1) /\
      forall u1 u2, isDraw u1 -> isDraw u2 ->
        exists g2,
          computerReply (board g1) (gameState g1) u1 u2 g1 = Ok g2 /\
          playable (board g2) /\ board g2 <> board g1 /\
          isKingInCheck (board g2) false = Ok false)).
Proof.
  intros Hover Hshow Hturn Hplay Hsel Hc Hcol Hpawn Hl Havail Hin Hnopromo.
  pose proof Hplay as (Hg & Hw & Hb).
  pose proof (cellAt_Some_col _ _ _ _ Hg Hc) as Hon.
  pose proof (getPossibleMoves_onBoard _ _ _ _ _ Hg Hon Hl _ Hin) as Hmon.
  cbn [fst snd] in Hmon.
  destruct (player_move_result (board g) (gameState g) r0 c0 piece l (row, col)
              Hplay Hc Hcol Hpawn Hl Hin)
    as (b1 & gs1 & Happ & Hle & Hsafe & Hplay1).
  cbn [fst snd] in Hplay1. rewrite Hnopromo in Hplay1.
  destruct (moveSelected_run (r0, c0) row col g piece b1 gs1 Hc Happ)
    as (gm & Hgs & Hsm & Ham & Hgo & Hrun).
  rewrite Hnopromo in Hrun.
  destruct (afterPlayer_playable b1 gs1
              (setAvailableMoves [] (setSelectedPiece None (setBoard b1 gm)))
              Hplay1)
    as (g1 & pend & Hafter & Hbd & Hgs1 & Hsel1 & Hav1 & _ & Hcases).
  fields. exists g1, pend. split.
  { unfold handleCellClick. rewrite Hover, Hshow, Hturn. cbn [bind].
    destruct (grid_cellAt (board g) row col Hg Hmon) as [s ->]. cbn [bind].
    rewrite Hsel, Havail, (existsb_sqEqb_true l row col Hin), Hrun.
    exact Hafter. }
  rewrite Hbd, Hgs1, Hgs. do 4 (split; [assumption|]).
  split.
  { exact (isWhiteTurn_after_white (board g) b1 (gameState g) gs1 r0 c0 piece
             l (row, col) Hg Hc Hcol Hl Hin Happ Hturn). }
  destruct Hcases as [[Hend ->]|(Hgo1 & -> & Hany)]; [left; auto|right].
  split; [congruence|]. split; [reflexivity|].
  intros u1 u2 Hu1 Hu2.
  destruct (makeComputerMove_result b1 gs1 u1 u2 Hplay1 Hu1 Hu2)
    as (b2 & gs2 & Hmove & Hplay2 & _ & Hmoved).
  destruct (Hmoved Hany) as [Hdiff Hsafe2].
  pose proof Hplay2 as (Hg2 & Hw2 & Hb2).
  unfold computerReply. rewrite Hmove. cbn [bind fst snd]. cbv zeta.
  destruct (updateCapturedPieces_total b2 Hg2) as [captured ->]. cbn [bind].
  destruct (isGameOver_total b2 gs2 Hplay2) as (over & -> & _). cbn [bind].
  destruct over.
  - unfold handleGameOver.
    destruct (getGameStatus_total b2 gs2 Hplay2) as [s ->]. cbn [bind].
    eexists. split; [reflexivity|]. fields. auto.
  - destruct (isKingInCheck_total b2 true Hg2 Hb2) as [chk ->]. cbn [bind].
    eexists. split; [reflexivity|]. fields. auto.
Qed.

Lemma component_turn_start :
  exists g1 pend,
    handleCellClick 4 4
      (mkState initialBoard initialGameState (Some (6, 4)) [(5, 4); (4, 4)]
         "Your turn" [] [] false false None) = Ok (g1, pend) /\
    playable (board g1) /\ isKingInCheck (board g1) true = Ok false /\
    selectedPiece g1 = None /\ availableMoves g1 = [] /\
    isWhiteTurn (board g1) = Ok true /\
    ((gameOver g1 = true /\ pend = None) \/
     (gameOver g1 = false /\ pend = Some (board g1, gameState g1) /\
      forall u1 u2, isDraw u1 -> isDraw u2 ->
        exists g2,
          computerReply (board g1) (gameState g1) u1 u2 g1 = Ok g2 /\
          playable (board g2) /\ board g2 <> board g1 /\
          isKingInCheck (board g2) false = Ok false)).
Proof.
  apply (component_turn
           (mkState initialBoard initialGameState (Some (6, 4))
              [(5, 4); (4, 4)] "Your turn" [] [] false false None)
           6 4 4 4 "wP" [(5, 4); (4, 4)]).
  - reflexivity.
  - reflexivity.
  - vm_compute. reflexivity.
  - exact initialBoard_playable.
  - reflexivity.
  - reflexivity.
  - reflexivity.
  - reflexivity.
  - vm_compute. reflexivity.
  - reflexivity.
  - simpl. tauto.
  - reflexivity.
Defined.

(** X23: the player locked out.  [handleCellClick] acts only when
    [isWhiteTurn] holds, and [isWhiteTurn] compares piece counts: as soon as
    the board holds more black than white pieces (or more than sixteen white
    ones) every click returns the state as it is and schedules nothing, and
    so does any run of clicks. *)
Theorem outnumbered_ignores_clicks (g : state) (w b : Z) :
  countPieces (board g) squares 0 0 = Ok (w, b) -> 16 < w \/ w < b ->
  (forall row col, handleCellClick row col g = Ok (g, None)) /\
  (forall cs, clicks cs g = Ok g).
Proof.
  intros Hcount Hout.
  assert (Hclick : forall row col, handleCellClick row col g = Ok (g, None)).
  { intros row col. unfold handleCellClick.
    destruct (gameOver g); [reflexivity|].
    destruct (showPromotion g); [reflexivity|].
    unfold isWhiteTurn. rewrite Hcount. cbn [bind fst snd].
    replace ((w <=? 16) && (w >=? b)) with false; [reflexivity|].
    symmetry. apply andb_false_iff. rewrite Z.geb_leb.
    destruct Hout; [left|right]; apply Z.leb_gt; assumption. }
  split; [exact Hclick|].
  induction cs as [|[row col] cs IH]; [reflexivity|].
  cbn [clicks]. rewrite Hclick. cbn [bind fst]. exact IH.
Qed.

Lemma outnumbered_ignores_clicks_behind :
  (forall row col,
     handleCellClick row col
       (mkState farRankBoardBlack initialGameState None [] "Your turn" [] []
          false false None)
     = Ok (mkState farRankBoardBlack initialGameState None [] "Your turn" [] []
             false false None, None)) /\
  (forall cs,
     clicks cs
       (mkState farRankBoardBlack initialGameState None [] "Your turn" [] []
          false false None)
     = Ok (mkState farRankBoardBlack initialGameState None [] "Your turn" [] []
             false false None)).
Proof.
  apply (outnumbered_ignores_clicks
           (mkState farRankBoardBlack initialGameState None [] "Your turn" [] []
              false false None) 1 2).
  - vm_compute. reflexivity.
  - right. lia.
Defined.
